(** * three-music-rollercoaster: time synchronisation and camera kinematics

    A shallow embedding of the temporal index resolver (web/utils.js), the
    zone state machine (web/main.js, audio.js), the path generator
    (rollercoaster.js) and the camera engine (camera.js), with the properties
    the specification states about them.

    JavaScript numbers are idealised as rationals ([Q]) and [NaN]: every
    comparison, sum, product and guarded quotient of the source is computed
    exactly, and [NaN] ([None] of an [option Q]) is carried through them as
    the source carries it.  A field of a sample holds a number or [NaN] (the
    loader fills the fields with [parseFloat]), or is absent; the
    infinities are outside the model. *)

From Stdlib Require Import ZArith QArith Qabs Qround Qminmax.
From Stdlib Require Import List String Bool Lia Lqa.
From Stdlib Require Strings.Byte.
Import ListNotations.

Local Open Scope Z_scope.

(** ** JavaScript values *)

Module JS.

(** Result of running a piece of JavaScript: a value, an uncaught
    exception, or a loop that did not finish within the given fuel. *)
Inductive outcome (A : Type) : Type :=
| Ret (a : A)
| Throw
| OutOfFuel.
Arguments Ret {A} a.
Arguments Throw {A}.
Arguments OutOfFuel {A}.

Definition Qltb (a b : Q) : bool := negb (Qle_bool b a).

(** A number: a rational, or [NaN] ([None]). *)
Definition number := option Q.

(** [a < b] where [a] may be [NaN]: the comparison is then false. *)
Definition lt_l (a : number) (b : Q) : bool :=
  match a with Some x => Qltb x b | None => false end.

(** [a > b] where [a] may be [NaN]. *)
Definition gt_l (a : number) (b : Q) : bool :=
  match a with Some x => Qltb b x | None => false end.

(** [a < b] where both sides may be [NaN]. *)
Definition lt_nan (a b : number) : bool :=
  match a, b with Some x, Some y => Qltb x y | _, _ => false end.

(** [Math.abs(a - b)], [NaN] when [a] is. *)
Definition abs_diff (a : number) (b : Q) : number :=
  match a with Some x => Some (Qabs (x - b)) | None => None end.

(** An object as its fields of type number, in insertion order; a field
    holds a rational or [NaN].  A field whose value is of another type
    behaves, for every use the sources make of it
    ([typeof v === 'number'], arithmetic, ordering comparisons), like an
    absent one. *)
Definition object := list (string * number).

(** [a === b] on values that are a string or [undefined]. *)
Definition opt_string_eqb (a b : option string) : bool :=
  match a, b with
  | Some x, Some y => String.eqb x y
  | None, None => true
  | _, _ => false
  end.

(** [o.k]: the number the field holds, [None] ([undefined]) when the
    object has no such field. *)
Fixpoint get (k : string) (o : object) : option number :=
  match o with
  | [] => None
  | (k', v) :: o' => if String.eqb k k' then Some v else get k o'
  end.

(** [typeof v === 'number']: true of [NaN] as well. *)
Definition is_number (v : option number) : bool :=
  match v with Some _ => true | None => false end.

(** A value read in arithmetic or in an ordering comparison: [undefined]
    behaves there like [NaN]. *)
Definition to_number (v : option number) : number :=
  match v with Some n => n | None => None end.

(** [o.k] as it is used in arithmetic and comparisons. *)
Definition field (k : string) (o : object) : number := to_number (get k o).

End JS.
Import JS.

(** ** The time series store *)

(** A series is an array whose entries may be missing ([undefined]). *)
Definition sample := object.
Definition series := list (option sample).

(** [{ time: t, energy: e }] *)
Definition mkSample (t e : Q) : option sample :=
  Some [("time"%string, Some t); ("energy"%string, Some e)].

Definition len (d : series) : Z := Z.of_nat (List.length d).

(** [d[i]]: [undefined] outside the array and at a missing entry. *)
Definition at_index (d : series) (i : Z) : option sample :=
  if i <? 0 then None
  else match nth_error d (Z.to_nat i) with
       | Some (Some s) => Some s
       | _ => None
       end.

(** [d[i].time] and [d[i].energy] as numbers, [NaN] where there is no
    such entry or field. *)
Definition time_at (d : series) (i : Z) : number :=
  match at_index d i with Some s => field "time" s | None => None end.

Definition energy_at (d : series) (i : Z) : number :=
  match at_index d i with Some s => field "energy" s | None => None end.

(** [d[i] && typeof d[i].k === 'number'] *)
Definition has_number (k : string) (d : series) (i : Z) : bool :=
  match at_index d i with
  | Some s => is_number (get k s)
  | None => false
  end.

(** The time column of a series, when every entry has a time that is not
    [NaN]. *)
Fixpoint all_times (d : series) : option (list Q) :=
  match d with
  | [] => Some []
  | Some s :: d' =>
      match field "time" s, all_times d' with
      | Some t, Some ts => Some (t :: ts)
      | _, _ => None
      end
  | None :: _ => None
  end.

Fixpoint sortedQ (l : list Q) : bool :=
  match l with
  | a :: ((b :: _) as r) => Qle_bool a b && sortedQ r
  | _ => true
  end.

(** A time-ascending series: every sample carries a time, none of them
    [NaN], and times never decrease. *)
Definition ascendingb (d : series) : bool :=
  match all_times d with
  | Some ts => sortedQ ts
  | None => false
  end.

(** ** web/utils.js *)

Module Utils.

(** The code after the search loop of [findClosestTimeIndex]. *)
Definition closest_of_bracket (time : Q) (d : series) (left right : Z)
  : outcome Z :=
  if right <? 0 then Ret 0
  else if left >=? len d then Ret (len d - 1)
  else
    match at_index d right, at_index d left with
    | Some sr, Some sl =>
        let leftDiff := abs_diff (field "time" sr) time in
        let rightDiff := abs_diff (field "time" sl) time in
        Ret (if lt_nan leftDiff rightDiff then right else left)
    | _, _ => Throw
    end.

Fixpoint closest_loop (fuel : nat) (time : Q) (d : series) (left right : Z)
  : outcome Z :=
  if left <=? right then
    match fuel with
    | O => OutOfFuel
    | S fuel' =>
        let mid := (left + right) / 2 in
        match at_index d mid with
        | None => Throw
        | Some s =>
            if lt_l (field "time" s) time
            then closest_loop fuel' time d (mid + 1) right
            else if gt_l (field "time" s) time
                 then closest_loop fuel' time d left (mid - 1)
                 else Ret mid
        end
    end
  else closest_of_bracket time d left right.

Definition findClosestTimeIndex (time : Q) (energyData : series)
  : outcome Z :=
  closest_loop (S (List.length energyData)) time energyData
               0 (len energyData - 1).

(** [energyData[i] && typeof energyData[i].time === 'number'] *)
Definition valid_time (d : series) (i : Z) : bool := has_number "time" d i.

(** [for (i = from; i <= right; i++)] looking for a valid entry; [count]
    is the number of indices still to visit. *)
Fixpoint first_valid_up (d : series) (i : Z) (count : nat) : option Z :=
  match count with
  | O => None
  | S c => if valid_time d i then Some i else first_valid_up d (i + 1) c
  end.

(** [for (i = from; i >= left; i--)] looking for a valid entry. *)
Fixpoint first_valid_down (d : series) (i : Z) (count : nat) : option Z :=
  match count with
  | O => None
  | S c => if valid_time d i then Some i else first_valid_down d (i - 1) c
  end.

(** The code after the bracketing loop of [findExactIndexFromTime]; the
    result [None] is [NaN]: a time that is [NaN] fails both tolerance
    tests and the test [timeDiff <= 0], and the interpolation gives
    [NaN]. *)
Definition exact_of_bracket (time : Q) (d : series) (left right : Z)
  : outcome (option Q) :=
  match at_index d left with
  | None => Throw
  | Some sl =>
      if lt_nan (abs_diff (field "time" sl) time) (Some (1#1000))
      then Ret (Some (inject_Z left))
      else
        match at_index d right with
        | None => Throw
        | Some sr =>
            if lt_nan (abs_diff (field "time" sr) time) (Some (1#1000))
            then Ret (Some (inject_Z right))
            else
              match field "time" sl, field "time" sr with
              | Some leftTime, Some rightTime =>
                  let timeDiff := (rightTime - leftTime)%Q in
                  if Qle_bool timeDiff 0 then Ret (Some (inject_Z left))
                  else
                    let fraction := ((time - leftTime) / timeDiff)%Q in
                    Ret (Some (inject_Z left + fraction)%Q)
              | _, _ => Ret None
              end
        end
  end.

Fixpoint exact_loop (fuel : nat) (time : Q) (d : series) (left right : Z)
  : outcome (option Q) :=
  if right - left >? 1 then
    match fuel with
    | O => OutOfFuel
    | S fuel' =>
        let mid := (left + right) / 2 in
        if negb (valid_time d mid) then
          let validIndex :=
            match first_valid_up d mid (Z.to_nat (right - mid + 1)) with
            | Some i => Some i
            | None => first_valid_down d (mid - 1) (Z.to_nat (mid - left))
            end in
          match validIndex with
          | None => Ret (Some 0%Q)
          | Some v =>
              if v >=? mid
              then exact_loop fuel' time d v right
              else exact_loop fuel' time d left v
          end
        else if lt_l (time_at d mid) time
             then exact_loop fuel' time d mid right
             else exact_loop fuel' time d left mid
    end
  else exact_of_bracket time d left right.

(** [try { ... } catch (error) { return 0; }] *)
Definition catch_zero (r : outcome (option Q)) : outcome (option Q) :=
  match r with
  | Throw => Ret (Some 0%Q)
  | _ => r
  end.

Definition findExactIndexFromTime (time : Q) (energyData : series)
  : outcome (option Q) :=
  match energyData with
  | [] => Ret (Some 0%Q)
  | _ =>
      let left := 0 in
      let right := len energyData - 1 in
      if negb (valid_time energyData left) || negb (valid_time energyData right)
      then Ret (Some 0%Q)
      else catch_zero
             (exact_loop (List.length energyData) time energyData left right)
  end.

(** The part of [findNormalizedPositionFromTime] that follows the call of
    [findExactIndexFromTime]; [exactIndex = None] is [NaN], on which both
    guards are false and every later result is [NaN].  An energy that is
    [NaN] passes the [typeof] tests and makes the rate, and with it the
    result, [NaN]. *)
Definition normalized_of_exact (energyData : series) (exactIndex : option Q)
  : option Q :=
  match exactIndex with
  | None => None
  | Some x =>
      if Qle_bool x 0 then Some 0%Q
      else if Qle_bool (inject_Z (len energyData - 1)) x then Some (99#100)
      else
        let idx := Qfloor x in
        let nextIdx := Z.min (idx + 1) (len energyData - 1) in
        let energyChangeRate : number :=
          if has_number "energy" energyData nextIdx
             && has_number "energy" energyData idx
          then match energy_at energyData nextIdx, energy_at energyData idx with
               | Some en, Some ei => Some (Qabs (en - ei))
               | _, _ => None
               end
          else Some 0%Q in
        let basePosition := (x / inject_Z (len energyData - 1))%Q in
        match energyChangeRate with
        | Some rate =>
            let speedMultiplier := ((15#10) + rate * 5)%Q in
            Some (Qmin (99#100) (basePosition * speedMultiplier)%Q)
        | None => None
        end
  end.

Definition findNormalizedPositionFromTime (time : Q) (energyData : series)
  : outcome (option Q) :=
  match energyData with
  | [] => Ret (Some 0%Q)
  | _ =>
      match catch_zero (findExactIndexFromTime time energyData) with
      | Ret x => Ret (normalized_of_exact energyData x)
      | Throw => Throw
      | OutOfFuel => OutOfFuel
      end
  end.

End Utils.

(** ** config.js *)

Module Config.

Record palette := { name : string; displayName : string }.

(** [zonePalettes], keys 0 to 4 in order; the colour fields play no part
    in what follows. *)
Definition zonePalettes : list palette :=
  [ {| name := "low";      displayName := "Low Energy" |};
    {| name := "medium";   displayName := "Medium Energy" |};
    {| name := "high";     displayName := "High Energy" |};
    {| name := "ethereal"; displayName := "Ethereal" |};
    {| name := "cosmic";   displayName := "Cosmic" |} ].

Definition zoneCount : Z := Z.of_nat (List.length zonePalettes).

(** [zonePalettes[k]] for an integer key. *)
Definition palette_at (k : Z) : option palette :=
  if k <? 0 then None else nth_error zonePalettes (Z.to_nat k).

(** [getZoneNameFromValue] on an integer zone value; a property read on a
    missing palette is a [TypeError]. *)
Definition getZoneNameFromValue (zoneValue : Z) : outcome string :=
  if zoneValue <? 0 then
    match palette_at 0 with Some p => Ret (name p) | None => Throw end
  else
    match palette_at zoneValue with
    | Some p => Ret (name p)
    | None =>
        let wrappedZoneValue := Z.rem zoneValue zoneCount in
        match palette_at wrappedZoneValue with
        | Some p => Ret (name p)
        | None => Throw
        end
    end.

(** [getZoneNameFromValue] on a zone value that may be [NaN] ([None]):
    the first test, [isNaN(numericZoneValue)], gives the first palette. *)
Definition getZoneNameFromNumber (zoneValue : option Z) : outcome string :=
  match zoneValue with
  | Some z => getZoneNameFromValue z
  | None =>
      match palette_at 0 with Some p => Ret (name p) | None => Throw end
  end.

Record state := {
  isPlaying : bool;
  currentIndex : Z;
  currentZone : option string;
  firstPersonMode : bool;
  psychedelicEffectsEnabled : bool
}.

Definition initial_state : state :=
  {| isPlaying := false; currentIndex := 0; currentZone := Some "low"%string;
     firstPersonMode := true; psychedelicEffectsEnabled := true |}.

Definition set_currentZone (z : option string) (s : state) : state :=
  {| isPlaying := isPlaying s; currentIndex := currentIndex s;
     currentZone := z; firstPersonMode := firstPersonMode s;
     psychedelicEffectsEnabled := psychedelicEffectsEnabled s |}.

Definition set_currentIndex (i : Z) (s : state) : state :=
  {| isPlaying := isPlaying s; currentIndex := i;
     currentZone := currentZone s; firstPersonMode := firstPersonMode s;
     psychedelicEffectsEnabled := psychedelicEffectsEnabled s |}.

Definition set_firstPersonMode (b : bool) (s : state) : state :=
  {| isPlaying := isPlaying s; currentIndex := currentIndex s;
     currentZone := currentZone s; firstPersonMode := b;
     psychedelicEffectsEnabled := psychedelicEffectsEnabled s |}.

(** [config.defaultHeightAboveTrack] *)
Definition defaultHeightAboveTrack : Q := 4.

End Config.

(** ** DOM events *)

Module DOM.

Inductive target := Document | Window | AudioElement.

Definition target_eqb (a b : target) : bool :=
  match a, b with
  | Document, Document | Window, Window | AudioElement, AudioElement => true
  | _, _ => false
  end.

(** A [CustomEvent] with the [detail] the zone state machine gives it: the
    zone ([None] is [undefined]) and the energy ([None] is [undefined],
    [Some None] is [NaN]). *)
Record event := {
  ev_type : string;
  ev_zone : option string;
  ev_energy : option number
}.

Inductive handler :=
| handleZoneChange
| updatePositionFromTime
| handleWindowResize
| handleKeyDown
| setupSongSelection.

Record listener := {
  l_target : target;
  l_type : string;
  l_handler : handler
}.

(** [target.dispatchEvent(e)]: the handlers invoked, in registration order.
    Event types are compared as they are written: the comparison is
    case-sensitive. *)
Definition dispatchEvent (ls : list listener) (tg : target) (e : event)
  : list handler :=
  map l_handler
      (filter (fun l => target_eqb (l_target l) tg
                        && String.eqb (l_type l) (ev_type e)) ls).

End DOM.

(** The mutable state shared by main.js and audio.js: [state] of config.js,
    the listeners registered so far, every event dispatched and every
    handler call it caused. *)
Record world := {
  st : Config.state;
  listeners : list DOM.listener;
  dispatched : list (DOM.target * DOM.event);
  calls : list (DOM.handler * DOM.event)
}.

Definition with_state (f : Config.state -> Config.state) (w : world) : world :=
  {| st := f (st w); listeners := listeners w;
     dispatched := dispatched w; calls := calls w |}.

Definition addEventListener (tg : DOM.target) (ty : string) (h : DOM.handler)
           (w : world) : world :=
  {| st := st w;
     listeners := listeners w ++ [ {| DOM.l_target := tg; DOM.l_type := ty;
                                      DOM.l_handler := h |} ];
     dispatched := dispatched w; calls := calls w |}.

Definition dispatch (tg : DOM.target) (e : DOM.event) (w : world) : world :=
  {| st := st w; listeners := listeners w;
     dispatched := dispatched w ++ [(tg, e)];
     calls := calls w
              ++ map (fun h => (h, e)) (DOM.dispatchEvent (listeners w) tg e) |}.

(** A zone series entry: [{ time, zone }], the zone parsed by [parseInt]
    ([None] when it is [NaN]). *)
Record zoneSample := { z_time : option Q; zone : option Z }.
Definition zoneSeries := list (option zoneSample).

Definition zone_at_index (zd : zoneSeries) (i : Z) : option zoneSample :=
  if i <? 0 then None
  else match nth_error zd (Z.to_nat i) with
       | Some (Some z) => Some z
       | _ => None
       end.

(** ** web/main.js *)

Module Main.

(** The listeners main.js and audio.js register while a ride is set up. *)
Definition register_listeners (w : world) : world :=
  addEventListener DOM.Window "keydown" DOM.handleKeyDown
    (addEventListener DOM.Document "zonechange" DOM.handleZoneChange
      (addEventListener DOM.AudioElement "timeupdate" DOM.updatePositionFromTime
        (addEventListener DOM.Window "resize" DOM.handleWindowResize
          (addEventListener DOM.Window "DOMContentLoaded"
                            DOM.setupSongSelection w)))).

Definition initial_world : world :=
  register_listeners
    {| st := Config.initial_state; listeners := [];
       dispatched := []; calls := [] |}.

(** The energy-band fallback of [updateUIIndicators]:
    [Math.min(Math.floor(currentEnergy / zoneSize), zoneCount - 1)]. *)
Definition energy_zone (currentEnergy : Q) : outcome string :=
  let zoneSize := (1 / inject_Z Config.zoneCount)%Q in
  let zoneIndex := Z.min (Qfloor (currentEnergy / zoneSize)) (Config.zoneCount - 1) in
  Config.getZoneNameFromValue zoneIndex.

(** The fallback on an energy that may be [NaN]: [Math.min] and
    [Math.floor] keep the [NaN], which [getZoneNameFromValue] maps to the
    first palette. *)
Definition energy_zone_of (currentEnergy : number) : outcome string :=
  match currentEnergy with
  | Some e => energy_zone e
  | None => Config.getZoneNameFromNumber None
  end.

(** The zone [updateUIIndicators] reads for an index: the zone series when
    it has a numeric zone there, the energy bands otherwise. *)
Definition zone_candidate (zoneData : zoneSeries) (currentIndex : Z)
           (currentEnergy : number) : outcome string :=
  match zone_at_index zoneData currentIndex with
  | Some z =>
      match zone z with
      | Some zoneValue => Config.getZoneNameFromValue zoneValue
      | None => energy_zone_of currentEnergy
      end
  | None => energy_zone_of currentEnergy
  end.

(** [new CustomEvent('zoneChange', { detail: { zone, energy } })] *)
Definition zoneChange (newZone : option string)
           (currentEnergy : option number) : DOM.event :=
  {| DOM.ev_type := "zoneChange";
     DOM.ev_zone := newZone;
     DOM.ev_energy := currentEnergy |}.

(** [updateUIIndicators]; the texts written to the page are left out.
    The page has its [current-energy] element, so
    [currentEnergy.toFixed(2)] is evaluated and raises a [TypeError] when
    the sample has no energy; on [NaN] it does not. *)
Definition updateUIIndicators (currentTime : Q) (energyData : series)
           (zoneData : zoneSeries) (currentIndex : Z) (w : world)
  : outcome world :=
  match at_index energyData currentIndex with
  | None => Ret w
  | Some s =>
      match get "energy" s with
      | None => Throw
      | Some currentEnergy =>
          match zone_candidate zoneData currentIndex currentEnergy with
          | Ret newZone =>
              if negb (opt_string_eqb (Some newZone)
                                      (Config.currentZone (st w)))
              then
                Ret (dispatch DOM.Document
                       (zoneChange (Some newZone) (Some currentEnergy))
                       (with_state (Config.set_currentZone (Some newZone)) w))
              else Ret w
          | Throw => Throw
          | OutOfFuel => OutOfFuel
          end
      end
  end.

(** The part of [animate] that resolves the index and refreshes the
    indicators: the world the frame leaves behind, also when it ends by an
    exception (nothing is written before [findClosestTimeIndex] returns,
    and [state.currentIndex] is assigned before [updateUIIndicators] is
    called). *)
Definition animate_indicators (currentTime : Q) (energyData : series)
           (zoneData : zoneSeries) (w : world) : world :=
  match Utils.findClosestTimeIndex currentTime energyData with
  | Ret i =>
      let w1 := with_state (Config.set_currentIndex i) w in
      match updateUIIndicators currentTime energyData zoneData i w1 with
      | Ret w2 => w2
      | Throw | OutOfFuel => w1
      end
  | Throw | OutOfFuel => w
  end.

End Main.

(** ** audio.js *)

Module Audio.

(** [['low', 'medium', 'high'][zoneValue]] *)
Definition zone_of_value (zoneValue : option Z) : option string :=
  match zoneValue with
  | Some 0 => Some "low"%string
  | Some 1 => Some "medium"%string
  | Some 2 => Some "high"%string
  | _ => None
  end.

(** The thresholds 0.33 and 0.66; an energy that is [undefined] or [NaN]
    fails both tests. *)
Definition energy_zone (currentEnergy : number) : string :=
  if lt_nan currentEnergy (Some (33#100)) then "low"
  else if match currentEnergy with
          | Some e => Qle_bool (33#100) e && Qle_bool e (66#100)
          | None => false
          end
       then "medium"
       else "high".

(** The zone [updatePositionFromTime] reads for an index; [None] is
    [undefined]. *)
Definition zone_candidate (zoneData : zoneSeries) (newIndex : Z)
           (currentEnergy : number) : option string :=
  match zone_at_index zoneData newIndex with
  | Some z => zone_of_value (zone z)
  | None => Some (energy_zone currentEnergy)
  end.

(** The body of [updatePositionFromTime] once the index is resolved. *)
Definition updatePositionFromIndex (energyData : series)
           (zoneData : zoneSeries) (newIndex : Z) (w : world) : world :=
  if negb (newIndex =? Config.currentIndex (st w)) then
    let w1 := with_state (Config.set_currentIndex newIndex) w in
    match at_index energyData newIndex with
    | None => w1
    | Some s =>
        let currentEnergy := get "energy" s in
        let newZone :=
          zone_candidate zoneData newIndex (to_number currentEnergy) in
        if negb (opt_string_eqb newZone (Config.currentZone (st w1))) then
          dispatch DOM.Document
            (Main.zoneChange newZone currentEnergy)
            (with_state (Config.set_currentZone newZone) w1)
        else w1
    end
  else w.

(** [updatePositionFromTime]: the world the handler leaves behind, also
    when [findClosestTimeIndex] throws. *)
Definition updatePositionFromTime (currentTime : Q) (energyData : series)
           (zoneData : zoneSeries) (w : world) : world :=
  match Utils.findClosestTimeIndex currentTime energyData with
  | Ret newIndex => updatePositionFromIndex energyData zoneData newIndex w
  | Throw | OutOfFuel => w
  end.

End Audio.

(** ** Numbers that may be NaN, vectors and the numeric library *)

Module Num.

(** A JavaScript number that may be [NaN] ([None]). *)
Definition num := number.

(** A function of [Math] and an arithmetic operation on numbers that may
    be [NaN]: the result is [NaN] when an argument is. *)
Definition lift1 (f : Q -> Q) (a : num) : num := option_map f a.

Definition lift2 (f : Q -> Q -> Q) (a b : num) : num :=
  match a, b with
  | Some x, Some y => Some (f x y)
  | _, _ => None
  end.

Definition plus : num -> num -> num := lift2 Qplus.
Definition minus : num -> num -> num := lift2 Qminus.
Definition mult : num -> num -> num := lift2 Qmult.
Definition div : num -> num -> num := lift2 Qdiv.

(** [Math.abs] *)
Definition abs : num -> num := lift1 Qabs.

(** [Math.min(a, b)], [Math.max(a, b)] and [a + b] with a numeric [b]. *)
Definition min (a : num) (b : Q) : num := option_map (fun x => Qmin x b) a.
Definition max (a : num) (b : Q) : num := option_map (fun x => Qmax x b) a.
Definition add (a : num) (b : Q) : num := option_map (fun x => (x + b)%Q) a.

(** [Math.min(b, a)] and [Math.max(b, a)] with a numeric [b]. *)
Definition min_of (b : Q) (a : num) : num := option_map (fun x => Qmin b x) a.
Definition max_of (b : Q) (a : num) : num := option_map (fun x => Qmax b x) a.

(** [Math.floor], [NaN] on [NaN]. *)
Definition floor (a : num) : option Z := option_map Qfloor a.

(** [Math.sign] *)
Definition sign (a : Q) : Q :=
  if Qltb 0 a then 1%Q else if Qltb a 0 then (-1)%Q else 0%Q.

(** The functions of [Math] and of the rendering library that have no
    exact rational counterpart, on numbers that are not [NaN] (on [NaN]
    those of [Math] give [NaN]).  Every property below holds whatever they
    compute. *)
Record Numerics := {
  sqrt : Q -> Q;
  atan : Q -> Q;
  sin : Q -> Q;
  cos : Q -> Q;
  PI : Q;
  (** the Euler angles [camera.lookAt(target)] gives a camera at [eye] *)
  lookRotation : num * num * num -> num * num * num -> num * num * num
}.

End Num.

Module Vec.

(** A [THREE.Vector3]: each coordinate is a number or [NaN]. *)
Record vec3 := { x : Num.num; y : Num.num; z : Num.num }.

Definition v (a b c : Num.num) : vec3 := {| x := a; y := b; z := c |}.

(** The vector of three numbers that are not [NaN]. *)
Definition of_Q (a b c : Q) : vec3 := v (Some a) (Some b) (Some c).

Definition add (a b : vec3) : vec3 :=
  v (Num.plus (x a) (x b)) (Num.plus (y a) (y b)) (Num.plus (z a) (z b)).

Definition multiplyScalar (a : vec3) (k : Num.num) : vec3 :=
  v (Num.mult (x a) k) (Num.mult (y a) k) (Num.mult (z a) k).

Definition crossVectors (a b : vec3) : vec3 :=
  v (Num.minus (Num.mult (y a) (z b)) (Num.mult (z a) (y b)))
    (Num.minus (Num.mult (z a) (x b)) (Num.mult (x a) (z b)))
    (Num.minus (Num.mult (x a) (y b)) (Num.mult (y a) (x b))).

(** [normalize()]: [divideScalar(length() || 1)]; a length that is 0 or
    [NaN] is falsy. *)
Definition normalize (M : Num.Numerics) (a : vec3) : vec3 :=
  let length :=
    Num.lift1 (Num.sqrt M)
      (Num.plus (Num.plus (Num.mult (x a) (x a)) (Num.mult (y a) (y a)))
                (Num.mult (z a) (z a))) in
  let l := match length with
           | Some l' => if Qeq_bool l' 0 then 1%Q else l'
           | None => 1%Q
           end in
  multiplyScalar a (Some (1 / l)%Q).

Definition tuple (a : vec3) : Num.num * Num.num * Num.num := (x a, y a, z a).

End Vec.

(** ** camera.js *)

Module Camera.
Import Vec.

(** The path as the camera uses it: position and tangent queries by curve
    parameter.  [None] as a result is a value that fails the validation of
    the caller (not an object with three coordinates of type number); a
    vector with a coordinate [NaN] passes it. *)
Record curve := {
  getPointAt : Num.num -> option vec3;
  getTangentAt : Num.num -> option vec3
}.

(** The camera, the controls and what the engine consumes besides its
    arguments: the future results of [Math.random()], and the parameters
    it has passed to the path so far. *)
Record rig := {
  position : vec3;
  rotation : vec3;
  orbitTarget : vec3;
  mouseDrag : bool;
  random : nat -> Q;
  drawn : nat;
  queried : list Num.num
}.

Definition set_position (p : vec3) (r : rig) : rig :=
  {| position := p; rotation := rotation r; orbitTarget := orbitTarget r;
     mouseDrag := mouseDrag r; random := random r; drawn := drawn r;
     queried := queried r |}.

Definition set_rotation (p : vec3) (r : rig) : rig :=
  {| position := position r; rotation := p; orbitTarget := orbitTarget r;
     mouseDrag := mouseDrag r; random := random r; drawn := drawn r;
     queried := queried r |}.

Definition set_orbitTarget (p : vec3) (r : rig) : rig :=
  {| position := position r; rotation := rotation r; orbitTarget := p;
     mouseDrag := mouseDrag r; random := random r; drawn := drawn r;
     queried := queried r |}.

Definition log_query (u : Num.num) (r : rig) : rig :=
  {| position := position r; rotation := rotation r;
     orbitTarget := orbitTarget r; mouseDrag := mouseDrag r;
     random := random r; drawn := drawn r;
     queried := queried r ++ [u] |}.

(** [Math.random()] *)
Definition Math_random (r : rig) : Q * rig :=
  (random r (drawn r),
   {| position := position r; rotation := rotation r;
      orbitTarget := orbitTarget r; mouseDrag := mouseDrag r;
      random := random r; drawn := S (drawn r);
      queried := queried r |}).

(** The same rig with another state of the random number generator. *)
Definition with_random (g : nat -> Q) (k : nat) (r : rig) : rig :=
  {| position := position r; rotation := rotation r;
     orbitTarget := orbitTarget r; mouseDrag := mouseDrag r;
     random := g; drawn := k; queried := queried r |}.

(** The pose: what the renderer reads from the camera. *)
Definition pose (r : rig) : vec3 * vec3 := (position r, rotation r).

(** The rate of energy change [updateCameraPosition] computes:
    [currentEnergyIndex] is the floor of the normalized position.  On a
    position that is [NaN] the two indices are [NaN] and the entries read
    [undefined], so the rate stays 0; an energy that is [NaN] passes the
    [typeof] tests and makes the rate [NaN]. *)
Definition energyChangeRate (normalizedPosition : Num.num)
           (energyData : series) : Num.num :=
  match Num.floor normalizedPosition with
  | None => Some 0%Q
  | Some currentEnergyIndex =>
      let prevEnergyIndex := Z.max 0 (currentEnergyIndex - 1) in
      let nextEnergyIndex := Z.min (len energyData - 1) (currentEnergyIndex + 1) in
      if has_number "energy" energyData nextEnergyIndex
         && has_number "energy" energyData prevEnergyIndex
      then
        Num.div (Num.minus (energy_at energyData nextEnergyIndex)
                           (energy_at energyData prevEnergyIndex))
                (Some 2%Q)
      else Some 0%Q
  end.

(** The quantities derived from a rate that is not [NaN]; on [NaN] each of
    them is [NaN]. *)
Definition heightAboveTrack (energyChangeRate : Q) : Q :=
  let dynamicHeightAdjustment := (energyChangeRate * 3)%Q in
  Qmax 2 (Config.defaultHeightAboveTrack - dynamicHeightAdjustment)%Q.

Definition dynamicLookAhead (energyChangeRate : Q) : Q :=
  let baseLookAheadDistance := (1#100) in
  (baseLookAheadDistance * (1 + Qabs energyChangeRate * 4))%Q.

Definition tiltMultiplier (energyChangeRate : Q) : Q :=
  (1 + Qabs energyChangeRate * 5)%Q.

Definition shakeIntensity (energyChangeRate : Q) : Q :=
  (Qabs energyChangeRate * (5#100))%Q.

(** The tilt and roll added to the rotation. *)
Definition tilt (M : Num.Numerics) (energyChangeRate : Num.num)
           (nextPos prevPos : vec3) (r : rig) : rig :=
  let dx := Num.minus (x nextPos) (x prevPos) in
  let dz := Num.minus (z nextPos) (z prevPos) in
  let horizontalDistance :=
    Num.lift1 (Num.sqrt M) (Num.plus (Num.mult dx dx) (Num.mult dz dz)) in
  if gt_l horizontalDistance (1#1000) then
    let slope :=
      Num.div (Num.minus (y nextPos) (y prevPos)) horizontalDistance in
    let multiplier := Num.lift1 tiltMultiplier energyChangeRate in
    let tiltAngle :=
      Num.mult (Num.mult (Num.lift1 (Num.atan M) slope) (Some (8#10)))
               multiplier in
    let turnDirection :=
      Num.lift1 Num.sign
        (Num.minus (Num.mult dx (z prevPos)) (Num.mult dz (x prevPos))) in
    let turnSharpness :=
      Num.lift1 (Qmin 1) (Num.div horizontalDistance (Some 10%Q)) in
    let rollAngle :=
      Num.mult (Num.mult (Num.mult turnDirection turnSharpness)
                         (Some (2#10)))
               multiplier in
    set_rotation
      (v (Num.plus (x (rotation r)) tiltAngle)
         (y (rotation r))
         (Num.plus (z (rotation r)) rollAngle)) r
  else r.

(** The shake added to the position; the test is false on a rate that is
    [NaN]. *)
Definition shake (energyChangeRate : Num.num) (r : rig) : rig :=
  if gt_l (Num.abs energyChangeRate) (5#100) then
    let intensity := Num.lift1 shakeIntensity energyChangeRate in
    let '(r1, r) := Math_random r in
    let px :=
      Num.plus (x (position r)) (Num.mult (Some (r1 - (1#2))%Q) intensity) in
    let '(r2, r) := Math_random r in
    let py :=
      Num.plus (y (position r)) (Num.mult (Some (r2 - (1#2))%Q) intensity) in
    let '(r3, r) := Math_random r in
    let pz :=
      Num.plus (z (position r)) (Num.mult (Some (r3 - (1#2))%Q) intensity) in
    set_position (v px py pz) r
  else r.

(** [camera.lookAt(lookAtPoint)], when the point is valid and the mouse is
    not dragging. *)
Definition look_at (M : Num.Numerics) (lookAtPoint : option vec3) (r : rig)
  : rig :=
  match lookAtPoint with
  | Some p =>
      if negb (mouseDrag r)
      then
        let '(a, b, c) := Num.lookRotation M (tuple (position r)) (tuple p) in
        set_rotation (v a b c) r
      else r
  | None => r
  end.

(** The inner [try]: tilt and roll when both sample points are valid. *)
Definition tilt_between (M : Num.Numerics) (energyChangeRate : Num.num)
           (nextPos prevPos : option vec3) (r : rig) : rig :=
  match nextPos, prevPos with
  | Some np, Some pp => tilt M energyChangeRate np pp r
  | _, _ => r
  end.

(** The body of the outer [try] of [updateCameraPosition]. *)
Definition place_camera (M : Num.Numerics) (path : curve)
           (energyChangeRate : Num.num) (safePosition : Num.num) (r : rig)
  : rig :=
  let r := log_query safePosition r in
  match getPointAt path safePosition with
  | None => r
  | Some position =>
      let r := log_query safePosition r in
      match getTangentAt path safePosition with
      | None => r
      | Some tangent =>
          let up := of_Q 0 1 0 in
          let binormal := normalize M (crossVectors tangent up) in
          let normal := normalize M (crossVectors binormal tangent) in
          let r :=
            set_position
              (add position
                   (multiplyScalar
                      normal
                      (Num.lift1 heightAboveTrack energyChangeRate)))
              r in
          let lookAheadPosition :=
            Num.min (Num.plus safePosition
                              (Num.lift1 dynamicLookAhead energyChangeRate))
                    (99#100) in
          let r := log_query lookAheadPosition r in
          let r := look_at M (getPointAt path lookAheadPosition) r in
          let nextParam := Num.min (Num.add safePosition (1#100)) (99#100) in
          let r := log_query nextParam r in
          let nextPos := getPointAt path nextParam in
          let prevParam := Num.max (Num.add safePosition (- (1#100))) 0 in
          let r := log_query prevParam r in
          let prevPos := getPointAt path prevParam in
          let r := tilt_between M energyChangeRate nextPos prevPos r in
          shake energyChangeRate r
      end
  end.

Definition updateCameraPosition (M : Num.Numerics)
           (rollercoasterPath : option curve) (audioElement : option Q)
           (energyData : series) (s : Config.state) (r : rig) : outcome rig :=
  if negb (Config.firstPersonMode s) then Ret r
  else
    match rollercoasterPath, at_index energyData (Config.currentIndex s),
          audioElement with
    | Some path, Some _, Some exactTime =>
        match Utils.findNormalizedPositionFromTime exactTime energyData,
              Utils.findNormalizedPositionFromTime exactTime energyData with
        | Ret normalizedPosition, Ret again =>
            let rate := energyChangeRate again energyData in
            let safePosition :=
              Num.max_of 0 (Num.min_of (99#100) normalizedPosition) in
            Ret (place_camera M path rate safePosition r)
        | Throw, _ | Ret _, Throw => Throw
        | _, _ => OutOfFuel
        end
    | _, _, _ => Ret r
    end.

(** [toggleViewMode]; [energyData] is [window.energyData] ([None] when it
    is not set) and [audioElement] the element's [currentTime] ([None]
    when there is no element, on which the property read throws and the
    [catch] sets the default target). *)
Definition toggleViewMode (rollercoasterPath : option curve)
           (audioElement : option Q) (energyData : option series)
           (sr : Config.state * rig) : outcome (Config.state * rig) :=
  let '(s, r) := sr in
  let s := Config.set_firstPersonMode (negb (Config.firstPersonMode s)) s in
  if negb (Config.firstPersonMode s) then
    match rollercoasterPath with
    | None => Ret (s, r)
    | Some path =>
        match audioElement with
        | None => Ret (s, set_orbitTarget (of_Q 0 20 0) r)
        | Some currentTime =>
            match match energyData with
                  | None => Ret (Some 0%Q)
                  | Some d => Utils.findNormalizedPositionFromTime currentTime d
                  end with
            | Ret normalizedPosition =>
                let lookAheadPosition :=
                  Num.min (Num.add normalizedPosition (5#100)) (99#100) in
                let r := log_query lookAheadPosition r in
                match getPointAt path lookAheadPosition with
                | Some targetPoint => Ret (s, set_orbitTarget targetPoint r)
                | None => Ret (s, set_orbitTarget (of_Q 0 20 0) r)
                end
            | Throw => Ret (s, set_orbitTarget (of_Q 0 20 0) r)
            | OutOfFuel => OutOfFuel
            end
        end
    end
  else Ret (s, r).

End Camera.

(** ** rollercoaster.js *)

Module Rollercoaster.
Import Vec.

(** What [createRollercoaster] returns: the control points of
    [rollercoasterPath], and whether the tube mesh or the torus of the
    [catch] branch was added to the scene. *)
Record result := {
  pathPoints : list vec3;
  tubeMesh : bool
}.

(** The field the energy is read from: ['energy'], or the first field of
    type number of the first sample other than ['time'] when that sample
    has no energy of type number. *)
Definition energyField (energyData : series) : string :=
  match at_index energyData 0 with
  | Some s0 =>
      if is_number (get "energy" s0) then "energy"
      else
        match find (fun kv => negb (String.eqb (fst kv) "time")) s0 with
        | Some (key, _) => key
        | None => "energy"
        end
  | None => "energy"
  end.

(** [d[i][f]] as a number. *)
Definition value_at (f : string) (d : series) (i : Z) : Num.num :=
  match at_index d i with Some s => field f s | None => None end.

(** [energyDerivatives[i]]: the difference of two energies of type number,
    [NaN] when one of them is. *)
Definition energyDerivative (f : string) (d : series) (i : Z) : Num.num :=
  if i <=? 0 then Some 0%Q
  else if has_number f d i && has_number f d (i - 1)
       then Num.minus (value_at f d i) (value_at f d (i - 1))
       else Some 0%Q.

(** The control point derived from sample [i], when it has an energy of
    type number; an energy that is [NaN] gives a point with coordinates
    [NaN]. *)
Definition controlPoint (M : Num.Numerics) (f : string)
           (energyData structureData : series) (i : Z) : option vec3 :=
  if negb (has_number f energyData i) then None
  else
    let energy := value_at f energyData i in
    let structure :=
      if has_number "structure" structureData i
      then value_at "structure" structureData i
      else Some 0%Q in
    let heightScale := 150%Q in
    let baseHeight :=
      Num.mult (Num.lift1 (fun e => Qpower (Qmax 0 e) 3) energy)
               (Some heightScale) in
    let energyChangeRate := Num.abs (energyDerivative f energyData i) in
    let transitionBoost := Num.mult energyChangeRate (Some 100%Q) in
    let height := Num.plus baseHeight transitionBoost in
    let structureVariation := Num.mult structure (Some 30%Q) in
    let t := (inject_Z i / inject_Z (len energyData))%Q in
    let spiralTurns := 5%Q in
    let angle := (t * Num.PI M * 2 * spiralTurns)%Q in
    let baseRadius := 80%Q in
    let expansionFactor := 200%Q in
    let radius :=
      Num.plus (Some (baseRadius + t * expansionFactor)%Q)
               structureVariation in
    let horizontalVariation :=
      Num.mult (Some (Num.sin M (t * Num.PI M * 15) * 25)%Q)
               (Num.plus structure
                         (Num.mult energyChangeRate (Some 2%Q))) in
    Some (v (Num.mult (Some (Num.cos M angle))
                      (Num.plus radius horizontalVariation))
            height
            (Num.mult (Some (Num.sin M angle))
                      (Num.plus radius horizontalVariation))).

(** [for (let i = 0; i < energyData.length; i += 5)], [count] iterations
    from index [i]. *)
Fixpoint derivedPoints (M : Num.Numerics) (f : string)
         (energyData structureData : series) (i : Z) (count : nat)
  : list vec3 :=
  match count with
  | O => []
  | S c =>
      match controlPoint M f energyData structureData i with
      | Some p => p :: derivedPoints M f energyData structureData (i + 5) c
      | None => derivedPoints M f energyData structureData (i + 5) c
      end
  end.

(** Point [i] of the fallback spiral. *)
Definition spiralPoint (M : Num.Numerics) (i : Z) : vec3 :=
  let t := (inject_Z i / 36)%Q in
  let angle := (t * Num.PI M * 2 * 3)%Q in
  let radius := (100 + t * 150)%Q in
  of_Q (Num.cos M angle * radius)%Q
       (20 + Num.sin M (t * Num.PI M * 4) * 30)%Q
       (Num.sin M angle * radius)%Q.

Definition fallbackSpiral (M : Num.Numerics) : list vec3 :=
  map (fun i => spiralPoint M (Z.of_nat i)) (seq 0 36).

(** The circle of the [catch] branch. *)
Definition circlePoints (M : Num.Numerics) : list vec3 :=
  map (fun i =>
         let t := (inject_Z (Z.of_nat i) / 100)%Q in
         let angle := (t * Num.PI M * 2)%Q in
         of_Q (Num.cos M angle * 100)%Q 20 (Num.sin M angle * 100)%Q)
      (seq 0 100).

(** The points the sampling loop derives from the energy series. *)
Definition derived (M : Num.Numerics) (energyData structureData : series)
  : list vec3 :=
  derivedPoints M (energyField energyData) energyData structureData 0
                (Z.to_nat ((len energyData + 4) / 5)).

(** The control points handed to [CatmullRomCurve3]. *)
Definition controlPoints (M : Num.Numerics) (energyData structureData : series)
  : list vec3 :=
  let points := derived M energyData structureData in
  if Z.of_nat (List.length points) <? 4
  then points ++ fallbackSpiral M
  else points.

(** [createRollercoaster]; [None] is the [null] it returns without a
    path.  [geometryOk] tells whether the calls that build the tube mesh
    and its supports inside the [try] complete. *)
Definition createRollercoaster (M : Num.Numerics) (geometryOk : bool)
           (energyData structureData : series) : outcome (option result) :=
  match energyData with
  | [] => Ret None
  | _ =>
      let points := controlPoints M energyData structureData in
      if geometryOk
      then Ret (Some {| pathPoints := points; tubeMesh := true |})
      else Ret (Some {| pathPoints := circlePoints M; tubeMesh := false |})
  end.

End Rollercoaster.

(** ** Sample data for concrete runs *)

(** A coarse rational instance of the numeric library, to run the models on
    concrete inputs: the square root is exact on squares of rationals and
    rounded down otherwise, the trigonometric functions are their
    small-angle approximations. *)
Definition coarse : Num.Numerics :=
  {| Num.sqrt := fun q => (Z.sqrt (Qnum q * Zpos (Qden q)) # Qden q);
     Num.atan := fun q => q;
     Num.sin := fun q => q;
     Num.cos := fun q => (1 - q * q / 2)%Q;
     Num.PI := (355 # 113);
     Num.lookRotation :=
       fun eye target =>
         let '(ex, ey, ez) := eye in
         let '(tx, ty, tz) := target in
         (Num.minus ty ey, Num.minus tx ex, Some 0%Q) |}.

(** A straight track along the x axis. *)
Definition straight_track : Camera.curve :=
  {| Camera.getPointAt :=
       fun u => option_map (fun q => Vec.of_Q (100 * q)%Q 0 0) u;
     Camera.getTangentAt :=
       fun u => option_map (fun _ => Vec.of_Q 1 0 0) u |}.

(** Two samples with a steep rise of the energy. *)
Definition steep : series := [mkSample 0 (1#10); mkSample 1 (9#10)].

(** A camera at rest, with a generator whose draws are 0, 0.1, 0.2, ... *)
Definition rig0 : Camera.rig :=
  {| Camera.position := Vec.of_Q 0 2 0;
     Camera.rotation := Vec.of_Q 0 0 0;
     Camera.orbitTarget := Vec.of_Q 0 0 0;
     Camera.mouseDrag := false;
     Camera.random := fun n => (Z.of_nat n # 10);
     Camera.drawn := 0;
     Camera.queried := [] |}.

(** ** Frames *)




(** [updateUIIndicators] over a sequence of resolved indices. *)
Fixpoint feed_indicators (energyData : series) (zoneData : zoneSeries)
         (indices : list Z) (w : world) : outcome world :=
  match indices with
  | [] => Ret w
  | i :: rest =>
      match Main.updateUIIndicators 0 energyData zoneData i w with
      | Ret w' => feed_indicators energyData zoneData rest w'
      | Throw => Throw
      | OutOfFuel => OutOfFuel
      end
  end.

(** The body of [updatePositionFromTime] over a sequence of resolved
    indices. *)
Definition feed_positions (energyData : series) (zoneData : zoneSeries)
           (indices : list Z) (w : world) : world :=
  fold_left (fun w i => Audio.updatePositionFromIndex energyData zoneData i w)
            indices w.

(** Series sampled once per second from time [i]. *)
Fixpoint zones_from (i : Z) (values : list Z) : zoneSeries :=
  match values with
  | [] => []
  | z :: rest =>
      Some {| z_time := Some (inject_Z i); zone := Some z |}
      :: zones_from (i + 1) rest
  end.

Fixpoint energies_from (i : Z) (values : list Q) : series :=
  match values with
  | [] => []
  | e :: rest => mkSample (inject_Z i) e :: energies_from (i + 1) rest
  end.

(** The zone sequence of the specification's scenario. *)
Definition monotonic_zones : zoneSeries := zones_from 0 [0; 0; 0; 1; 1; 2; 2; 2].

(** ** Vocabulary of the properties *)

(** The energy series of the specification's scenario. *)
Definition scenario : series :=
  [mkSample 0 (1#10); mkSample 1 (2#10); mkSample 2 (9#10);
   mkSample 3 (95#100); mkSample 4 (2#10)].

(** What a time-ascending series provides: a time [tm i] at every index of
    the array, never decreasing. *)
Definition timed (d : series) (tm : Z -> Q) : Prop :=
  (forall i, 0 <= i < len d ->
             exists s, at_index d i = Some s /\ field "time" s = Some (tm i))
  /\ (forall i j, 0 <= i -> i <= j -> j < len d -> (tm i <= tm j)%Q).

(** An index whose time is nearest to [time]. *)
Definition nearest (d : series) (tm : Z -> Q) (time : Q) (r : Z) : Prop :=
  0 <= r < len d
  /\ forall j, 0 <= j < len d ->
               (Qabs (tm r - time) <= Qabs (tm j - time))%Q.

(** The invariant of the search loop of [findClosestTimeIndex]: below [time]
    on the left of the bracket, above it on the right. *)
Definition bracket (d : series) (tm : Z -> Q) (time : Q) (left right : Z)
  : Prop :=
  0 <= left /\ right <= len d - 1 /\ left <= right + 1
  /\ (forall i, 0 <= i < left -> (tm i < time)%Q)
  /\ (forall i, right < i < len d -> (time < tm i)%Q).

(** Two samples, the first at time 10. *)
Definition two_samples : series := [mkSample 10 (1#10); mkSample 20 (2#10)].

(** A sample without a time between two valid ones. *)
Definition gap_series : series :=
  [mkSample 0 (1#10); Some [("energy"%string, Some (5#10))];
   mkSample 2 (3#10)].

(** A sample without an energy between two valid ones. *)
Definition energy_gap_series : series :=
  [mkSample 0 (1#10); Some [("time"%string, Some 1%Q)]; mkSample 2 (3#10)].

(** Three samples in ascending order of time, the last two at the same
    time, the middle one with an energy that is [NaN]. *)
Definition nan_tail : series :=
  [mkSample 0 (1#10);
   Some [("time"%string, Some 1%Q); ("energy"%string, None)];
   mkSample 1 (3#10)].

(** Three samples one second apart, the middle one with an energy that is
    [NaN]. *)
Definition nan_energy : series :=
  [mkSample 0 (1#10);
   Some [("time"%string, Some 1%Q); ("energy"%string, None)];
   mkSample 2 (9#10)].


(** A missing entry between two valid ones. *)
Definition hole_series : series :=
  [mkSample 0 (1#10); None; mkSample 2 (3#10)].



(** A ride of eight seconds. *)
Definition ride_energy : series :=
  energies_from 0 [1#10; 2#10; 2#10; 5#10; 5#10; 9#10; 9#10; 9#10].


(** A curve parameter within [0, 0.99]. *)
Definition in_path (u : Num.num) : Prop :=
  exists q, u = Some q /\ (0 <= q <= 99#100)%Q.

(** The rate of the specification: the central difference of the energies
    around a discrete index. *)
Definition spec_central_difference (energyData : series) (i : Z) : Q :=
  let prev := Z.max 0 (i - 1) in
  let next := Z.min (len energyData - 1) (i + 1) in
  match energy_at energyData next, energy_at energyData prev with
  | Some en, Some ep => ((en - ep) / 2)%Q
  | _, _ => 0%Q
  end.

(** The indices the path generator samples: every fifth index from [i],
    [count] of them; for a series, every fifth index below its length. *)
Fixpoint every_fifth (i : Z) (count : nat) : list Z :=
  match count with
  | O => []
  | S c => i :: every_fifth (i + 5) c
  end.

Definition sampled_indices (d : series) : list Z :=
  every_fifth 0 (Z.to_nat ((len d + 4) / 5)).

(** A sample from which a valid control point can be derived: it holds a
    number that is not [NaN] in the field [f]. *)
Definition valid_energy (f : string) (d : series) (i : Z) : bool :=
  match at_index d i with
  | Some s => match field f s with Some _ => true | None => false end
  | None => false
  end.

(** The number of valid control points that can be derived from a
    series. *)
Definition derivable_points (f : string) (d : series) : nat :=
  List.length (filter (valid_energy f d) (sampled_indices d)).

(** Two rigs that differ at most by the state of the random number
    generator and by the parameters logged so far. *)
Definition same_camera (r1 r2 : Camera.rig) : Prop :=
  Camera.position r1 = Camera.position r2
  /\ Camera.rotation r1 = Camera.rotation r2
  /\ Camera.mouseDrag r1 = Camera.mouseDrag r2.

(** ** config.js: display names and the colour table *)

Module Zones.

(** [getZoneDisplayName] on an integer zone value. *)
Definition getZoneDisplayName (zoneValue : Z) : outcome string :=
  if zoneValue <? 0 then
    match Config.palette_at 0 with
    | Some p => Ret (Config.displayName p)
    | None => Throw
    end
  else
    match Config.palette_at zoneValue with
    | Some p => Ret (Config.displayName p)
    | None =>
        let wrappedZoneValue := Z.rem zoneValue Config.zoneCount in
        match Config.palette_at wrappedZoneValue with
        | Some p => Ret (Config.displayName p)
        | None => Throw
        end
    end.

(** [getAllZoneNames] *)
Definition getAllZoneNames : list string :=
  map Config.name Config.zonePalettes.

(** [colors[key]]: [colors] has one entry per palette, under the palette's
    name followed by [Zone]; a later palette of the same name would replace
    an earlier one. *)
Definition colors (key : string) : option Config.palette :=
  find (fun p => String.eqb (Config.name p ++ "Zone") key)
       (rev Config.zonePalettes).

(** [colors[state.currentZone + 'Zone']]; an undefined zone is the text
    [undefined]. *)
Definition zone_colors (currentZone : option string) : option Config.palette :=
  colors (match currentZone with
          | Some z => z
          | None => "undefined"
          end ++ "Zone").

End Zones.

(** ** audio.js: playback controls and the spectrum *)

Module Player.

(** The audio element as the controls use it. *)
Record audioElement := { currentTime : Q; duration : Q }.

(** [skipForward] *)
Definition skipForward (a : option audioElement) (energyData : series)
           (zoneData : zoneSeries) (w : world) : option audioElement * world :=
  match a with
  | None => (None, w)
  | Some el =>
      let el' := {| currentTime := Qmin (currentTime el + 10) (duration el);
                    duration := duration el |} in
      (Some el',
       if negb (Config.isPlaying (st w))
       then Audio.updatePositionFromTime (currentTime el') energyData zoneData w
       else w)
  end.

(** [skipBackward] *)
Definition skipBackward (a : option audioElement) (energyData : series)
           (zoneData : zoneSeries) (w : world) : option audioElement * world :=
  match a with
  | None => (None, w)
  | Some el =>
      let el' := {| currentTime := Qmax (currentTime el - 10) 0;
                    duration := duration el |} in
      (Some el',
       if negb (Config.isPlaying (st w))
       then Audio.updatePositionFromTime (currentTime el') energyData zoneData w
       else w)
  end.

(** An element of a [Uint8Array]. *)
Definition byte_value (b : Byte.byte) : Z := Z.of_N (Byte.to_N b).

(** [dataArray.slice(from, to)] *)
Definition slice (from to : nat) (l : list Byte.byte) : list Byte.byte :=
  firstn (to - from) (skipn from l).

(** [.reduce((a, b) => a + b, 0)] *)
Definition sum (l : list Byte.byte) : Z :=
  fold_left (fun a b => a + byte_value b) l 0.

Record audioData := {
  fullSpectrum : list Byte.byte;
  bass : Q;
  mid : Q;
  treble : Num.num
}.

(** [getAudioData] on the contents [getByteFrequencyData] gives the array,
    whose length is [bufferLength]; on exactly 100 bins the treble is 0/0. *)
Definition getAudioData (dataArray : list Byte.byte) : audioData :=
  let bufferLength := List.length dataArray in
  let bassSum := sum (slice 1 10 dataArray) in
  let midSum := sum (slice 10 100 dataArray) in
  let trebleSum := sum (slice 100 bufferLength dataArray) in
  {| fullSpectrum := dataArray;
     bass := (inject_Z bassSum / (10 * 255))%Q;
     mid := (inject_Z midSum / (90 * 255))%Q;
     treble :=
       if Nat.eqb bufferLength 100 then None
       else Some (inject_Z trebleSum
                  / (inject_Z (Z.of_nat bufferLength - 100) * 255))%Q |}.

End Player.

(** ** effects.js: bloom and background smoothing *)

Module Effects.

(** [THREE.MathUtils.lerp] *)
Definition lerp (x y t : Q) : Q := ((1 - t) * x + t * y)%Q.

Record bloomPass := { strength : Q; radius : Q; threshold : Q }.

(** [new UnrealBloomPass(resolution, 0.5, 0.4, 0.85)] *)
Definition initial_bloom : bloomPass :=
  {| strength := 5#10; radius := 4#10; threshold := 85#100 |}.

(** [updateBloomEffect]; [None] is the pass before post-processing is set
    up. *)
Definition updateBloomEffect (bass mid treble : Q) (b : option bloomPass)
  : option bloomPass :=
  match b with
  | None => None
  | Some pass =>
      let baseIntensity := (3#10) in
      let bassInfluence := (bass * (15#10))%Q in
      let midInfluence := (mid * (7#10))%Q in
      let trebleInfluence := (treble * (4#10))%Q in
      let bloomStrength :=
        (baseIntensity + bassInfluence + midInfluence + trebleInfluence)%Q in
      let bloomRadius := ((7#10) + bass * (3#10))%Q in
      let bloomThreshold := ((2#10) + (1 - (bass + mid) / 2) * (15#100))%Q in
      Some {| strength := lerp (strength pass) bloomStrength (1#10);
              radius := lerp (radius pass) bloomRadius (1#10);
              threshold := lerp (threshold pass) bloomThreshold (1#10) |}
  end.

(** The smoothing state of the background uniforms; [None] is a value not
    yet stored. *)
Record backgroundUniforms := {
  lastBass : option Q;
  lastMid : option Q;
  lastTreble : option Q;
  bassIntensity : Q;
  midIntensity : Q;
  trebleIntensity : Q
}.

(** [!x] on a number that may be undefined. *)
Definition falsy (x : option Q) : bool :=
  match x with
  | None => true
  | Some q => Qeq_bool q 0
  end.

Definition stored (x : option Q) : Q :=
  match x with Some q => q | None => 0%Q end.

(** The smoothing of [updateBackgroundUniforms]; the time, the colour shift
    and the zone colour are left out. *)
Definition updateBackgroundUniforms (bassIn midIn trebleIn : Q)
           (u : backgroundUniforms) : backgroundUniforms :=
  let '(lb, lm, lt) :=
    if falsy (lastBass u) then (0%Q, 0%Q, 0%Q)
    else (stored (lastBass u), stored (lastMid u), stored (lastTreble u)) in
  let smoothFactor := (5#100) in
  let smoothedBass := (lb + (bassIn - lb) * smoothFactor)%Q in
  let smoothedMid := (lm + (midIn - lm) * smoothFactor)%Q in
  let smoothedTreble := (lt + (trebleIn - lt) * smoothFactor)%Q in
  {| lastBass := Some smoothedBass;
     lastMid := Some smoothedMid;
     lastTreble := Some smoothedTreble;
     bassIntensity := smoothedBass;
     midIntensity := smoothedMid;
     trebleIntensity := smoothedTreble |}.

End Effects.

(** ** The light orbs of the path ([createLightOrbs], [updateLightOrbs]) *)

Module Orbs.
Import Vec.

(** [a % 32] on numbers: the remainder takes the sign of [a]. *)
Definition truncate (x : Q) : Z := if Qltb x 0 then Qceiling x else Qfloor x.

Definition rem32 (a : Q) : Q := (a - 32 * inject_Z (truncate (a / 32)))%Q.

(** An orb: [userData.position], [userData.speed] and
    [userData.originalIntensity]; the position of the mesh and the last
    point it was turned to; the factor by which the original colour is
    multiplied in the material, the emissive intensity and the scale. *)
Record orb := {
  position : Q;
  speed : Q;
  originalIntensity : Q;
  place : vec3;
  facing : option vec3;
  intensityFactor : Num.num;
  emissiveIntensity : Num.num;
  scale : Num.num
}.

(** The module's orbs and the parameters passed to the path so far. *)
Record state := { lightOrbs : list orb; queried : list Q }.

(** [createLightOrbs(scene, count)]; the speeds consume [Math.random()]. *)
Definition createOrb (count : nat) (random : nat -> Q) (i : nat) : orb :=
  {| position := (inject_Z (Z.of_nat i) / inject_Z (Z.of_nat count))%Q;
     speed := ((2#10000) + random i * (4#10000))%Q;
     originalIntensity := 2%Q;
     place := of_Q 0 0 0;
     facing := None;
     intensityFactor := Some 1%Q;
     emissiveIntensity := Some 2%Q;
     scale := Some 1%Q |}.

Definition createLightOrbs (count : nat) (random : nat -> Q) : state :=
  {| lightOrbs := map (createOrb count random) (seq 0 count);
     queried := [] |}.

(** [Math.floor((position * 31) % 32)] *)
Definition frequencyBand (p : Q) : Z := Qfloor (rem32 (p * 31)).

(** [audioData.fullSpectrum[frequencyBand] / 255]: [NaN] outside the
    array. *)
Definition intensity (a : Player.audioData) (band : Z) : Num.num :=
  if band <? 0 then None
  else option_map (fun b => (inject_Z (Player.byte_value b) / 255)%Q)
                  (nth_error (Player.fullSpectrum a) (Z.to_nat band)).

(** The body of the [forEach] of [updateLightOrbs]: the orb after it, and
    the parameters it has passed to the path. *)
Definition updateOrb (path : Camera.curve)
           (audioData : option Player.audioData) (o : orb) : orb * list Q :=
  let p := (position o + speed o)%Q in
  let p := if Qltb 1 p then 0%Q else p in
  let '(pl, fc, qs) :=
    match Camera.getPointAt path (Some p) with
    | Some point =>
        let lookAhead := Qmin (p + (1#100)) (99#100) in
        match Camera.getPointAt path (Some lookAhead) with
        | Some pointAhead => (point, Some pointAhead, [p; lookAhead])
        | None => (point, facing o, [p; lookAhead])
        end
    | None => (place o, facing o, [p])
    end in
  match audioData with
  | Some a =>
      let i := intensity a (frequencyBand p) in
      ({| position := p; speed := speed o;
          originalIntensity := originalIntensity o;
          place := pl; facing := fc;
          intensityFactor := option_map (fun x => 1 + x * 2)%Q i;
          emissiveIntensity :=
            option_map (fun x => originalIntensity o * (1 + x * 2))%Q i;
          scale := option_map (fun x => 1 + x * (1#2))%Q i |}, qs)
  | None =>
      ({| position := p; speed := speed o;
          originalIntensity := originalIntensity o;
          place := pl; facing := fc;
          intensityFactor := intensityFactor o;
          emissiveIntensity := emissiveIntensity o;
          scale := scale o |}, qs)
  end.

Fixpoint forEach (path : Camera.curve) (audioData : option Player.audioData)
         (l : list orb) : list orb * list Q :=
  match l with
  | [] => ([], [])
  | o :: rest =>
      let (o', q) := updateOrb path audioData o in
      let (rest', q') := forEach path audioData rest in
      (o' :: rest', q ++ q')
  end.

(** [updateLightOrbs(audioData)] *)
Definition updateLightOrbs (rollercoasterPath : option Camera.curve)
           (audioData : option Player.audioData) (s : state) : state :=
  match rollercoasterPath, lightOrbs s with
  | None, _ => s
  | _, [] => s
  | Some path, l =>
      let (l', q) := forEach path audioData l in
      {| lightOrbs := l'; queried := queried s ++ q |}
  end.

End Orbs.

(** ** The intro animation ([startIntroAnimation]) *)

Module Intro.

(** [index / length] of an index of the array and its length: [0 / 0] is
    [NaN]. *)
Definition ratio (index length : Z) : Num.num :=
  if length =? 0 then None
  else Some (inject_Z index / inject_Z length)%Q.

(** [findClosestTimeIndex(audioElement.currentTime, energyData)
     / energyData.length] *)
Definition normalizedPosition (currentTime : Q) (energyData : series)
  : outcome Num.num :=
  match Utils.findClosestTimeIndex currentTime energyData with
  | Ret i => Ret (ratio i (len energyData))
  | Throw => Throw
  | OutOfFuel => OutOfFuel
  end.

(** The parameter of the guarded queries of the position and of the
    tangent in [animateIntro]; [audio] is the current time of the audio
    element, if there is one. *)
Definition positionParameter (audio : option Q) (energyData : series)
  : outcome Num.num :=
  match audio with
  | Some currentTime =>
      if len energyData >? 0 then
        match normalizedPosition currentTime energyData with
        | Ret np => Ret (Num.min np (99#100))
        | Throw => Throw
        | OutOfFuel => OutOfFuel
        end
      else Ret (Some 0%Q)
  | None => Ret (Some 0%Q)
  end.

(** The parameter of the guarded query of the point ahead, in the first
    80% of the animation. *)
Definition aheadParameter (audio : option Q) (energyData : series)
  : outcome Num.num :=
  match audio with
  | Some currentTime =>
      if len energyData >? 0 then
        match normalizedPosition currentTime energyData with
        | Ret np => Ret (Num.min (Num.add np (1#100)) (99#100))
        | Throw => Throw
        | OutOfFuel => OutOfFuel
        end
      else Ret (Some (1#100)%Q)
  | None => Ret (Some (1#100)%Q)
  end.

(** [lookAheadPosition], computed without a guard in [animateIntro] and in
    [updateTransition]: reading the time of a missing audio element
    throws. *)
Definition lookAheadPosition (audio : option Q) (energyData : series)
  : outcome Num.num :=
  match audio with
  | Some currentTime =>
      match normalizedPosition currentTime energyData with
      | Ret np => Ret (Num.min (Num.add np (1#100)) (99#100))
      | Throw => Throw
      | OutOfFuel => OutOfFuel
      end
  | None => Throw
  end.

(** [Math.min(elapsed / duration, 1.0)] with the duration of 8 seconds. *)
Definition progress (elapsed : Q) : Q := Qmin (elapsed / 8) 1.

(** [1 - Math.pow(1 - progress, 3)] *)
Definition eased (progress : Q) : Q := (1 - Qpower (1 - progress) 3)%Q.

(** [(progress - 0.8) / 0.2] *)
Definition blendFactor (progress : Q) : Q :=
  ((progress - (8#10)) / (2#10))%Q.

(** [easeInOutQuad] of [updateTransition] *)
Definition easeInOutQuad (t : Q) : Q :=
  if Qltb t (1#2) then (2 * t * t)%Q
  else (1 - Qpower (-2 * t + 2) 2 / 2)%Q.

(** The calls of [fadeToWhite] and [fadeFromWhite]. *)
Inductive fade :=
| FadeToWhite (duration : Q)
| FadeFromWhite (duration : Q).

(** The state [updateTransition] works on: its two flags, whether the
    element [fade-overlay] is in the document, the fades called so far,
    [state.firstPersonMode], the two flags of the intro, and whether
    [requestAnimationFrame(updateTransition)] is pending. *)
Record transition := {
  fadedIn : bool;
  fadedOut : bool;
  overlay : bool;
  fades : list fade;
  firstPersonMode : bool;
  introAnimationComplete : bool;
  isIntroAnimationActive : bool;
  scheduled : bool
}.

(** [fadeToWhite] and [fadeFromWhite] create the overlay when it is
    missing. *)
Definition call_fade (f : fade) (s : transition) : transition :=
  {| fadedIn := fadedIn s; fadedOut := fadedOut s; overlay := true;
     fades := fades s ++ [f]; firstPersonMode := firstPersonMode s;
     introAnimationComplete := introAnimationComplete s;
     isIntroAnimationActive := isIntroAnimationActive s;
     scheduled := scheduled s |}.

Definition set_fadedIn (s : transition) : transition :=
  {| fadedIn := true; fadedOut := fadedOut s; overlay := overlay s;
     fades := fades s; firstPersonMode := firstPersonMode s;
     introAnimationComplete := introAnimationComplete s;
     isIntroAnimationActive := isIntroAnimationActive s;
     scheduled := scheduled s |}.

Definition set_fadedOut (s : transition) : transition :=
  {| fadedIn := fadedIn s; fadedOut := true; overlay := overlay s;
     fades := fades s; firstPersonMode := firstPersonMode s;
     introAnimationComplete := introAnimationComplete s;
     isIntroAnimationActive := isIntroAnimationActive s;
     scheduled := scheduled s |}.

Definition set_scheduled (b : bool) (s : transition) : transition :=
  {| fadedIn := fadedIn s; fadedOut := fadedOut s; overlay := overlay s;
     fades := fades s; firstPersonMode := firstPersonMode s;
     introAnimationComplete := introAnimationComplete s;
     isIntroAnimationActive := isIntroAnimationActive s;
     scheduled := b |}.

(** [state.firstPersonMode = true; introAnimationComplete = true;
     isIntroAnimationActive = false], without a further frame. *)
Definition finish (s : transition) : transition :=
  {| fadedIn := fadedIn s; fadedOut := fadedOut s; overlay := overlay s;
     fades := fades s; firstPersonMode := true;
     introAnimationComplete := true;
     isIntroAnimationActive := false;
     scheduled := false |}.

(** The state in which [smoothTransitionToFirstPerson] calls
    [updateTransition] the first time: it has created the overlay. *)
Definition start_transition : transition :=
  {| fadedIn := false; fadedOut := false; overlay := true; fades := [];
     firstPersonMode := false; introAnimationComplete := false;
     isIntroAnimationActive := true; scheduled := true |}.

(** One call of [updateTransition] at the time [now] of [Date.now()];
    [fails] tells whether the body of its [try] throws. *)
Definition updateTransition (startTime now : Q) (fails : bool)
           (s : transition) : transition :=
  let transitionDuration := 2000%Q in
  let fadeInTime := (startTime + transitionDuration * (35#100))%Q in
  let fadeOutTime := (startTime + transitionDuration * (65#100))%Q in
  let elapsed := (now - startTime)%Q in
  let s :=
    if negb (fadedIn s) && Qle_bool fadeInTime now
    then call_fade (FadeToWhite 300) (set_fadedIn s)
    else s in
  let s :=
    if fadedIn s && negb (fadedOut s) && Qle_bool fadeOutTime now
    then if overlay s
         then call_fade (FadeFromWhite 500) (set_fadedOut s)
         else set_fadedOut s
    else s in
  if Qltb elapsed transitionDuration then
    if fails then
      let s := finish s in
      if fadedIn s && negb (fadedOut s)
      then call_fade (FadeFromWhite 300) s
      else s
    else set_scheduled true s
  else
    let s := finish s in
    if negb (fadedOut s) then call_fade (FadeFromWhite 300) s else s.

(** The frames of the transition: [updateTransition] runs while it is
    scheduled. *)
Definition run_transition (startTime : Q) (frames : list (Q * bool))
           (s : transition) : transition :=
  fold_left (fun s k => if scheduled s
                        then updateTransition startTime (fst k) (snd k) s
                        else s)
            frames s.

End Intro.

(** ** Vocabulary of the further properties *)

(** A series none of whose entries is missing. *)
Definition no_holes (d : series) : bool :=
  forallb (fun e => match e with Some _ => true | None => false end) d.

(** Every element is followed by one at least [delta] larger. *)
Fixpoint spacedQ (delta : Q) (l : list Q) : bool :=
  match l with
  | a :: ((b :: _) as r) => Qle_bool (a + delta) b && spacedQ delta r
  | _ => true
  end.

Fixpoint increasingQ (l : list Q) : bool :=
  match l with
  | a :: ((b :: _) as r) => Qltb a b && increasingQ r
  | _ => true
  end.

(** A series whose samples all carry a time, each time strictly after the
    one before. *)
Definition strictly_ascendingb (d : series) : bool :=
  match all_times d with
  | Some ts => increasingQ ts
  | None => false
  end.

(** A series whose samples all carry a time, each time at least [delta]
    after the one before. *)
Definition spacedb (delta : Q) (d : series) : bool :=
  match all_times d with
  | Some ts => spacedQ delta ts
  | None => false
  end.

(** The ranges the bloom parameters stay in. *)
Definition bloom_within (p : Effects.bloomPass) : Prop :=
  (3#10 <= Effects.strength p <= 275#100)%Q
  /\ (4#10 <= Effects.radius p <= 97#100)%Q
  /\ (2075#10000 <= Effects.threshold p <= 85#100)%Q.

(** Smoothed intensities between 0 and [bound]. *)
Definition smoothed_within (bound : Q) (u : Effects.backgroundUniforms) : Prop :=
  (0 <= Effects.stored (Effects.lastBass u) <= bound)%Q
  /\ (0 <= Effects.stored (Effects.lastMid u) <= bound)%Q
  /\ (0 <= Effects.stored (Effects.lastTreble u) <= bound)%Q.

(** A series whose energies, where present, lie within [0, 1]; none of
    them is [NaN]. *)
Definition unit_energies (d : series) : bool :=
  forallb (fun e =>
             match e with
             | Some s =>
                 match get "energy" s with
                 | Some (Some x) => Qle_bool 0 x && Qle_bool x 1
                 | Some None => false
                 | None => true
                 end
             | None => true
             end) d.

(** A series none of whose samples holds [NaN] in the field [k]. *)
Definition no_nan (k : string) (d : series) : bool :=
  forallb (fun e =>
             match e with
             | Some s =>
                 match get k s with
                 | Some None => false
                 | _ => true
                 end
             | None => true
             end) d.

(** An orb on the track: its position within [0, 1], its speed and its
    original intensity as [createLightOrbs] sets them. *)
Definition on_track (o : Orbs.orb) : Prop :=
  (0 <= Orbs.position o <= 1)%Q
  /\ (2#10000 <= Orbs.speed o <= 6#10000)%Q
  /\ Orbs.originalIntensity o = 2%Q.

(** The orbs after the frames whose audio data are [frames]. *)
Definition orbs_after (path : option Camera.curve)
           (frames : list (option Player.audioData)) (s : Orbs.state)
  : Orbs.state :=
  fold_left (fun s a => Orbs.updateLightOrbs path a s) frames s.

(** The fades of a transition in order: none, the flash alone, or the
    flash and its release. *)
Definition flash_pending (s : Intro.transition) : Prop :=
  Intro.fades s = [Intro.FadeToWhite 300].

Definition flash_released (s : Intro.transition) : Prop :=
  exists d, Intro.fades s = [Intro.FadeToWhite 300; Intro.FadeFromWhite d].

(** What holds of the transition between two calls of [updateTransition]. *)
Definition transition_invariant (s : Intro.transition) : Prop :=
  Intro.overlay s = true
  /\ ((Intro.fadedIn s = false /\ Intro.fadedOut s = false
       /\ Intro.fades s = [])
      \/ (Intro.fadedIn s = true /\ Intro.fadedOut s = false
          /\ Intro.scheduled s = true /\ flash_pending s)
      \/ (Intro.fadedIn s = true /\ flash_released s
          /\ (Intro.fadedOut s = true \/ Intro.scheduled s = false)))
  /\ (Intro.scheduled s = false ->
      Intro.firstPersonMode s = true
      /\ Intro.isIntroAnimationActive s = false
      /\ Intro.introAnimationComplete s = true).

(** * Properties *)

Example closest_scenario :
  Utils.findClosestTimeIndex (5#2) scenario = Ret 3.
Proof. reflexivity. Qed.

Example exact_scenario :
  Utils.findExactIndexFromTime (5#2) scenario = Ret (Some (5#2)).
Proof. vm_compute. reflexivity. Qed.

(** ** Comparisons and absolute differences over [Q] *)

Lemma Qltb_lt (a b : Q) : Qltb a b = true <-> (a < b)%Q.
Proof.
  unfold Qltb. rewrite negb_true_iff.
  split; intro H.
  - apply Qnot_le_lt. intro Hle. apply Qle_bool_iff in Hle. congruence.
  - destruct (Qle_bool b a) eqn:E; [|reflexivity].
    apply Qle_bool_iff in E. exfalso. apply (Qlt_not_le _ _ H E).
Qed.

Lemma Qltb_ge (a b : Q) : Qltb a b = false <-> (b <= a)%Q.
Proof.
  unfold Qltb. rewrite negb_false_iff. apply Qle_bool_iff.
Qed.

Lemma Qabs_diff_above (a t : Q) : (t <= a)%Q -> (Qabs (a - t) == a - t)%Q.
Proof. intro H. apply Qabs_pos. lra. Qed.

Lemma Qabs_diff_below (a t : Q) : (a <= t)%Q -> (Qabs (a - t) == t - a)%Q.
Proof. intro H. rewrite Qabs_neg by lra. lra. Qed.

(** ** Series: indices, times and order *)

Lemma len_nonneg (d : series) : 0 <= len d.
Proof. unfold len. lia. Qed.

Lemma at_index_range (d : series) (i : Z) (s : sample) :
  at_index d i = Some s -> 0 <= i < len d.
Proof.
  unfold at_index, len. destruct (i <? 0) eqn:E; [discriminate|].
  apply Z.ltb_ge in E.
  destruct (nth_error d (Z.to_nat i)) eqn:N; [|discriminate].
  intros _. assert (Z.to_nat i < List.length d)%nat; [|lia].
  apply nth_error_Some. congruence.
Qed.

Lemma time_at_range (d : series) (i : Z) (t : Q) :
  time_at d i = Some t -> 0 <= i < len d.
Proof.
  unfold time_at. destruct (at_index d i) eqn:E; [|discriminate].
  intros _. eapply at_index_range; eauto.
Qed.

Lemma all_times_length (d : series) (ts : list Q) :
  all_times d = Some ts -> List.length ts = List.length d.
Proof.
  revert ts. induction d as [|e d IH]; simpl; intros ts H.
  - inversion H. reflexivity.
  - destruct e as [s|]; [|discriminate].
    destruct (field "time" s); [|discriminate].
    destruct (all_times d) as [ts'|]; [|discriminate].
    inversion H. simpl. f_equal. apply IH. reflexivity.
Qed.

Lemma all_times_nth (d : series) (ts : list Q) (i : nat) :
  all_times d = Some ts -> (i < List.length d)%nat ->
  exists s, nth_error d i = Some (Some s)
            /\ field "time" s = Some (nth i ts 0%Q).
Proof.
  revert ts i. induction d as [|e d IH]; simpl; intros ts i H Hi; [lia|].
  destruct e as [s|]; [|discriminate].
  destruct (field "time" s) as [t|] eqn:Ft; [|discriminate].
  destruct (all_times d) as [ts'|]; [|discriminate].
  inversion H; subst ts. destruct i as [|i]; simpl.
  - exists s. split; [reflexivity|assumption].
  - apply IH; [reflexivity|lia].
Qed.

Lemma sortedQ_head (a : Q) (l : list Q) (j : nat) :
  sortedQ (a :: l) = true -> (j < List.length (a :: l))%nat ->
  (a <= nth j (a :: l) 0)%Q.
Proof.
  revert a j. induction l as [|b l IH]; intros a j H Hj.
  - simpl in Hj. assert (j = 0)%nat by lia. subst. simpl. lra.
  - destruct j as [|j]; [simpl; lra|].
    cbn [sortedQ] in H. apply andb_true_iff in H. destruct H as [Hab Hs].
    apply Qle_bool_iff in Hab.
    change (nth (S j) (a :: b :: l) 0%Q) with (nth j (b :: l) 0%Q).
    apply Qle_trans with b; [assumption|].
    apply IH; [assumption|simpl in *; lia].
Qed.

Lemma sortedQ_tail (a : Q) (l : list Q) :
  sortedQ (a :: l) = true -> sortedQ l = true.
Proof.
  destruct l as [|b l]; [reflexivity|].
  cbn [sortedQ]. intro H. apply andb_true_iff in H. tauto.
Qed.

Lemma sortedQ_nth (l : list Q) (i j : nat) :
  sortedQ l = true -> (i <= j < List.length l)%nat ->
  (nth i l 0 <= nth j l 0)%Q.
Proof.
  revert i j. induction l as [|a l IH]; intros i j H Hij; [simpl in Hij; lia|].
  destruct i as [|i].
  - apply (sortedQ_head a l j H). lia.
  - destruct j as [|j]; [lia|]. simpl.
    apply IH; [eapply sortedQ_tail; eassumption|simpl in Hij; lia].
Qed.

Lemma ascending_timed (d : series) :
  ascendingb d = true -> exists tm, timed d tm.
Proof.
  unfold ascendingb. destruct (all_times d) as [ts|] eqn:E; [|discriminate].
  intro Hs. exists (fun i => nth (Z.to_nat i) ts 0%Q). split.
  - intros i Hi. unfold len in Hi.
    destruct (all_times_nth d ts (Z.to_nat i) E) as [s [Hn Hf]]; [lia|].
    exists s. split; [|assumption].
    unfold at_index. destruct (i <? 0) eqn:Ei; [apply Z.ltb_lt in Ei; lia|].
    rewrite Hn. reflexivity.
  - intros i j Hi Hij Hj. unfold len in Hj.
    apply sortedQ_nth; [assumption|].
    rewrite (all_times_length d ts E). lia.
Qed.

Lemma timed_time_at (d : series) (tm : Z -> Q) (i : Z) :
  timed d tm -> 0 <= i < len d -> time_at d i = Some (tm i).
Proof.
  intros [H _] Hi. destruct (H i Hi) as [s [Ha Hf]].
  unfold time_at. rewrite Ha. assumption.
Qed.

(** ** [findClosestTimeIndex] *)

Section ClosestIndex.

Variables (d : series) (tm : Z -> Q) (time : Q).
Hypothesis Htimed : timed d tm.

Local Abbreviation n := (len d).
Local Abbreviation nearest := (nearest d tm time).
Local Abbreviation bracket := (bracket d tm time).

Lemma tm_mono (i j : Z) : 0 <= i -> i <= j -> j < n -> (tm i <= tm j)%Q.
Proof. destruct Htimed as [_ H]. apply H. Qed.

Lemma at_index_timed (i : Z) :
  0 <= i < n ->
  exists s, at_index d i = Some s /\ field "time" s = Some (tm i).
Proof. destruct Htimed as [H _]. apply H. Qed.

Lemma closest_of_bracket_nearest (left : Z) :
  0 < n -> bracket left (left - 1) ->
  exists r, Utils.closest_of_bracket time d left (left - 1) = Ret r
            /\ nearest r.
Proof.
  intros Hn (Hl & Hr & _ & Hlo & Hhi).
  unfold Utils.closest_of_bracket. fold n.
  destruct (left - 1 <? 0) eqn:E1.
  { apply Z.ltb_lt in E1. assert (left = 0) by lia. subst left.
    exists 0. split; [reflexivity|]. split; [lia|]. intros j Hj.
    destruct (Z.eq_dec j 0) as [->|Hne]; [lra|].
    assert (time < tm 0)%Q by (apply Hhi; lia).
    assert (tm 0 <= tm j)%Q by (apply tm_mono; lia).
    rewrite !Qabs_diff_above by lra. lra. }
  apply Z.ltb_ge in E1.
  destruct (left >=? n) eqn:E2.
  { apply Z.geb_le in E2. assert (left = n) by lia. subst left.
    exists (n - 1). split; [reflexivity|]. split; [lia|]. intros j Hj.
    assert (tm (n - 1) < time)%Q by (apply Hlo; lia).
    assert (tm j <= tm (n - 1))%Q by (apply tm_mono; lia).
    rewrite !Qabs_diff_below by lra. lra. }
  assert (E2' : left < n).
  { destruct (Z.geb_spec left n) as [|]; [discriminate|lia]. }
  destruct (at_index_timed (left - 1)) as [sr [Har Hfr]]; [lia|].
  destruct (at_index_timed left) as [sl [Hal Hfl]]; [lia|].
  rewrite Har, Hal, Hfr, Hfl. cbn [abs_diff lt_nan].
  assert (Hbelow : (tm (left - 1) < time)%Q) by (apply Hlo; lia).
  assert (Habove : (time < tm left)%Q) by (apply Hhi; lia).
  eexists. split; [reflexivity|].
  destruct (Qltb (Qabs (tm (left - 1) - time)) (Qabs (tm left - time))) eqn:C.
  - apply Qltb_lt in C. split; [lia|]. intros j Hj.
    destruct (Z_le_gt_dec j (left - 1)) as [Hle|Hgt].
    + assert (tm j <= tm (left - 1))%Q by (apply tm_mono; lia).
      rewrite !Qabs_diff_below by lra. lra.
    + assert (tm left <= tm j)%Q by (apply tm_mono; lia).
      apply Qle_trans with (Qabs (tm left - time)); [lra|].
      rewrite !Qabs_diff_above by lra. lra.
  - apply Qltb_ge in C. split; [lia|]. intros j Hj.
    destruct (Z_le_gt_dec j (left - 1)) as [Hle|Hgt].
    + assert (tm j <= tm (left - 1))%Q by (apply tm_mono; lia).
      apply Qle_trans with (Qabs (tm (left - 1) - time)); [lra|].
      rewrite !Qabs_diff_below by lra. lra.
    + assert (tm left <= tm j)%Q by (apply tm_mono; lia).
      rewrite !Qabs_diff_above by lra. lra.
Qed.

Lemma closest_loop_nearest (fuel : nat) :
  forall left right,
    0 < n -> bracket left right ->
    (Z.to_nat (right - left + 1) <= fuel)%nat ->
    exists r, Utils.closest_loop fuel time d left right = Ret r /\ nearest r.
Proof.
  induction fuel as [|fuel IH]; intros left right Hn Hb Hfuel.
  - assert (right = left - 1) by (destruct Hb as (? & ? & ? & _); lia).
    subst right. cbn [Utils.closest_loop].
    destruct (left <=? left - 1) eqn:E; [apply Z.leb_le in E; lia|].
    apply closest_of_bracket_nearest; assumption.
  - cbn [Utils.closest_loop].
    destruct (left <=? right) eqn:E.
    + apply Z.leb_le in E.
      destruct Hb as (Hl & Hr & Hlr & Hlo & Hhi).
      set (mid := (left + right) / 2).
      assert (Hmid : left <= mid <= right).
      { unfold mid. split.
        - apply Z.div_le_lower_bound; lia.
        - apply Z.div_le_upper_bound; lia. }
      destruct (at_index_timed mid) as [s [Ha Hf]]; [lia|].
      rewrite Ha, Hf. cbn [lt_l gt_l].
      destruct (Qltb (tm mid) time) eqn:C1.
      * apply Qltb_lt in C1. apply IH; [assumption| |lia].
        repeat split; try lia; [|intros i Hi; apply Hhi; lia].
        intros i Hi. apply Qle_lt_trans with (tm mid); [|assumption].
        apply tm_mono; lia.
      * apply Qltb_ge in C1.
        destruct (Qltb time (tm mid)) eqn:C2.
        -- apply Qltb_lt in C2. apply IH; [assumption| |lia].
           repeat split; try lia; [intros i Hi; apply Hlo; lia|].
           intros i Hi. apply Qlt_le_trans with (tm mid); [assumption|].
           apply tm_mono; lia.
        -- apply Qltb_ge in C2. exists mid. split; [reflexivity|].
           split; [lia|]. intros j Hj.
           assert (Heq : (tm mid - time == 0)%Q) by lra.
           rewrite Heq. change (Qabs 0) with 0%Q. apply Qabs_nonneg.
    + apply Z.leb_gt in E.
      assert (right = left - 1) by (destruct Hb as (? & ? & ? & _); lia).
      subst right. apply closest_of_bracket_nearest; assumption.
Qed.

Lemma findClosestTimeIndex_nearest :
  0 < n ->
  exists r, Utils.findClosestTimeIndex time d = Ret r /\ nearest r.
Proof.
  intro Hn. unfold Utils.findClosestTimeIndex.
  apply closest_loop_nearest; [assumption| |unfold n, len in *; lia].
  unfold bracket. fold n. repeat split; try lia; intros i Hi; lia.
Qed.

End ClosestIndex.

Lemma findClosestTimeIndex_empty (time : Q) :
  Utils.findClosestTimeIndex time [] = Ret 0.
Proof. reflexivity. Qed.

(** C1. On a time-ascending series [findClosestTimeIndex] returns an index
    whose sample time is at least as close to the query time as the time of
    every sample of the series; when some sample's time equals the query
    time, the sample at the returned index has that time. *)
Theorem findClosestTimeIndex_closest (time : Q) (energyData : series) :
  ascendingb energyData = true ->
  exists r,
    Utils.findClosestTimeIndex time energyData = Ret r
    /\ (forall j tj, time_at energyData j = Some tj ->
          exists tr, time_at energyData r = Some tr
                     /\ (Qabs (tr - time) <= Qabs (tj - time))%Q)
    /\ (forall j tj, time_at energyData j = Some tj -> (tj == time)%Q ->
          exists tr, time_at energyData r = Some tr /\ (tr == time)%Q).
Proof.
  intro Hasc. destruct (ascending_timed energyData Hasc) as [tm Htm].
  destruct (Z.eq_dec (len energyData) 0) as [Hz|Hnz].
  - exists 0. destruct energyData; [|unfold len in Hz; simpl in Hz; lia].
    split; [reflexivity|].
    split; intros j tj Hj; apply time_at_range in Hj; unfold len in Hj;
      simpl in Hj; lia.
  - pose proof (len_nonneg energyData) as Hpos.
    destruct (findClosestTimeIndex_nearest energyData tm time Htm)
      as [r [Hr [Hrange Hmin]]]; [lia|].
    exists r. split; [assumption|].
    assert (Hnear : forall j tj, time_at energyData j = Some tj ->
              time_at energyData r = Some (tm r)
              /\ (Qabs (tm r - time) <= Qabs (tj - time))%Q).
    { intros j tj Hj. pose proof (time_at_range _ _ _ Hj) as Hjr.
      rewrite (timed_time_at _ tm j Htm Hjr) in Hj. inversion Hj; subst tj.
      split; [apply timed_time_at; assumption|apply Hmin; assumption]. }
    split.
    + intros j tj Hj. exists (tm r). apply (Hnear j tj Hj).
    + intros j tj Hj Heq. exists (tm r).
      destruct (Hnear j tj Hj) as [Ht Hle]. split; [assumption|].
      assert (H0 : (Qabs (tj - time) == 0)%Q).
      { assert (Hd : (tj - time == 0)%Q) by lra. rewrite Hd. reflexivity. }
      rewrite H0 in Hle.
      apply Qabs_Qle_condition in Hle. lra.
Qed.

Lemma findClosestTimeIndex_closest_witness :
  exists r,
    Utils.findClosestTimeIndex (5#2) scenario = Ret r
    /\ (forall j tj, time_at scenario j = Some tj ->
          exists tr, time_at scenario r = Some tr
                     /\ (Qabs (tr - (5#2)) <= Qabs (tj - (5#2)))%Q)
    /\ (forall j tj, time_at scenario j = Some tj -> (tj == (5#2))%Q ->
          exists tr, time_at scenario r = Some tr /\ (tr == (5#2))%Q).
Proof.
  apply (findClosestTimeIndex_closest (5#2) scenario). reflexivity.
Defined.

(** ** Fields of type number and fields that are not [NaN] *)

Lemma field_get (k : string) (s : sample) (q : Q) :
  field k s = Some q -> get k s = Some (Some q).
Proof.
unfold field, to_number.
destruct (get k s) as [[x|]|]; intro H; [|discriminate|discriminate].
inversion H. reflexivity.
Qed.

Lemma field_is_number (k : string) (s : sample) (q : Q) :
  field k s = Some q -> is_number (get k s) = true.
Proof. intro H. rewrite (field_get k s q H). reflexivity. Qed.

Lemma has_number_of_field (k : string) (d : series) (i : Z) (s : sample)
      (q : Q) :
  at_index d i = Some s -> field k s = Some q -> has_number k d i = true.
Proof.
intros Ha Hf. unfold has_number. rewrite Ha.
apply (field_is_number k s q Hf).
Qed.

Lemma no_nan_at (k : string) (d : series) (i : Z) (s : sample) :
  no_nan k d = true -> at_index d i = Some s -> get k s <> Some None.
Proof.
unfold no_nan, at_index. intros Hn.
destruct (i <? 0); [discriminate|].
destruct (nth_error d (Z.to_nat i)) as [[s'|]|] eqn:E; try discriminate.
intro H. inversion H; subst s'.
apply nth_error_In in E.
rewrite forallb_forall in Hn. specialize (Hn _ E). cbn beta iota in Hn.
intro Hg. rewrite Hg in Hn. discriminate.
Qed.

Lemma has_number_field (k : string) (d : series) (i : Z) :
  no_nan k d = true -> has_number k d i = true ->
  exists s q, at_index d i = Some s /\ field k s = Some q.
Proof.
intros Hn. unfold has_number.
destruct (at_index d i) as [s|] eqn:Ha; [|discriminate].
pose proof (no_nan_at k d i s Hn Ha) as Hg.
intro Hnum. exists s. unfold field, to_number.
destruct (get k s) as [[q|]|];
  [|contradiction Hg; reflexivity|discriminate].
exists q. split; reflexivity.
Qed.



(** ** [findExactIndexFromTime]: it returns a number when no time is
       [NaN] *)

Lemma first_valid_up_spec (d : series) (c : nat) :
  forall i v, Utils.first_valid_up d i c = Some v ->
              i <= v < i + Z.of_nat c /\ Utils.valid_time d v = true.
Proof.
induction c as [|c IH]; intros i v H; [discriminate|].
cbn [Utils.first_valid_up] in H.
destruct (Utils.valid_time d i) eqn:E.
- inversion H; subst. split; [lia|assumption].
- apply IH in H. destruct H. split; [lia|assumption].
Qed.

Lemma first_valid_down_spec (d : series) (c : nat) :
  forall i v, Utils.first_valid_down d i c = Some v ->
              i - Z.of_nat c < v <= i /\ Utils.valid_time d v = true.
Proof.
induction c as [|c IH]; intros i v H; [discriminate|].
cbn [Utils.first_valid_down] in H.
destruct (Utils.valid_time d i) eqn:E.
- inversion H; subst. split; [lia|assumption].
- apply IH in H. destruct H. split; [lia|assumption].
Qed.

Lemma valid_time_fields (d : series) (i : Z) :
  no_nan "time" d = true ->
  Utils.valid_time d i = true ->
  exists s t, at_index d i = Some s /\ field "time" s = Some t.
Proof. apply has_number_field. Qed.

Lemma mid_between (left right : Z) :
  right - left > 1 -> left < (left + right) / 2 < right.
Proof.
intro H.
pose proof (Z.div_le_lower_bound (left + right) 2 (left + 1)) as Hlo.
pose proof (Z.div_lt_upper_bound (left + right) 2 right) as Hhi.
lia.
Qed.

Lemma exact_of_bracket_number (time : Q) (d : series) (left right : Z) :
  no_nan "time" d = true ->
  Utils.valid_time d left = true -> Utils.valid_time d right = true ->
  exists q, Utils.exact_of_bracket time d left right = Ret (Some q).
Proof.
intros Hnn Hl Hr.
destruct (valid_time_fields d left Hnn Hl) as [sl [tl [Hal Hfl]]].
destruct (valid_time_fields d right Hnn Hr) as [sr [tr [Har Hfr]]].
unfold Utils.exact_of_bracket. rewrite Hal, Hfl.
destruct (lt_nan _ _); [eexists; reflexivity|].
rewrite Har, Hfr.
destruct (lt_nan _ _); [eexists; reflexivity|].
destruct (Qle_bool _ _); eexists; reflexivity.
Qed.

Lemma exact_loop_number (time : Q) (d : series) (fuel : nat) :
  no_nan "time" d = true ->
  forall left right,
    Utils.valid_time d left = true -> Utils.valid_time d right = true ->
    (Z.to_nat (right - left) <= fuel)%nat ->
    exists q, Utils.exact_loop fuel time d left right = Ret (Some q).
Proof.
intro Hnn.
induction fuel as [|fuel IH]; intros left right Hl Hr Hfuel.
- cbn [Utils.exact_loop].
  destruct (right - left >? 1) eqn:E; [apply Z.gtb_lt in E; lia|].
  apply exact_of_bracket_number; assumption.
- cbn [Utils.exact_loop].
  destruct (right - left >? 1) eqn:E;
    [|apply exact_of_bracket_number; assumption].
  apply Z.gtb_lt in E.
  pose proof (mid_between left right ltac:(lia)) as Hmid.
  set (mid := (left + right) / 2) in *.
  destruct (Utils.valid_time d mid) eqn:Vm; cbn [negb].
  + destruct (lt_l (time_at d mid) time); apply IH; try assumption; lia.
  + destruct (Utils.first_valid_up d mid (Z.to_nat (right - mid + 1)))
      as [v|] eqn:Up.
    * apply first_valid_up_spec in Up. destruct Up as [Hv Vv].
      destruct (v >=? mid) eqn:G.
      -- apply IH; try assumption; lia.
      -- destruct (Z.geb_spec v mid); [discriminate|lia].
    * destruct (Utils.first_valid_down d (mid - 1) (Z.to_nat (mid - left)))
        as [v|] eqn:Down; [|eexists; reflexivity].
      apply first_valid_down_spec in Down. destruct Down as [Hv Vv].
      destruct (v >=? mid) eqn:G.
      -- destruct (Z.geb_spec v mid); [lia|discriminate].
      -- apply IH; try assumption; lia.
Qed.

Lemma findExactIndexFromTime_number (time : Q) (d : series) :
  no_nan "time" d = true ->
  exists q, Utils.findExactIndexFromTime time d = Ret (Some q).
Proof.
intro Hnn. unfold Utils.findExactIndexFromTime.
destruct d as [|e d]; [eexists; reflexivity|].
set (data := e :: d).
destruct (Utils.valid_time data 0) eqn:V0; cbn [negb orb];
  [|eexists; reflexivity].
destruct (Utils.valid_time data (len data - 1)) eqn:Vn; cbn [negb];
  [|eexists; reflexivity].
destruct (exact_loop_number time data (List.length data) Hnn
                            0 (len data - 1))
  as [q Hq]; try assumption.
- unfold len. lia.
- rewrite Hq. exists q. reflexivity.
Qed.

(** ** [findNormalizedPositionFromTime] stays within the path *)

Lemma normalized_of_exact_range (d : series) (x : Q) :
  no_nan "energy" d = true ->
  exists p, Utils.normalized_of_exact d (Some x) = Some p
            /\ (0 <= p <= 99#100)%Q.
Proof.
intro Hne. unfold Utils.normalized_of_exact.
destruct (Qle_bool x 0) eqn:E0; [exists 0%Q; split; [reflexivity|lra]|].
destruct (Qle_bool (inject_Z (len d - 1)) x) eqn:E1;
  [exists (99#100); split; [reflexivity|lra]|].
assert (Hx : (0 < x)%Q).
{ apply Qnot_le_lt. intro H. apply Qle_bool_iff in H. congruence. }
assert (Hn : (x < inject_Z (len d - 1))%Q).
{ apply Qnot_le_lt. intro H. apply Qle_bool_iff in H. congruence. }
assert (Hbase : (0 <= x / inject_Z (len d - 1))%Q)
  by (apply Qle_shift_div_l; lra).
assert (Hfin : forall r, (0 <= r)%Q ->
          (0 <= Qmin (99#100) (x / inject_Z (len d - 1) * ((15#10) + r * 5))
           <= 99#100)%Q).
{ intros r Hr. split; [|apply Q.le_min_l].
  apply Q.min_glb; [lra|].
  apply Qmult_le_0_compat; [assumption|lra]. }
cbv zeta.
destruct (has_number "energy" d (Z.min (Qfloor x + 1) (len d - 1)))
  eqn:H1; cbn [andb];
  [|eexists; split; [reflexivity|apply Hfin; lra]].
destruct (has_number "energy" d (Qfloor x)) eqn:H2;
  [|eexists; split; [reflexivity|apply Hfin; lra]].
destruct (has_number_field "energy" d _ Hne H1) as (s1 & q1 & A1 & F1).
destruct (has_number_field "energy" d _ Hne H2) as (s2 & q2 & A2 & F2).
unfold energy_at. rewrite A1, A2, F1, F2.
eexists. split; [reflexivity|apply Hfin; apply Qabs_nonneg].
Qed.

Lemma findNormalizedPositionFromTime_range (time : Q) (d : series) :
  no_nan "time" d = true -> no_nan "energy" d = true ->
  exists p, Utils.findNormalizedPositionFromTime time d = Ret (Some p)
            /\ (0 <= p <= 99#100)%Q.
Proof.
intros Hnt Hne. unfold Utils.findNormalizedPositionFromTime.
destruct d as [|e d]; [exists 0%Q; split; [reflexivity|lra]|].
destruct (findExactIndexFromTime_number time (e :: d) Hnt) as [q Hq].
rewrite Hq. cbn [Utils.catch_zero].
destruct (normalized_of_exact_range (e :: d) q Hne) as [p [Hp Hr]].
exists p. rewrite Hp. split; [reflexivity|assumption].
Qed.

(** ** Both position functions return on every series *)

Lemma valid_time_at_index (d : series) (i : Z) :
  Utils.valid_time d i = true -> exists s, at_index d i = Some s.
Proof.
unfold Utils.valid_time, has_number.
destruct (at_index d i) as [s|]; [|discriminate].
intros _. exists s. reflexivity.
Qed.

Lemma exact_of_bracket_returns (time : Q) (d : series) (left right : Z) :
  Utils.valid_time d left = true -> Utils.valid_time d right = true ->
  exists x, Utils.exact_of_bracket time d left right = Ret x.
Proof.
intros Hl Hr.
destruct (valid_time_at_index d left Hl) as [sl Hal].
destruct (valid_time_at_index d right Hr) as [sr Har].
unfold Utils.exact_of_bracket. rewrite Hal.
destruct (lt_nan _ _); [eexists; reflexivity|].
rewrite Har.
destruct (lt_nan _ _); [eexists; reflexivity|].
destruct (field "time" sl); [destruct (field "time" sr)|];
  try (eexists; reflexivity).
destruct (Qle_bool _ _); eexists; reflexivity.
Qed.

Lemma exact_loop_returns (time : Q) (d : series) (fuel : nat) :
  forall left right,
    Utils.valid_time d left = true -> Utils.valid_time d right = true ->
    (Z.to_nat (right - left) <= fuel)%nat ->
    exists x, Utils.exact_loop fuel time d left right = Ret x.
Proof.
induction fuel as [|fuel IH]; intros left right Hl Hr Hfuel.
- cbn [Utils.exact_loop].
  destruct (right - left >? 1) eqn:E; [apply Z.gtb_lt in E; lia|].
  apply exact_of_bracket_returns; assumption.
- cbn [Utils.exact_loop].
  destruct (right - left >? 1) eqn:E;
    [|apply exact_of_bracket_returns; assumption].
  apply Z.gtb_lt in E.
  pose proof (mid_between left right ltac:(lia)) as Hmid.
  set (mid := (left + right) / 2) in *.
  destruct (Utils.valid_time d mid) eqn:Vm; cbn [negb].
  + destruct (lt_l (time_at d mid) time); apply IH; try assumption; lia.
  + destruct (Utils.first_valid_up d mid (Z.to_nat (right - mid + 1)))
      as [v|] eqn:Up.
    * apply first_valid_up_spec in Up. destruct Up as [Hv Vv].
      destruct (v >=? mid) eqn:G.
      -- apply IH; try assumption; lia.
      -- destruct (Z.geb_spec v mid); [discriminate|lia].
    * destruct (Utils.first_valid_down d (mid - 1) (Z.to_nat (mid - left)))
        as [v|] eqn:Down; [|eexists; reflexivity].
      apply first_valid_down_spec in Down. destruct Down as [Hv Vv].
      destruct (v >=? mid) eqn:G.
      -- destruct (Z.geb_spec v mid); [lia|discriminate].
      -- apply IH; try assumption; lia.
Qed.

Lemma findExactIndexFromTime_returns (time : Q) (d : series) :
  exists x, Utils.findExactIndexFromTime time d = Ret x.
Proof.
unfold Utils.findExactIndexFromTime.
destruct d as [|e d]; [eexists; reflexivity|].
set (data := e :: d).
destruct (Utils.valid_time data 0) eqn:V0; cbn [negb orb];
  [|eexists; reflexivity].
destruct (Utils.valid_time data (len data - 1)) eqn:Vn; cbn [negb];
  [|eexists; reflexivity].
destruct (exact_loop_returns time data (List.length data) 0 (len data - 1))
  as [x Hx]; try assumption.
- unfold len. lia.
- rewrite Hx. exists x. reflexivity.
Qed.

(** A normalized position that is not [NaN] lies within [0, 0.99]. *)
Lemma normalized_of_exact_some (d : series) (x : option Q) (p : Q) :
  Utils.normalized_of_exact d x = Some p -> (0 <= p <= 99#100)%Q.
Proof.
unfold Utils.normalized_of_exact. destruct x as [x|]; [|discriminate].
destruct (Qle_bool x 0) eqn:E0; [intro H; inversion H; lra|].
destruct (Qle_bool (inject_Z (len d - 1)) x) eqn:E1;
  [intro H; inversion H; lra|].
assert (Hx : (0 < x)%Q).
{ apply Qnot_le_lt. intro H. apply Qle_bool_iff in H. congruence. }
assert (Hn : (x < inject_Z (len d - 1))%Q).
{ apply Qnot_le_lt. intro H. apply Qle_bool_iff in H. congruence. }
assert (Hbase : (0 <= x / inject_Z (len d - 1))%Q)
  by (apply Qle_shift_div_l; lra).
assert (Hfin : forall r, (0 <= r)%Q ->
          (0 <= Qmin (99#100) (x / inject_Z (len d - 1) * ((15#10) + r * 5))
           <= 99#100)%Q).
{ intros r Hr. split; [|apply Q.le_min_l].
  apply Q.min_glb; [lra|].
  apply Qmult_le_0_compat; [assumption|lra]. }
cbv zeta.
destruct (has_number "energy" d (Z.min (Qfloor x + 1) (len d - 1)));
  cbn [andb]; [|intro H; injection H as <-; apply Hfin; lra].
destruct (has_number "energy" d (Qfloor x));
  [|intro H; injection H as <-; apply Hfin; lra].
destruct (energy_at d (Z.min (Qfloor x + 1) (len d - 1))) as [en|];
  [|discriminate].
destruct (energy_at d (Qfloor x)) as [ei|]; [|discriminate].
intro H.
apply (f_equal (fun o => match o with Some v => v | None => 0%Q end)) in H.
cbv beta iota in H. rewrite <- H. apply Hfin. apply Qabs_nonneg.
Qed.

(** [findNormalizedPositionFromTime] returns on every series, and what it
    returns is [NaN] or a number within [0, 0.99]. *)
Lemma findNormalizedPositionFromTime_returns (time : Q) (d : series) :
  exists np,
    Utils.findNormalizedPositionFromTime time d = Ret np
    /\ forall p, np = Some p -> (0 <= p <= 99#100)%Q.
Proof.
unfold Utils.findNormalizedPositionFromTime.
destruct d as [|e d];
  [exists (Some 0%Q); split; [reflexivity|intros p H; inversion H; lra]|].
destruct (findExactIndexFromTime_returns time (e :: d)) as [x Hx].
rewrite Hx. cbn [Utils.catch_zero].
eexists. split; [reflexivity|].
intros p Hp. apply (normalized_of_exact_some (e :: d) x p Hp).
Qed.

(** ** [findExactIndexFromTime] on a time-ascending series *)

Lemma findExactIndexFromTime_nonempty (time : Q) (d : series) :
  0 < len d ->
  Utils.findExactIndexFromTime time d
  = if negb (Utils.valid_time d 0) || negb (Utils.valid_time d (len d - 1))
    then Ret (Some 0%Q)
    else Utils.catch_zero
           (Utils.exact_loop (List.length d) time d 0 (len d - 1)).
Proof.
intro Hn. destruct d; [unfold len in Hn; simpl in Hn; lia|reflexivity].
Qed.

Section ExactIndex.

Variables (d : series) (tm : Z -> Q) (time : Q).
Hypothesis Htimed : timed d tm.

Lemma valid_time_timed (i : Z) :
  0 <= i < len d -> Utils.valid_time d i = true.
Proof.
intro Hi. destruct Htimed as [H _]. destruct (H i Hi) as (s & Ha & Hf).
apply (has_number_of_field "time" d i s (tm i) Ha Hf).
Qed.

(** The search loop ends on a bracket of width at most one that satisfies
    every property [P] its two updates preserve. *)
Lemma exact_loop_bracket (P : Z -> Z -> Prop) :
  (forall l r, P l r -> r - l > 1 ->
               ((tm ((l + r) / 2) < time)%Q -> P ((l + r) / 2) r)
               /\ ((time <= tm ((l + r) / 2))%Q -> P l ((l + r) / 2))) ->
  forall fuel left right,
    0 <= left -> right <= len d - 1 -> P left right ->
    (Z.to_nat (right - left) <= fuel)%nat ->
    exists l r,
      P l r /\ left <= l /\ r <= right /\ r - l <= 1
      /\ (right - left <= 1 -> l = left /\ r = right)
      /\ (right - left >= 1 -> r - l >= 1)
      /\ (left <= right -> l <= r)
      /\ Utils.exact_loop fuel time d left right
         = Utils.exact_of_bracket time d l r.
Proof.
intros Hstep fuel.
induction fuel as [|fuel IH]; intros left right Hl Hr HP Hfuel.
- exists left, right. cbn [Utils.exact_loop].
  destruct (right - left >? 1) eqn:E; [apply Z.gtb_lt in E; lia|].
  rewrite Z.gtb_ltb in E. apply Z.ltb_ge in E.
  repeat split; try assumption; lia.
- cbn [Utils.exact_loop].
  destruct (right - left >? 1) eqn:E.
  + apply Z.gtb_lt in E.
    pose proof (mid_between left right ltac:(lia)) as Hmid.
    destruct (Hstep left right HP ltac:(lia)) as [Hlt Hge].
    set (mid := (left + right) / 2) in *.
    rewrite (valid_time_timed mid) by lia. cbn [negb].
    rewrite (timed_time_at d tm mid Htimed) by lia. cbn [lt_l].
    destruct (Qltb (tm mid) time) eqn:C.
    * apply Qltb_lt in C.
      destruct (IH mid right ltac:(lia) Hr (Hlt C) ltac:(lia))
        as (l & r & H1 & H2 & H3 & H4 & H5 & H6 & H7 & H8).
      exists l, r. repeat split; try assumption; lia.
    * apply Qltb_ge in C.
      destruct (IH left mid Hl ltac:(lia) (Hge C) ltac:(lia))
        as (l & r & H1 & H2 & H3 & H4 & H5 & H6 & H7 & H8).
      exists l, r. repeat split; try assumption; lia.
  + rewrite Z.gtb_ltb in E. apply Z.ltb_ge in E.
    exists left, right. repeat split; try assumption; lia.
Qed.

Lemma exact_of_bracket_timed (l r : Z) :
  0 <= l < len d -> 0 <= r < len d ->
  Utils.exact_of_bracket time d l r
  = if Qltb (Qabs (tm l - time)) (1#1000) then Ret (Some (inject_Z l))
    else if Qltb (Qabs (tm r - time)) (1#1000) then Ret (Some (inject_Z r))
    else if Qle_bool (tm r - tm l) 0 then Ret (Some (inject_Z l))
    else Ret (Some (inject_Z l + (time - tm l) / (tm r - tm l))%Q).
Proof.
intros Hl Hr. destruct Htimed as [Hat _].
destruct (Hat l Hl) as [sl [Hal Hfl]].
destruct (Hat r Hr) as [sr [Har Hfr]].
unfold Utils.exact_of_bracket. rewrite Hal, Har, Hfl, Hfr. reflexivity.
Qed.

(** Between the two times of the bracket the result lies between its two
    indices. *)
Lemma exact_of_bracket_within (l : Z) :
  0 <= l -> l + 1 < len d -> (tm l <= time <= tm (l + 1))%Q ->
  exists q, Utils.exact_of_bracket time d l (l + 1) = Ret (Some q)
            /\ (inject_Z l <= q <= inject_Z (l + 1))%Q.
Proof.
intros Hl Hr Ht.
rewrite exact_of_bracket_timed by lia.
assert (Hinj : (inject_Z (l + 1) == inject_Z l + 1)%Q).
{ rewrite inject_Z_plus. reflexivity. }
destruct (Qltb _ _); [eexists; split; [reflexivity|lra]|].
destruct (Qltb _ _); [eexists; split; [reflexivity|lra]|].
destruct (Qle_bool (tm (l + 1) - tm l) 0) eqn:E;
  [eexists; split; [reflexivity|lra]|].
assert (Hpos : (0 < tm (l + 1) - tm l)%Q).
{ apply Qnot_le_lt. intro H. apply Qle_bool_iff in H. congruence. }
eexists; split; [reflexivity|].
assert (H0 : (0 <= (time - tm l) / (tm (l + 1) - tm l))%Q).
{ apply Qle_shift_div_l; lra. }
assert (H1 : ((time - tm l) / (tm (l + 1) - tm l) <= 1)%Q).
{ apply Qle_shift_div_r; lra. }
lra.
Qed.

(** Before the left time of the bracket the result is at most its left
    index. *)
Lemma exact_of_bracket_before (l r : Z) :
  0 <= l -> l <= r -> r < len d -> (time < tm l)%Q ->
  exists q, Utils.exact_of_bracket time d l r = Ret (Some q)
            /\ (q <= inject_Z l)%Q.
Proof.
intros Hl Hlr Hr Ht.
rewrite exact_of_bracket_timed by lia.
assert (Hmono : (tm l <= tm r)%Q) by (destruct Htimed as [_ H]; apply H; lia).
destruct (Qltb (Qabs (tm l - time)) (1#1000)) eqn:E1;
  [eexists; split; [reflexivity|lra]|].
apply Qltb_ge in E1. rewrite Qabs_diff_above in E1 by lra.
destruct (Qltb (Qabs (tm r - time)) (1#1000)) eqn:E2.
{ apply Qltb_lt in E2. rewrite Qabs_diff_above in E2 by lra. lra. }
destruct (Qle_bool (tm r - tm l) 0) eqn:E;
  [eexists; split; [reflexivity|lra]|].
assert (Hpos : (0 < tm r - tm l)%Q).
{ apply Qnot_le_lt. intro H. apply Qle_bool_iff in H. congruence. }
eexists; split; [reflexivity|].
assert (H1 : ((time - tm l) / (tm r - tm l) <= 0)%Q).
{ apply Qle_shift_div_r; lra. }
lra.
Qed.

Lemma findExactIndexFromTime_timed :
  0 < len d ->
  Utils.findExactIndexFromTime time d
  = Utils.catch_zero (Utils.exact_loop (List.length d) time d 0 (len d - 1)).
Proof.
intro Hn. rewrite findExactIndexFromTime_nonempty by assumption.
rewrite !valid_time_timed by lia. reflexivity.
Qed.

Lemma findExactIndexFromTime_within :
  2 <= len d -> (tm 0 <= time <= tm (len d - 1))%Q ->
  exists q, Utils.findExactIndexFromTime time d = Ret (Some q)
            /\ (0 <= q <= inject_Z (len d - 1))%Q.
Proof.
intros Hn Ht. rewrite findExactIndexFromTime_timed by lia.
destruct (exact_loop_bracket (fun l r => (tm l <= time <= tm r)%Q))
  with (fuel := List.length d) (left := 0) (right := len d - 1)
  as (l & r & HP & Hl & Hr & Hw & _ & Hw' & Hlr & Heq);
  try lia; try assumption; [|unfold len; lia|].
{ intros l r H _. split; intro; lra. }
assert (r = l + 1) by lia. subst r.
destruct (exact_of_bracket_within l) as [q [Hq Hqr]]; try lia; [assumption|].
exists q. rewrite Heq, Hq. split; [reflexivity|].
assert (inject_Z 0 <= inject_Z l)%Q by (rewrite <- Zle_Qle; lia).
assert (inject_Z (l + 1) <= inject_Z (len d - 1))%Q
  by (rewrite <- Zle_Qle; lia).
change (inject_Z 0) with 0%Q in *. lra.
Qed.

Lemma findExactIndexFromTime_before :
  0 < len d -> (time < tm 0)%Q ->
  exists q, Utils.findExactIndexFromTime time d = Ret (Some q) /\ (q <= 0)%Q.
Proof.
intros Hn Ht. rewrite findExactIndexFromTime_timed by lia.
destruct (exact_loop_bracket
            (fun l r => l = 0 /\ r <= len d - 1))
  with (fuel := List.length d) (left := 0) (right := len d - 1)
  as (l & r & [HP _] & Hl & Hr & Hw & _ & Hw' & Hlr & Heq);
  try lia; [|unfold len; lia|].
{ intros l r [H Hr] Hw. subst l.
  pose proof (mid_between 0 r ltac:(lia)) as Hmid.
  split; intro Hc; [|lia].
  assert (tm 0 <= tm ((0 + r) / 2))%Q
    by (destruct Htimed as [_ Hm]; apply Hm; lia).
  lra. }
subst l.
destruct (exact_of_bracket_before 0 r) as [q [Hq Hqr]]; try lia;
  [assumption|].
exists q. rewrite Heq, Hq. split; [reflexivity|].
change (inject_Z 0) with 0%Q in Hqr. assumption.
Qed.

(** After the last time the loop ends on the last two indices. *)
Lemma exact_loop_after :
  2 <= len d -> (tm (len d - 1) < time)%Q ->
  Utils.exact_loop (List.length d) time d 0 (len d - 1)
  = Utils.exact_of_bracket time d (len d - 2) (len d - 1).
Proof.
intros Hn Ht.
destruct (exact_loop_bracket (fun l r => 0 <= l /\ r = len d - 1))
  with (fuel := List.length d) (left := 0) (right := len d - 1)
  as (l & r & [_ HP] & Hl & Hr & Hw & _ & Hw' & Hlr & Heq);
  try lia; [|unfold len; lia|].
{ intros l r [H0 H] Hw. subst r.
  pose proof (mid_between l (len d - 1) ltac:(lia)) as Hmid.
  split; intro Hc; [lia|].
  assert (tm ((l + (len d - 1)) / 2) <= tm (len d - 1))%Q
    by (destruct Htimed as [_ Hm]; apply Hm; lia).
  lra. }
subst r. assert (l = len d - 2) by lia. subst l. exact Heq.
Qed.

Lemma findExactIndexFromTime_after :
  2 <= len d -> (tm (len d - 1) < time)%Q ->
  exists q, Utils.findExactIndexFromTime time d = Ret (Some q)
            /\ (inject_Z (len d - 2) <= q)%Q
            /\ ((tm (len d - 2) + (1#1000) <= tm (len d - 1))%Q ->
                (inject_Z (len d - 1) <= q)%Q).
Proof.
intros Hn Ht. rewrite findExactIndexFromTime_timed by lia.
rewrite exact_loop_after by assumption.
rewrite exact_of_bracket_timed by lia.
assert (Hmono : (tm (len d - 2) <= tm (len d - 1))%Q)
  by (destruct Htimed as [_ H]; apply H; lia).
assert (Hinj : (inject_Z (len d - 1) == inject_Z (len d - 2) + 1)%Q).
{ replace (len d - 1) with (len d - 2 + 1) by lia.
  rewrite inject_Z_plus. reflexivity. }
destruct (Qltb (Qabs (tm (len d - 2) - time)) (1#1000)) eqn:E1.
{ apply Qltb_lt in E1. rewrite Qabs_diff_below in E1 by lra.
  eexists. split; [reflexivity|]. split; [lra|]. intro Hs. lra. }
destruct (Qltb (Qabs (tm (len d - 1) - time)) (1#1000)) eqn:E2.
{ eexists. split; [reflexivity|]. split; [lra|]. intro Hs. lra. }
destruct (Qle_bool (tm (len d - 1) - tm (len d - 2)) 0) eqn:E3.
{ apply Qle_bool_iff in E3.
  eexists. split; [reflexivity|]. split; [lra|]. intro Hs. lra. }
assert (Hpos : (0 < tm (len d - 1) - tm (len d - 2))%Q).
{ apply Qnot_le_lt. intro H. apply Qle_bool_iff in H. congruence. }
assert (H1 : (1 <= (time - tm (len d - 2))
                   / (tm (len d - 1) - tm (len d - 2)))%Q).
{ apply Qle_shift_div_l; lra. }
eexists. split; [reflexivity|]. split; [lra|]. intro Hs. lra.
Qed.

End ExactIndex.

(** ** Query times outside the sampled range *)

Section OutsideRange.

Variables (d : series) (tm : Z -> Q) (time : Q).
Hypothesis Htimed : timed d tm.



Lemma findNormalizedPositionFromTime_before :
  0 < len d -> (time < tm 0)%Q ->
  Utils.findNormalizedPositionFromTime time d = Ret (Some 0%Q).
Proof.
intros Hn Ht.
destruct (findExactIndexFromTime_before d tm time Htimed Hn Ht) as [q [Hq Hle]].
unfold Utils.findNormalizedPositionFromTime.
destruct d as [|e d'] eqn:Ed; [unfold len in Hn; simpl in Hn; lia|].
rewrite Hq. cbn [Utils.catch_zero Utils.normalized_of_exact].
apply Qle_bool_iff in Hle. rewrite Hle. reflexivity.
Qed.

Lemma findNormalizedPositionFromTime_after :
  2 <= len d -> (tm (len d - 1) < time)%Q ->
  (tm (len d - 2) + (1#1000) <= tm (len d - 1))%Q ->
  Utils.findNormalizedPositionFromTime time d = Ret (Some (99#100)).
Proof.
intros Hn Ht Hs.
destruct (findExactIndexFromTime_after d tm time Htimed Hn Ht)
  as (q & Hq & _ & Hlast).
specialize (Hlast Hs).
unfold Utils.findNormalizedPositionFromTime.
destruct d as [|e d'] eqn:Ed; [unfold len in Hn; simpl in Hn; lia|].
rewrite Hq. cbn [Utils.catch_zero Utils.normalized_of_exact].
assert (H1 : (1 <= inject_Z (len (e :: d') - 1))%Q)
  by (change 1%Q with (inject_Z 1); rewrite <- Zle_Qle; lia).
destruct (Qle_bool q 0) eqn:E0; [apply Qle_bool_iff in E0; lra|].
apply Qle_bool_iff in Hlast. rewrite Hlast. reflexivity.
Qed.

End OutsideRange.



(** C4 fails on the code.  On the time-ascending series [nan_tail], whose
    last two samples share their time and whose middle sample has an
    energy that is [NaN], a query time after the last sample resolves to
    the last discrete index, but the normalized position is [NaN], not a
    number of at most 0.99: the fractional index is 1, below
    [length - 1], the energy passes the [typeof] test of
    [findNormalizedPositionFromTime] and [Math.min(0.99, NaN)] is
    [NaN]. *)
Theorem resolve_after_last_gives_nan :
  ascendingb nan_tail = true
  /\ time_at nan_tail (len nan_tail - 1) = Some 1%Q
  /\ Utils.findClosestTimeIndex 5 nan_tail = Ret (len nan_tail - 1)
  /\ Utils.findExactIndexFromTime 5 nan_tail = Ret (Some 1%Q)
  /\ has_number "energy" nan_tail 1 = true
  /\ energy_at nan_tail 1 = None
  /\ Utils.findNormalizedPositionFromTime 5 nan_tail = Ret None.
Proof. repeat split; vm_compute; reflexivity. Qed.

(** ** The fractional index is not clamped by [findExactIndexFromTime] *)

(** C2, as stated, fails: before the first sample the fractional index is
    extrapolated below 0, after the last sample above [length - 1]. *)
Lemma findExactIndexFromTime_extrapolates :
  ascendingb two_samples = true
  /\ 2 <= len two_samples
  /\ (exists q, Utils.findExactIndexFromTime 0 two_samples = Ret (Some q)
                /\ (q < 0)%Q)
  /\ (exists q, Utils.findExactIndexFromTime 40 two_samples = Ret (Some q)
                /\ (inject_Z (len two_samples - 1) < q)%Q).
Proof.
split; [reflexivity|]. split; [unfold len; simpl; lia|]. split.
- eexists. split; [vm_compute; reflexivity|reflexivity].
- eexists. split; [vm_compute; reflexivity|reflexivity].
Qed.

(** C2, amended. On a time-ascending series of at least two samples the
    fractional index lies within [0, length - 1] for every query time
    between the first and the last sample time.  Outside it is not
    clamped: before the first sample it is at most 0, after the last
    sample it is at least [length - 2], and at least [length - 1] when the
    last two sample times are at least 0.001 apart.  The clamp is applied by
    the caller: [findNormalizedPositionFromTime] maps every index of at
    most 0 to position 0 and every index of at least [length - 1] to 0.99,
    so it returns 0 before the first sample and, when the last two sample
    times are at least 0.001 apart, 0.99 after the last. *)
Theorem findExactIndexFromTime_sampled_range (time : Q) (energyData : series) :
  ascendingb energyData = true ->
  2 <= len energyData ->
  forall t0 tp tl,
    time_at energyData 0 = Some t0 ->
    time_at energyData (len energyData - 2) = Some tp ->
    time_at energyData (len energyData - 1) = Some tl ->
    ((t0 <= time <= tl)%Q ->
     exists q, Utils.findExactIndexFromTime time energyData = Ret (Some q)
               /\ (0 <= q <= inject_Z (len energyData - 1))%Q)
    /\ ((time < t0)%Q ->
        (exists q, Utils.findExactIndexFromTime time energyData = Ret (Some q)
                   /\ (q <= 0)%Q)
        /\ Utils.findNormalizedPositionFromTime time energyData
           = Ret (Some 0%Q))
    /\ ((tl < time)%Q ->
        (exists q, Utils.findExactIndexFromTime time energyData = Ret (Some q)
                   /\ (inject_Z (len energyData - 2) <= q)%Q
                   /\ ((tp + (1#1000) <= tl)%Q ->
                       (inject_Z (len energyData - 1) <= q)%Q))
        /\ ((tp + (1#1000) <= tl)%Q ->
            Utils.findNormalizedPositionFromTime time energyData
            = Ret (Some (99#100))))
    /\ (forall x, (x <= 0)%Q ->
                  Utils.normalized_of_exact energyData (Some x) = Some 0%Q)
    /\ (forall x, (inject_Z (len energyData - 1) <= x)%Q ->
                  Utils.normalized_of_exact energyData (Some x)
                  = Some (99#100)).
Proof.
intros Hasc Hn t0 tp tl H0 Hp Hl.
destruct (ascending_timed energyData Hasc) as [tm Htm].
rewrite (timed_time_at _ tm 0 Htm) in H0 by lia.
rewrite (timed_time_at _ tm _ Htm) in Hp by lia.
rewrite (timed_time_at _ tm _ Htm) in Hl by lia.
inversion H0; subst t0. inversion Hp; subst tp. inversion Hl; subst tl.
split; [|split; [|split; [|split]]].
- intro Ht. apply (findExactIndexFromTime_within energyData tm time Htm);
    assumption.
- intro Ht. split.
  + apply (findExactIndexFromTime_before energyData tm time Htm);
      [lia|assumption].
  + apply (findNormalizedPositionFromTime_before energyData tm time Htm);
      [lia|assumption].
- intro Ht. split.
  + apply (findExactIndexFromTime_after energyData tm time Htm);
      assumption.
  + intro Hs.
    apply (findNormalizedPositionFromTime_after energyData tm time Htm);
      assumption.
- intros x Hx. unfold Utils.normalized_of_exact.
  apply Qle_bool_iff in Hx. rewrite Hx. reflexivity.
- intros x Hx. unfold Utils.normalized_of_exact.
  assert (H1 : (1 <= inject_Z (len energyData - 1))%Q)
    by (change 1%Q with (inject_Z 1); rewrite <- Zle_Qle; lia).
  destruct (Qle_bool x 0) eqn:E0; [apply Qle_bool_iff in E0; lra|].
  apply Qle_bool_iff in Hx. rewrite Hx. reflexivity.
Qed.

Lemma findExactIndexFromTime_sampled_range_witness :
  (exists q, Utils.findExactIndexFromTime (5#2) scenario = Ret (Some q)
             /\ (0 <= q <= inject_Z (len scenario - 1))%Q)
  /\ ((exists q, Utils.findExactIndexFromTime (-1) scenario = Ret (Some q)
                 /\ (q <= 0)%Q)
      /\ Utils.findNormalizedPositionFromTime (-1) scenario = Ret (Some 0%Q))
  /\ ((exists q, Utils.findExactIndexFromTime 10 scenario = Ret (Some q)
                 /\ (inject_Z (len scenario - 2) <= q)%Q
                 /\ ((3 + (1#1000) <= 4)%Q ->
                     (inject_Z (len scenario - 1) <= q)%Q))
      /\ ((3 + (1#1000) <= 4)%Q ->
          Utils.findNormalizedPositionFromTime 10 scenario
          = Ret (Some (99#100)))).
Proof.
split; [|split].
- apply (proj1 (findExactIndexFromTime_sampled_range
                  (5#2) scenario eq_refl ltac:(unfold len; simpl; lia)
                  0%Q 3%Q 4%Q eq_refl eq_refl eq_refl)).
  split; discriminate.
- apply (proj1 (proj2 (findExactIndexFromTime_sampled_range
                  (-1) scenario eq_refl ltac:(unfold len; simpl; lia)
                  0%Q 3%Q 4%Q eq_refl eq_refl eq_refl))).
  reflexivity.
- apply (proj1 (proj2 (proj2 (findExactIndexFromTime_sampled_range
                  10 scenario eq_refl ltac:(unfold len; simpl; lia)
                  0%Q 3%Q 4%Q eq_refl eq_refl eq_refl)))).
  reflexivity.
Defined.

(** ** [findClosestTimeIndex] on a series with invalid samples *)

(** C5 fails on the code: [findClosestTimeIndex] returns the index of a
    sample without a numeric time or without a numeric energy, and throws on
    a missing entry, while [findExactIndexFromTime] skips such samples. *)
Theorem findClosestTimeIndex_returns_invalid_sample :
  (Utils.findClosestTimeIndex (1#2) gap_series = Ret 1
   /\ time_at gap_series 1 = None)
  /\ (Utils.findClosestTimeIndex 1 energy_gap_series = Ret 1
      /\ energy_at energy_gap_series 1 = None)
  /\ Utils.findClosestTimeIndex (1#2) hole_series = Throw
  /\ Utils.findExactIndexFromTime (1#2) hole_series = Ret (Some 2%Q).
Proof. repeat split; vm_compute; reflexivity. Qed.

(** ** The zone state machine *)

Lemma updateUIIndicators_step (t : Q) (energyData : series)
      (zoneData : zoneSeries) (i : Z) (w : world) (s : sample) (e : number)
      (z : string) :
  at_index energyData i = Some s ->
  get "energy" s = Some e ->
  Main.zone_candidate zoneData i e = Ret z ->
  Main.updateUIIndicators t energyData zoneData i w
  = Ret (if opt_string_eqb (Some z) (Config.currentZone (st w))
         then w
         else dispatch DOM.Document (Main.zoneChange (Some z) (Some e))
                       (with_state (Config.set_currentZone (Some z)) w)).
Proof.
intros Ha Hf Hz. unfold Main.updateUIIndicators. rewrite Ha, Hf, Hz.
destruct (opt_string_eqb _ _); reflexivity.
Qed.

Lemma opt_string_eqb_eq (a b : option string) :
  opt_string_eqb a b = true <-> a = b.
Proof.
destruct a as [x|], b as [y|]; simpl; split; intro H;
  try discriminate; try reflexivity.
- apply String.eqb_eq in H. congruence.
- inversion H. apply String.eqb_refl.
Qed.

Lemma getZoneNameFromValue_total (zoneValue : Z) :
  exists z, Config.getZoneNameFromValue zoneValue = Ret z.
Proof.
unfold Config.getZoneNameFromValue.
destruct (zoneValue <? 0) eqn:E; [eexists; reflexivity|].
apply Z.ltb_ge in E.
destruct (Config.palette_at zoneValue) as [p|]; [eexists; reflexivity|].
pose proof (Z.rem_bound_pos zoneValue Config.zoneCount E eq_refl) as Hb.
change Config.zoneCount with 5 in *.
assert (Hk : Z.rem zoneValue 5 = 0 \/ Z.rem zoneValue 5 = 1
             \/ Z.rem zoneValue 5 = 2 \/ Z.rem zoneValue 5 = 3
             \/ Z.rem zoneValue 5 = 4) by lia.
destruct Hk as [H|[H|[H|[H|H]]]]; rewrite H; eexists; reflexivity.
Qed.

Lemma energy_zone_of_total (e : number) :
  exists z, Main.energy_zone_of e = Ret z.
Proof.
destruct e as [q|]; cbn [Main.energy_zone_of];
  [apply getZoneNameFromValue_total|eexists; reflexivity].
Qed.

Lemma zone_candidate_total (zoneData : zoneSeries) (i : Z) (e : number) :
  exists z, Main.zone_candidate zoneData i e = Ret z.
Proof.
unfold Main.zone_candidate.
destruct (zone_at_index zoneData i) as [zs|];
  [destruct (zone zs)|];
  first [apply getZoneNameFromValue_total|apply energy_zone_of_total].
Qed.

(** C3. A step of the zone state machine dispatches one event when the
    candidate zone differs from the stored zone, and no event otherwise, in
    [updateUIIndicators] and in [updatePositionFromTime] alike; the event
    has the type [zoneChange], and its detail carries the candidate zone
    (the name of its palette) and the energy of the sample at the index.
    On the zone sequence 0,0,0,1,1,2,2,2 from the initial state both
    dispatch exactly two events: the first carries [medium] and the energy
    at index 3, the second [high] and the energy at index 5. *)
Theorem zone_transitions_only_on_change :
  (forall t energyData zoneData i w,
      (at_index energyData i = None ->
       Main.updateUIIndicators t energyData zoneData i w = Ret w)
      /\ (forall s, at_index energyData i = Some s ->
                    get "energy" s = None ->
                    Main.updateUIIndicators t energyData zoneData i w = Throw)
      /\ (forall s e,
             at_index energyData i = Some s ->
             get "energy" s = Some e ->
             exists z w',
               Main.zone_candidate zoneData i e = Ret z
               /\ Main.updateUIIndicators t energyData zoneData i w = Ret w'
               /\ (Config.currentZone (st w) = Some z -> w' = w)
               /\ (Config.currentZone (st w) <> Some z ->
                   exists ev,
                     dispatched w' = dispatched w ++ [(DOM.Document, ev)]
                     /\ DOM.ev_type ev = "zoneChange"%string
                     /\ DOM.ev_zone ev = Some z
                     /\ DOM.ev_energy ev = Some e
                     /\ Config.currentZone (st w') = Some z)))
  /\ (forall energyData zoneData i w,
         let w' := Audio.updatePositionFromIndex energyData zoneData i w in
         (i = Config.currentIndex (st w) -> w' = w)
         /\ (at_index energyData i = None -> dispatched w' = dispatched w)
         /\ (forall s,
                at_index energyData i = Some s ->
                let z := Audio.zone_candidate zoneData i (field "energy" s) in
                (Config.currentZone (st w) = z -> dispatched w' = dispatched w)
                /\ (Config.currentZone (st w) <> z ->
                    i <> Config.currentIndex (st w) ->
                    exists ev,
                      dispatched w' = dispatched w ++ [(DOM.Document, ev)]
                      /\ DOM.ev_type ev = "zoneChange"%string
                      /\ DOM.ev_zone ev = z
                      /\ DOM.ev_energy ev = get "energy" s
                      /\ Config.currentZone (st w') = z)))
  /\ (forall e0 e1 e2 e3 e4 e5 e6 e7 : Q,
         let energyData :=
           energies_from 0 [e0; e1; e2; e3; e4; e5; e6; e7] in
         let events :=
           [(DOM.Document,
             {| DOM.ev_type := "zoneChange";
                DOM.ev_zone := Some "medium"%string;
                DOM.ev_energy := Some (Some e3) |});
            (DOM.Document,
             {| DOM.ev_type := "zoneChange";
                DOM.ev_zone := Some "high"%string;
                DOM.ev_energy := Some (Some e5) |})] in
         (exists w',
             feed_indicators energyData monotonic_zones
                             [0; 1; 2; 3; 4; 5; 6; 7] Main.initial_world
             = Ret w'
             /\ dispatched w' = events)
         /\ dispatched
              (feed_positions energyData monotonic_zones
                              [0; 1; 2; 3; 4; 5; 6; 7] Main.initial_world)
            = events).
Proof.
split; [|split].
- intros t energyData zoneData i w. split; [|split].
  + intro Ha. unfold Main.updateUIIndicators. rewrite Ha. reflexivity.
  + intros s Ha Hf. unfold Main.updateUIIndicators. rewrite Ha, Hf.
    reflexivity.
  + intros s e Ha Hf.
    destruct (zone_candidate_total zoneData i e) as [z Hz].
    rewrite (updateUIIndicators_step t energyData zoneData i w s e z Ha Hf Hz).
    exists z. eexists. split; [exact Hz|]. split; [reflexivity|].
    destruct (opt_string_eqb (Some z) (Config.currentZone (st w))) eqn:E.
    * split; [reflexivity|]. intro Hne. apply opt_string_eqb_eq in E.
      congruence.
    * split.
      -- intro Heq. rewrite Heq in E.
         assert (opt_string_eqb (Some z) (Some z) = true)
           by (apply opt_string_eqb_eq; reflexivity).
         congruence.
      -- intros _. eexists. repeat split.
- intros energyData zoneData i w w'.
  subst w'. unfold Audio.updatePositionFromIndex.
  destruct (i =? Config.currentIndex (st w)) eqn:Ei; cbn [negb].
  + apply Z.eqb_eq in Ei. split; [reflexivity|]. split; [reflexivity|].
    intros s Ha. split; [reflexivity|]. intros _ Hne. contradiction.
  + apply Z.eqb_neq in Ei. split; [intro; contradiction|].
    split; [intro Ha; rewrite Ha; reflexivity|].
    intros s Ha. cbv zeta. rewrite Ha.
    change (Config.currentZone
              (st (with_state (Config.set_currentIndex i) w)))
      with (Config.currentZone (st w)).
    change (to_number (get "energy" s)) with (field "energy" s).
    destruct (opt_string_eqb
                (Audio.zone_candidate zoneData i (field "energy" s))
                (Config.currentZone (st w))) eqn:E; cbn [negb].
    * split; [reflexivity|]. intros Hne _. apply opt_string_eqb_eq in E.
      congruence.
    * split.
      -- intro Heq. rewrite Heq in E.
         assert (Hr : forall a, opt_string_eqb a a = true)
           by (intro a; apply opt_string_eqb_eq; reflexivity).
         rewrite Hr in E. discriminate.
      -- intros _ _. eexists. repeat split.
- intros e0 e1 e2 e3 e4 e5 e6 e7 energyData events. split.
  + eexists. split; reflexivity.
  + reflexivity.
Qed.

Lemma zone_transitions_only_on_change_witness :
  exists z w',
    Main.zone_candidate monotonic_zones 3 (Some (95#100)) = Ret z
    /\ Main.updateUIIndicators
         3 (energies_from 0 [1#10; 2#10; 9#10; 95#100])
         monotonic_zones 3 Main.initial_world
       = Ret w'
    /\ (Config.currentZone (st Main.initial_world) = Some z ->
        w' = Main.initial_world)
    /\ (Config.currentZone (st Main.initial_world) <> Some z ->
        exists ev,
          dispatched w'
          = dispatched Main.initial_world ++ [(DOM.Document, ev)]
          /\ DOM.ev_type ev = "zoneChange"%string
          /\ DOM.ev_zone ev = Some z
          /\ DOM.ev_energy ev = Some (Some (95#100))
          /\ Config.currentZone (st w') = Some z).
Proof.
apply (proj2 (proj2 (proj1 zone_transitions_only_on_change
                3%Q (energies_from 0 [1#10; 2#10; 9#10; 95#100])
                monotonic_zones 3 Main.initial_world))
             [("time"%string, Some 3%Q); ("energy"%string, Some (95#100))]
             (Some (95#100)) eq_refl eq_refl).
Defined.

(** ** Event types: [zoneChange] against [zonechange] *)







Lemma closest_loop_terminates (time : Q) (d : series) (fuel : nat) :
  forall left right,
    (Z.to_nat (right - left + 1) <= fuel)%nat ->
    Utils.closest_loop fuel time d left right <> OutOfFuel.
Proof.
induction fuel as [|fuel IH]; intros left right Hfuel;
  cbn [Utils.closest_loop].
- destruct (left <=? right) eqn:E; [apply Z.leb_le in E; lia|].
  unfold Utils.closest_of_bracket.
  repeat match goal with
         | |- context [if ?b then _ else _] => destruct b
         | |- context [match ?o with Some _ => _ | None => _ end] => destruct o
         end; discriminate.
- destruct (left <=? right) eqn:E.
  + apply Z.leb_le in E.
    assert (Hmid : left <= (left + right) / 2 <= right).
    { split; [apply Z.div_le_lower_bound; lia
             |apply Z.div_le_upper_bound; lia]. }
    destruct (at_index d ((left + right) / 2)) as [s|]; [|discriminate].
    destruct (lt_l _ _); [apply IH; lia|].
    destruct (gt_l _ _); [apply IH; lia|discriminate].
  + unfold Utils.closest_of_bracket.
    repeat match goal with
           | |- context [if ?b then _ else _] => destruct b
           | |- context [match ?o with Some _ => _ | None => _ end] => destruct o
           end; discriminate.
Qed.

(** [findClosestTimeIndex] returns or throws on every series: the fuel of
    its loop is never exhausted. *)
Lemma findClosestTimeIndex_terminates (time : Q) (d : series) :
  Utils.findClosestTimeIndex time d <> OutOfFuel.
Proof.
unfold Utils.findClosestTimeIndex. apply closest_loop_terminates.
unfold len. lia.
Qed.

Lemma updateUIIndicators_terminates (t : Q) (ed : series) (zd : zoneSeries)
      (i : Z) (w : world) :
  Main.updateUIIndicators t ed zd i w <> OutOfFuel.
Proof.
unfold Main.updateUIIndicators.
destruct (at_index ed i) as [s|]; [|discriminate].
destruct (get "energy" s) as [e|]; [|discriminate].
destruct (zone_candidate_total zd i e) as [z Hz]. rewrite Hz.
destruct (negb _); discriminate.
Qed.





(** ** The camera engine: parameters passed to the path *)

Lemma queried_tilt (M : Num.Numerics) (rate : Num.num) (np pp : Vec.vec3)
      (r : Camera.rig) :
  Camera.queried (Camera.tilt M rate np pp r) = Camera.queried r.
Proof. unfold Camera.tilt. destruct (gt_l _ _); reflexivity. Qed.

Lemma queried_shake (rate : Num.num) (r : Camera.rig) :
  Camera.queried (Camera.shake rate r) = Camera.queried r.
Proof. unfold Camera.shake. destruct (gt_l _ _); reflexivity. Qed.

Lemma queried_tilt_between (M : Num.Numerics) (rate : Num.num)
      (np pp : option Vec.vec3) (r : Camera.rig) :
  Camera.queried (Camera.tilt_between M rate np pp r) = Camera.queried r.
Proof.
unfold Camera.tilt_between.
destruct np; [destruct pp|]; try reflexivity. apply queried_tilt.
Qed.

Lemma queried_look_at (M : Num.Numerics) (p : option Vec.vec3)
      (r : Camera.rig) :
  Camera.queried (Camera.look_at M p r) = Camera.queried r.
Proof.
unfold Camera.look_at. destruct p; [|reflexivity].
destruct (negb _); [|reflexivity].
destruct (Num.lookRotation M _ _) as [[a b] c]. reflexivity.
Qed.

(** The parameters [place_camera] passes to the path, whatever the path
    returns: the safe position first. *)
Lemma place_camera_first_query (M : Num.Numerics) (path : Camera.curve)
      (rate safe : Num.num) (r : Camera.rig) :
  exists qs,
    Camera.queried (Camera.place_camera M path rate safe r)
    = Camera.queried r ++ safe :: qs.
Proof.
unfold Camera.place_camera.
destruct (Camera.getPointAt path safe) as [position|];
  [|exists []; reflexivity].
destruct (Camera.getTangentAt path safe) as [tangent|].
2:{ exists [safe]. cbn. rewrite <- app_assoc. reflexivity. }
eexists. cbv zeta. rewrite queried_shake, queried_tilt_between.
cbn [Camera.queried Camera.log_query]. rewrite queried_look_at.
cbn [Camera.queried Camera.log_query Camera.set_position].
rewrite <- !app_assoc. reflexivity.
Qed.




Lemma in_path_safePosition (p : Q) :
  in_path (Num.max_of 0 (Num.min_of (99#100) (Some p))).
Proof.
eexists. split; [reflexivity|]. split.
- apply Q.le_max_l.
- apply Q.max_lub; [lra|apply Q.le_min_l].
Qed.



(** Without an energy that is [NaN] the rate is a number. *)
Lemma energyChangeRate_number (p : Num.num) (d : series) :
  no_nan "energy" d = true ->
  exists rate, Camera.energyChangeRate p d = Some rate.
Proof.
intro Hne. unfold Camera.energyChangeRate.
destruct (Num.floor p) as [k|]; [|eexists; reflexivity].
cbv zeta.
destruct (has_number "energy" d (Z.min (len d - 1) (k + 1))) eqn:H1;
  cbn [andb]; [|eexists; reflexivity].
destruct (has_number "energy" d (Z.max 0 (k - 1))) eqn:H2;
  [|eexists; reflexivity].
destruct (has_number_field "energy" d _ Hne H1) as (s1 & q1 & A1 & F1).
destruct (has_number_field "energy" d _ Hne H2) as (s2 & q2 & A2 & F2).
unfold energy_at. rewrite A1, A2, F1, F2. eexists. reflexivity.
Qed.





Example camera_queries_scenario :
  option_map Camera.queried
    (match Camera.updateCameraPosition coarse (Some straight_track)
                                        (Some (5#2)) scenario
                                        Config.initial_state rig0 with
     | Ret r => Some r
     | _ => None
     end)
  = Some [Some (99#100); Some (99#100); Some (99#100); Some (99#100);
          Some (9800#10000)].
Proof. vm_compute. reflexivity. Qed.

(** C7 fails on the code.  On the series [nan_energy], whose second sample
    has an energy that is [NaN], the normalized position at playback time
    0.5 is [NaN]; the clamp [Math.max(0, Math.min(0.99, NaN))] keeps the
    [NaN], and [updateCameraPosition] passes it to [getPointAt], whatever
    the path; [toggleViewMode] passes [Math.min(NaN + 0.05, 0.99)], which
    is [NaN] as well. *)
Theorem camera_queries_reach_nan :
  has_number "energy" nan_energy 1 = true
  /\ energy_at nan_energy 1 = None
  /\ Utils.findNormalizedPositionFromTime (1#2) nan_energy = Ret None
  /\ ~ in_path None
  /\ (forall M path r,
         exists r' qs,
           Camera.updateCameraPosition M (Some path) (Some (1#2)) nan_energy
                                       Config.initial_state r = Ret r'
           /\ Camera.queried r' = Camera.queried r ++ None :: qs)
  /\ (forall path r,
         exists s' r',
           Camera.toggleViewMode (Some path) (Some (1#2)) (Some nan_energy)
                                 (Config.initial_state, r) = Ret (s', r')
           /\ Camera.queried r' = Camera.queried r ++ [None]).
Proof.
split; [reflexivity|]. split; [reflexivity|].
assert (Hn : Utils.findNormalizedPositionFromTime (1#2) nan_energy = Ret None)
  by (vm_compute; reflexivity).
split; [exact Hn|]. split; [intros (q & Hq & _); discriminate|]. split.
- intros M path r. unfold Camera.updateCameraPosition.
  change (negb (Config.firstPersonMode Config.initial_state)) with false.
  change (at_index nan_energy (Config.currentIndex Config.initial_state))
    with (at_index nan_energy 0).
  change (at_index nan_energy 0)
    with (Some [("time"%string, Some 0%Q); ("energy"%string, Some (1#10))]).
  cbv iota. rewrite Hn. cbv iota.
  destruct (place_camera_first_query
              M path (Camera.energyChangeRate None nan_energy)
              (Num.max_of 0 (Num.min_of (99#100) None)) r) as [qs Hq].
  eexists. exists qs. split; [reflexivity|exact Hq].
- intros path r. unfold Camera.toggleViewMode.
  change (negb (Config.firstPersonMode
                  (Config.set_firstPersonMode
                     (negb (Config.firstPersonMode Config.initial_state))
                     Config.initial_state))) with true.
  cbv iota. rewrite Hn. cbv iota zeta.
  destruct (Camera.getPointAt path _); eexists; eexists;
    (split; [reflexivity|reflexivity]).
Qed.

(** ** The camera engine: the rate of energy change *)

Lemma Qfloor_unit (p : Q) : (0 <= p <= 99#100)%Q -> Qfloor p = 0.
Proof.
intros [H0 H1].
assert (Hlo : 0 <= Qfloor p).
{ change 0 with (Qfloor 0). apply Qfloor_resp_le. assumption. }
assert (Hhi : Qfloor p < 1).
{ rewrite Zlt_Qlt. pose proof (Qfloor_le p). change (inject_Z 1) with 1%Q.
  lra. }
lia.
Qed.

(** The rate is the same at every position that is not [NaN]. *)
Lemma energyChangeRate_at_start (p : Q) (energyData : series) :
  (0 <= p <= 99#100)%Q ->
  Camera.energyChangeRate (Some p) energyData
  = Camera.energyChangeRate (Some 0%Q) energyData.
Proof.
intro Hp. unfold Camera.energyChangeRate.
cbn [Num.floor option_map]. rewrite (Qfloor_unit p Hp). reflexivity.
Qed.

(** Without an energy that is [NaN] it is the central difference at
    index 0. *)
Lemma energyChangeRate_central (energyData : series) :
  no_nan "energy" energyData = true ->
  Camera.energyChangeRate (Some 0%Q) energyData
  = Some (spec_central_difference energyData 0).
Proof.
intro Hne. unfold Camera.energyChangeRate, spec_central_difference.
cbn [Num.floor option_map]. change (Qfloor 0) with 0. cbv zeta.
destruct (has_number "energy" energyData (Z.min (len energyData - 1) (0 + 1)))
  eqn:H1; cbn [andb].
- destruct (has_number "energy" energyData (Z.max 0 (0 - 1))) eqn:H2.
  + destruct (has_number_field "energy" energyData _ Hne H1)
      as (s1 & q1 & A1 & F1).
    destruct (has_number_field "energy" energyData _ Hne H2)
      as (s2 & q2 & A2 & F2).
    unfold energy_at. rewrite A1, A2, F1, F2. reflexivity.
  + unfold has_number in H2. unfold energy_at.
    destruct (at_index energyData (Z.max 0 (0 - 1))) as [s2|].
    * unfold field. destruct (get "energy" s2); [discriminate|].
      destruct (match at_index energyData _ with
                | Some s => to_number (get "energy" s)
                | None => None
                end); reflexivity.
    * destruct (match at_index energyData _ with
                | Some s => field "energy" s
                | None => None
                end); reflexivity.
- unfold has_number in H1. unfold energy_at.
  destruct (at_index energyData (Z.min (len energyData - 1) (0 + 1)))
    as [s1|]; [|reflexivity].
  unfold field at 1. destruct (get "energy" s1); [discriminate|reflexivity].
Qed.

Lemma updateCameraPosition_single_rate (M : Num.Numerics)
      (path : Camera.curve) (time : Q) (energyData : series)
      (s : Config.state) (r : Camera.rig) :
  exists np,
    Utils.findNormalizedPositionFromTime time energyData = Ret np
    /\ Camera.updateCameraPosition M (Some path) (Some time) energyData s r
       = Ret (if negb (Config.firstPersonMode s) then r
              else match at_index energyData (Config.currentIndex s) with
                   | Some _ =>
                       Camera.place_camera
                         M path (Camera.energyChangeRate np energyData)
                         (Num.max_of 0 (Num.min_of (99#100) np)) r
                   | None => r
                   end).
Proof.
destruct (findNormalizedPositionFromTime_returns time energyData)
  as [np [Hp Hr]].
exists np. split; [assumption|].
unfold Camera.updateCameraPosition.
destruct (negb (Config.firstPersonMode s)); [reflexivity|].
destruct (at_index energyData (Config.currentIndex s)); [|reflexivity].
rewrite Hp. reflexivity.
Qed.

(** C8 fails on the code: one rate drives the height, the look-ahead, the
    tilt, the roll and the shake of a call, but it is the same for every
    playback time: the one computed at position 0 (0 when the position is
    [NaN]), which without an energy that is [NaN] is the central
    difference at index 0.  On the scenario series at time 2.5 it is 0.05
    while the central difference at the resolved index 3 is -0.35. *)
Theorem energyChangeRate_ignores_playback_time :
  (forall M path time energyData s r,
      exists np,
        Utils.findNormalizedPositionFromTime time energyData = Ret np
        /\ Camera.energyChangeRate np energyData
           = match np with
             | Some _ => Camera.energyChangeRate (Some 0%Q) energyData
             | None => Some 0%Q
             end
        /\ (no_nan "time" energyData = true ->
            no_nan "energy" energyData = true ->
            exists p,
              np = Some p
              /\ Camera.energyChangeRate np energyData
                 = Some (spec_central_difference energyData 0))
        /\ Camera.updateCameraPosition M (Some path) (Some time) energyData s r
           = Ret (if negb (Config.firstPersonMode s) then r
                  else match at_index energyData (Config.currentIndex s) with
                       | Some _ =>
                           Camera.place_camera
                             M path (Camera.energyChangeRate np energyData)
                             (Num.max_of 0 (Num.min_of (99#100) np)) r
                       | None => r
                       end))
  /\ (exists p rate,
         Utils.findNormalizedPositionFromTime (5#2) scenario = Ret (Some p)
         /\ Camera.energyChangeRate (Some p) scenario = Some rate
         /\ (rate == 5#100)%Q)
  /\ Utils.findClosestTimeIndex (5#2) scenario = Ret 3
  /\ (spec_central_difference scenario 3 == - (35#100))%Q.
Proof.
split; [|split; [|split]].
- intros M path time energyData s r.
  destruct (updateCameraPosition_single_rate M path time energyData s r)
    as [np [Hp Hu]].
  exists np. split; [assumption|].
  destruct (findNormalizedPositionFromTime_returns time energyData)
    as [np' [Hp' Hr]].
  assert (np' = np) by congruence. subst np'.
  split; [|split; [|assumption]].
  + destruct np as [p|]; [|reflexivity].
    apply energyChangeRate_at_start. apply Hr. reflexivity.
  + intros Hnt Hne.
    destruct (findNormalizedPositionFromTime_range time energyData Hnt Hne)
      as [p [Hq Hrange]].
    exists p. assert (np = Some p) by congruence. subst np.
    split; [reflexivity|].
    rewrite (energyChangeRate_at_start p energyData Hrange).
    apply energyChangeRate_central. assumption.
- eexists. eexists.
  split; [vm_compute; reflexivity|]. split; [vm_compute; reflexivity|].
  reflexivity.
- reflexivity.
- reflexivity.
Qed.

Lemma energyChangeRate_ignores_playback_time_witness :
  exists p,
    Some (99#100) = Some p
    /\ Camera.energyChangeRate (Some (99#100)) scenario
       = Some (spec_central_difference scenario 0).
Proof.
destruct (proj1 energyChangeRate_ignores_playback_time coarse straight_track
                (5#2) scenario Config.initial_state rig0)
  as (np & Hnp & _ & H & _).
assert (E : np = Some (99#100)).
{ assert (Hc : Utils.findNormalizedPositionFromTime (5#2) scenario
               = Ret (Some (99#100))) by (vm_compute; reflexivity).
  congruence. }
subst np. apply H; reflexivity.
Defined.

(** ** The camera engine: repeated calls *)

Lemma same_log_query (u : Num.num) (r1 r2 : Camera.rig) :
  same_camera r1 r2 ->
  same_camera (Camera.log_query u r1) (Camera.log_query u r2).
Proof. intros (P & R & D). repeat split; assumption. Qed.

Lemma same_set_position (p : Vec.vec3) (r1 r2 : Camera.rig) :
  same_camera r1 r2 ->
  same_camera (Camera.set_position p r1) (Camera.set_position p r2).
Proof. intros (P & R & D). repeat split; assumption. Qed.

Lemma same_look_at (M : Num.Numerics) (p : option Vec.vec3)
      (r1 r2 : Camera.rig) :
  same_camera r1 r2 ->
  same_camera (Camera.look_at M p r1) (Camera.look_at M p r2).
Proof.
intros (P & R & D). unfold Camera.look_at.
destruct p as [p|]; [|repeat split; assumption].
rewrite D, P. destruct (negb (Camera.mouseDrag r2));
  [|repeat split; assumption].
destruct (Num.lookRotation M _ _) as [[a b] c].
repeat split; assumption.
Qed.

Lemma same_tilt_between (M : Num.Numerics) (rate : Num.num)
      (np pp : option Vec.vec3) (r1 r2 : Camera.rig) :
  same_camera r1 r2 ->
  same_camera (Camera.tilt_between M rate np pp r1)
              (Camera.tilt_between M rate np pp r2).
Proof.
intros (P & R & D). unfold Camera.tilt_between.
destruct np as [np|]; [destruct pp as [pp|]|]; try (repeat split; assumption).
unfold Camera.tilt. destruct (gt_l _ _); [|repeat split; assumption].
rewrite R. repeat split; assumption.
Qed.

Lemma rotation_shake (rate : Num.num) (r : Camera.rig) :
  Camera.rotation (Camera.shake rate r) = Camera.rotation r.
Proof. unfold Camera.shake. destruct (gt_l _ _); reflexivity. Qed.

(** The test of the shake on a rate that may be [NaN]: it fails on [NaN]
    and on a magnitude of at most 0.05. *)
Lemma shake_test_calm (rate : Num.num) :
  (forall q, rate = Some q -> (Qabs q <= 5#100)%Q) ->
  gt_l (Num.abs rate) (5#100) = false.
Proof.
intro H. destruct rate as [q|]; [|reflexivity].
cbn [Num.abs Num.lift1 option_map gt_l]. apply Qltb_ge. apply H. reflexivity.
Qed.

Lemma position_shake_calm (rate : Num.num) (r : Camera.rig) :
  (forall q, rate = Some q -> (Qabs q <= 5#100)%Q) ->
  Camera.position (Camera.shake rate r) = Camera.position r.
Proof.
intro H. unfold Camera.shake. rewrite (shake_test_calm rate H). reflexivity.
Qed.

Lemma place_camera_same (M : Num.Numerics) (path : Camera.curve)
      (rate : Num.num) (safe : Num.num) (r1 r2 : Camera.rig) :
  same_camera r1 r2 ->
  Camera.rotation (Camera.place_camera M path rate safe r1)
  = Camera.rotation (Camera.place_camera M path rate safe r2)
  /\ ((forall q, rate = Some q -> (Qabs q <= 5#100)%Q) ->
      Camera.position (Camera.place_camera M path rate safe r1)
      = Camera.position (Camera.place_camera M path rate safe r2)).
Proof.
intro Hs. unfold Camera.place_camera. cbv zeta.
destruct (Camera.getPointAt path safe) as [position|].
2:{ destruct Hs as (P & R & D). split; [exact R|intros _; exact P]. }
destruct (Camera.getTangentAt path safe) as [tangent|].
2:{ destruct Hs as (P & R & D). split; [exact R|intros _; exact P]. }
match goal with
| |- Camera.rotation (Camera.shake ?rate ?a)
     = Camera.rotation (Camera.shake ?rate ?b) /\ _ =>
    assert (Hab : same_camera a b)
end.
{ apply same_tilt_between, same_log_query, same_log_query, same_look_at,
    same_log_query, same_set_position, same_log_query, same_log_query.
  exact Hs. }
destruct Hab as (P & R & D). split.
- rewrite !rotation_shake. exact R.
- intro Hc. rewrite !position_shake_calm by exact Hc. exact P.
Qed.

(** C9, as stated, fails: on a steep rise of the energy two calls in
    succession from the same camera state, at the same playback time, leave
    the camera at two different positions. *)
Lemma updateCameraPosition_shake_differs :
  exists r1 r2,
    Camera.updateCameraPosition coarse (Some straight_track) (Some (1#2))
                                steep Config.initial_state rig0 = Ret r1
    /\ Camera.updateCameraPosition
         coarse (Some straight_track) (Some (1#2)) steep Config.initial_state
         (Camera.with_random (Camera.random r1) (Camera.drawn r1) rig0)
       = Ret r2
    /\ exists x1 x2,
         Vec.x (Camera.position r1) = Some x1
         /\ Vec.x (Camera.position r2) = Some x2
         /\ ~ (x1 == x2)%Q.
Proof.
eexists. eexists. split; [vm_compute; reflexivity|].
split; [vm_compute; reflexivity|].
eexists. eexists. split; [vm_compute; reflexivity|].
split; [vm_compute; reflexivity|].
vm_compute. intro H. discriminate H.
Qed.

(** C9, amended. Two calls of [updateCameraPosition] with the same
    arguments and the same camera state, whatever the state of the random
    number generator at each, leave the camera with the same orientation;
    they leave it at the same position whenever the magnitude of the rate of
    energy change is at most 0.05, the threshold above which the position is
    shaken by [Math.random()]. *)
Theorem updateCameraPosition_repeatable
        (M : Num.Numerics) (path : option Camera.curve)
        (audioElement : option Q) (energyData : series) (s : Config.state)
        (r : Camera.rig) (g1 g2 : nat -> Q) (k1 k2 : nat) :
  exists r1 r2,
    Camera.updateCameraPosition M path audioElement energyData s
                                (Camera.with_random g1 k1 r) = Ret r1
    /\ Camera.updateCameraPosition M path audioElement energyData s
                                   (Camera.with_random g2 k2 r) = Ret r2
    /\ Camera.rotation r1 = Camera.rotation r2
    /\ ((forall rate,
            Camera.energyChangeRate (Some 0%Q) energyData = Some rate ->
            (Qabs rate <= 5#100)%Q) ->
        Camera.pose r1 = Camera.pose r2).
Proof.
assert (Hsame : same_camera (Camera.with_random g1 k1 r)
                            (Camera.with_random g2 k2 r))
  by (repeat split).
unfold Camera.updateCameraPosition.
destruct (negb (Config.firstPersonMode s)).
{ eexists. eexists. repeat split. }
destruct path as [path|], (at_index energyData (Config.currentIndex s)) as [smp|],
         audioElement as [exactTime|];
  try solve [eexists; eexists; repeat split].
destruct (findNormalizedPositionFromTime_returns exactTime energyData)
  as [np [Hp Hr]].
rewrite Hp.
destruct (place_camera_same M path (Camera.energyChangeRate np energyData)
            (Num.max_of 0 (Num.min_of (99#100) np))
            _ _ Hsame) as [HR HP].
eexists. eexists. split; [reflexivity|]. split; [reflexivity|].
split; [exact HR|]. intro Hc. unfold Camera.pose.
rewrite HR, HP; [reflexivity|].
destruct np as [p|].
- rewrite (energyChangeRate_at_start p energyData (Hr p eq_refl)).
  exact Hc.
- intros q Hq. cbn in Hq. inversion Hq. discriminate.
Qed.

Lemma updateCameraPosition_repeatable_witness :
  exists r1 r2,
    Camera.updateCameraPosition coarse (Some straight_track) (Some (5#2))
      scenario Config.initial_state
      (Camera.with_random (fun _ => 0%Q) 0 rig0) = Ret r1
    /\ Camera.updateCameraPosition coarse (Some straight_track) (Some (5#2))
         scenario Config.initial_state
         (Camera.with_random (fun _ => 1#2) 7 rig0) = Ret r2
    /\ Camera.rotation r1 = Camera.rotation r2
    /\ Camera.pose r1 = Camera.pose r2.
Proof.
destruct (updateCameraPosition_repeatable
            coarse (Some straight_track) (Some (5#2)) scenario
            Config.initial_state rig0 (fun _ => 0%Q) (fun _ => 1#2) 0 7)
  as (r1 & r2 & H1 & H2 & HR & HP).
exists r1, r2. repeat split; try assumption.
apply HP. intros rate Hrate. vm_compute in Hrate.
injection Hrate as <-. vm_compute. discriminate.
Defined.

(** ** The path generator: the fallback spiral *)

Lemma fallbackSpiral_length (M : Num.Numerics) :
  List.length (Rollercoaster.fallbackSpiral M) = 36%nat.
Proof. reflexivity. Qed.

Lemma circlePoints_length (M : Num.Numerics) :
  List.length (Rollercoaster.circlePoints M) = 100%nat.
Proof. reflexivity. Qed.

Lemma every_fifth_In (x : Z) (count : nat) :
  forall i, In x (every_fifth i count)
            <-> exists k, 0 <= k < Z.of_nat count /\ x = i + 5 * k.
Proof.
induction count as [|c IH]; intro i; cbn [every_fifth In].
- split; [contradiction|]. intros (k & Hk & _). lia.
- rewrite IH. split.
  + intros [H|(k & Hk & Hx)].
    * exists 0. split; lia.
    * exists (k + 1). split; lia.
  + intros (k & Hk & Hx).
    destruct (Z.eq_dec k 0) as [->|Hne]; [left; lia|].
    right. exists (k - 1). split; lia.
Qed.

(** The sampled indices are the multiples of 5 below the length. *)
Lemma sampled_indices_spec (d : series) (x : Z) :
  In x (sampled_indices d) <-> 0 <= x < len d /\ x mod 5 = 0.
Proof.
unfold sampled_indices. rewrite every_fifth_In.
pose proof (len_nonneg d) as Hn.
assert (Hc : 0 <= (len d + 4) / 5) by (apply Z.div_pos; lia).
rewrite Z2Nat.id by exact Hc.
pose proof (Z.div_mod (len d + 4) 5 ltac:(lia)) as Hdm.
pose proof (Z.mod_pos_bound (len d + 4) 5 ltac:(lia)) as Hmb.
split.
- intros (k & Hk & ->). split; [lia|].
  replace (0 + 5 * k) with (k * 5) by lia. apply Z.mod_mul. lia.
- intros [Hx Hm]. exists (x / 5).
  pose proof (Z.div_mod x 5 ltac:(lia)) as Hxd. rewrite Hm in Hxd.
  split; [|lia].
  split; [apply Z.div_pos; lia|lia].
Qed.

(** Without [NaN] in the field read, the loop derives a point exactly from
    the samples that are valid. *)
Lemma controlPoint_valid (M : Num.Numerics) (f : string) (d sd : series)
      (i : Z) :
  no_nan f d = true ->
  (exists pt, Rollercoaster.controlPoint M f d sd i = Some pt)
  <-> valid_energy f d i = true.
Proof.
intro Hn. unfold Rollercoaster.controlPoint, valid_energy.
destruct (has_number f d i) eqn:H; cbn [negb].
- destruct (has_number_field f d i Hn H) as (s & q & Ha & Hf).
  rewrite Ha, Hf. split; [reflexivity|]. intros _. eexists. reflexivity.
- split; [intros [pt Hpt]; discriminate|].
  unfold has_number in H.
  destruct (at_index d i) as [s|]; [|discriminate].
  unfold field. destruct (get f s); [discriminate|]. discriminate.
Qed.

Lemma derivedPoints_valid_count (M : Num.Numerics) (f : string)
      (d sd : series) (count : nat) :
  no_nan f d = true ->
  forall i,
    List.length (Rollercoaster.derivedPoints M f d sd i count)
    = List.length (filter (valid_energy f d) (every_fifth i count)).
Proof.
intro Hn. induction count as [|c IH]; intro i; [reflexivity|].
cbn [Rollercoaster.derivedPoints every_fifth filter].
pose proof (controlPoint_valid M f d sd i Hn) as Hv.
destruct (Rollercoaster.controlPoint M f d sd i) as [pt|].
- rewrite (proj1 Hv (ex_intro _ pt eq_refl)). cbn [List.length].
  rewrite IH. reflexivity.
- destruct (valid_energy f d i).
  + destruct (proj2 Hv eq_refl) as [pt Hpt]. discriminate.
  + apply IH.
Qed.

Lemma derived_valid_count (M : Num.Numerics) (d sd : series) :
  no_nan (Rollercoaster.energyField d) d = true ->
  List.length (Rollercoaster.derived M d sd)
  = derivable_points (Rollercoaster.energyField d) d.
Proof.
intro Hn. unfold Rollercoaster.derived, derivable_points, sampled_indices.
apply derivedPoints_valid_count. exact Hn.
Qed.

(** C6, as stated, fails: from the empty series no control point can be
    derived, and [createRollercoaster] returns [null] instead of a curve. *)
Lemma createRollercoaster_empty_is_null :
  (List.length (Rollercoaster.derived coarse [] []) < 4)%nat
  /\ Rollercoaster.createRollercoaster coarse true [] [] = Ret None.
Proof. split; [simpl; lia|reflexivity]. Qed.

(** C6, amended. For every non-empty energy series that holds no [NaN] in
    the field the generator reads, and in which fewer than 4 of the
    sampled entries (every fifth) hold a number in that field,
    [createRollercoaster] does not throw and returns a path of at least 36
    control points: the points derived from the valid samples, as many as
    there are, followed by the 36 points of the fixed spiral, or the 100
    points of the fixed circle when building the tube mesh fails.  For the
    empty series it returns [null]. *)
Theorem createRollercoaster_fallback
        (M : Num.Numerics) (geometryOk : bool)
        (energyData structureData : series) :
  (energyData <> [] ->
   no_nan (Rollercoaster.energyField energyData) energyData = true ->
   (derivable_points (Rollercoaster.energyField energyData) energyData
    < 4)%nat ->
   exists res,
     Rollercoaster.createRollercoaster M geometryOk energyData structureData
     = Ret (Some res)
     /\ (36 <= List.length (Rollercoaster.pathPoints res))%nat
     /\ (geometryOk = true ->
         Rollercoaster.pathPoints res
         = Rollercoaster.derived M energyData structureData
           ++ Rollercoaster.fallbackSpiral M
         /\ List.length (Rollercoaster.derived M energyData structureData)
            = derivable_points (Rollercoaster.energyField energyData)
                               energyData)
     /\ (geometryOk = false ->
         Rollercoaster.pathPoints res = Rollercoaster.circlePoints M))
  /\ (energyData = [] ->
      Rollercoaster.createRollercoaster M geometryOk energyData structureData
      = Ret None).
Proof.
split.
- intros Hne Hnn Hfew.
  pose proof (derived_valid_count M energyData structureData Hnn) as Hlen.
  unfold Rollercoaster.createRollercoaster.
  destruct energyData as [|e ed]; [congruence|].
  set (data := e :: ed) in *.
  assert (Hcp : Rollercoaster.controlPoints M data structureData
                = Rollercoaster.derived M data structureData
                  ++ Rollercoaster.fallbackSpiral M).
  { unfold Rollercoaster.controlPoints.
    destruct (Z.of_nat _ <? 4) eqn:E; [reflexivity|].
    apply Z.ltb_ge in E. lia. }
  destruct geometryOk; eexists; (split; [reflexivity|]);
    cbn [Rollercoaster.pathPoints].
  + split; [|split; [intros _; split; [exact Hcp|exact Hlen]|discriminate]].
    rewrite Hcp, length_app, fallbackSpiral_length. lia.
  + split; [|split; [discriminate|reflexivity]].
    rewrite circlePoints_length. lia.
- intro He. subst energyData. reflexivity.
Qed.

Lemma createRollercoaster_fallback_witness :
  exists res,
    Rollercoaster.createRollercoaster coarse true steep steep = Ret (Some res)
    /\ (36 <= List.length (Rollercoaster.pathPoints res))%nat
    /\ (true = true ->
        Rollercoaster.pathPoints res
        = Rollercoaster.derived coarse steep steep
          ++ Rollercoaster.fallbackSpiral coarse
        /\ List.length (Rollercoaster.derived coarse steep steep)
           = derivable_points (Rollercoaster.energyField steep) steep)
    /\ (true = false ->
        Rollercoaster.pathPoints res = Rollercoaster.circlePoints coarse).
Proof.
apply (proj1 (createRollercoaster_fallback coarse true steep steep)).
- discriminate.
- reflexivity.
- vm_compute. lia.
Defined.

(** * Further properties of the code *)

(** ** [findClosestTimeIndex]: bounds and exceptions *)

Lemma closest_of_bracket_bounds (time : Q) (d : series) (left right r : Z) :
  0 <= left -> right <= len d - 1 ->
  Utils.closest_of_bracket time d left right = Ret r ->
  0 <= r <= Z.max 0 (len d - 1).
Proof.
intros Hl Hr. unfold Utils.closest_of_bracket.
destruct (right <? 0) eqn:E1; [intro H; inversion H; lia|].
apply Z.ltb_ge in E1.
destruct (left >=? len d) eqn:E2; [intro H; inversion H; lia|].
assert (Hlt : left < len d)
  by (destruct (Z.geb_spec left (len d)); [discriminate|lia]).
destruct (at_index d right); [|discriminate].
destruct (at_index d left); [|discriminate].
destruct (lt_nan _ _); intro H; inversion H; lia.
Qed.

Lemma closest_loop_bounds (time : Q) (d : series) (fuel : nat) :
  forall left right r,
    0 <= left -> right <= len d - 1 ->
    Utils.closest_loop fuel time d left right = Ret r ->
    0 <= r <= Z.max 0 (len d - 1).
Proof.
induction fuel as [|fuel IH]; intros left right r Hl Hr;
  cbn [Utils.closest_loop].
- destruct (left <=? right); [discriminate|].
  apply closest_of_bracket_bounds; assumption.
- destruct (left <=? right) eqn:E;
    [|apply closest_of_bracket_bounds; assumption].
  apply Z.leb_le in E.
  assert (Hmid : left <= (left + right) / 2 <= right).
  { split; [apply Z.div_le_lower_bound; lia|apply Z.div_le_upper_bound; lia]. }
  destruct (at_index d ((left + right) / 2)) as [s|]; [|discriminate].
  destruct (lt_l _ _); [apply IH; lia|].
  destruct (gt_l _ _); [apply IH; lia|].
  intro H; inversion H; lia.
Qed.

Lemma no_holes_at_index (d : series) (i : Z) :
  no_holes d = true -> 0 <= i < len d -> exists s, at_index d i = Some s.
Proof.
intros Hn Hi. unfold at_index.
destruct (i <? 0) eqn:E; [apply Z.ltb_lt in E; lia|].
destruct (nth_error d (Z.to_nat i)) as [e|] eqn:N.
- unfold no_holes in Hn. rewrite forallb_forall in Hn.
  specialize (Hn e (nth_error_In _ _ N)).
  destruct e as [s|]; [exists s; reflexivity|discriminate].
- apply nth_error_None in N. unfold len in Hi. lia.
Qed.

Lemma closest_loop_no_throw (time : Q) (d : series) (fuel : nat) :
  no_holes d = true ->
  forall left right,
    0 <= left -> right <= len d - 1 ->
    Utils.closest_loop fuel time d left right <> Throw.
Proof.
intro Hn.
assert (Htail : forall left right,
           0 <= left -> right <= len d - 1 ->
           Utils.closest_of_bracket time d left right <> Throw).
{ intros left right Hl Hr. unfold Utils.closest_of_bracket.
  destruct (right <? 0) eqn:E1; [discriminate|]. apply Z.ltb_ge in E1.
  destruct (left >=? len d) eqn:E2; [discriminate|].
  assert (left < len d)
    by (destruct (Z.geb_spec left (len d)); [discriminate|lia]).
  destruct (no_holes_at_index d right Hn) as [sr Hsr]; [lia|].
  destruct (no_holes_at_index d left Hn) as [sl Hsl]; [lia|].
  rewrite Hsr, Hsl. discriminate. }
induction fuel as [|fuel IH]; intros left right Hl Hr;
  cbn [Utils.closest_loop].
- destruct (left <=? right); [discriminate|apply Htail; assumption].
- destruct (left <=? right) eqn:E; [|apply Htail; assumption].
  apply Z.leb_le in E.
  assert (Hmid : left <= (left + right) / 2 <= right).
  { split; [apply Z.div_le_lower_bound; lia|apply Z.div_le_upper_bound; lia]. }
  destruct (no_holes_at_index d ((left + right) / 2) Hn) as [s Hs]; [lia|].
  rewrite Hs.
  destruct (lt_l _ _); [apply IH; lia|].
  destruct (gt_l _ _); [apply IH; lia|discriminate].
Qed.

(** X1. Whatever the times of the samples, an index [findClosestTimeIndex]
    returns lies within the array (it is 0 on the empty array), and on an
    array without missing entries it does return one. *)
Theorem findClosestTimeIndex_within_array (time : Q) (energyData : series) :
  (forall r, Utils.findClosestTimeIndex time energyData = Ret r ->
             0 <= r <= Z.max 0 (len energyData - 1))
  /\ (no_holes energyData = true ->
      exists r, Utils.findClosestTimeIndex time energyData = Ret r).
Proof.
split.
- intros r. unfold Utils.findClosestTimeIndex.
  apply closest_loop_bounds; lia.
- intro Hn.
  pose proof (findClosestTimeIndex_terminates time energyData) as Ht.
  pose proof (closest_loop_no_throw time energyData
                (S (List.length energyData)) Hn 0 (len energyData - 1)
                ltac:(lia) ltac:(lia)) as Hx.
  unfold Utils.findClosestTimeIndex in *.
  destruct (Utils.closest_loop _ _ _ _ _) as [r| |];
    [exists r; reflexivity|contradiction|contradiction].
Qed.

Lemma findClosestTimeIndex_within_array_witness :
  exists r, Utils.findClosestTimeIndex (1#2) gap_series = Ret r.
Proof.
apply (proj2 (findClosestTimeIndex_within_array (1#2) gap_series)).
reflexivity.
Defined.

(** ** Round trips of the two resolvers *)

Lemma spacedQ_nth (delta : Q) (l : list Q) :
  (0 <= delta)%Q -> spacedQ delta l = true ->
  forall i j, (i < j < List.length l)%nat ->
              (nth i l 0 + delta <= nth j l 0)%Q.
Proof.
intro Hd. induction l as [|a l IH]; intros Hs i j Hij; [simpl in Hij; lia|].
destruct l as [|b l']; [simpl in Hij; lia|].
cbn [spacedQ] in Hs. apply andb_true_iff in Hs. destruct Hs as [Hab Hs].
apply Qle_bool_iff in Hab.
destruct i as [|i].
- destruct j as [|j]; [lia|].
  change (nth (S j) (a :: b :: l') 0%Q) with (nth j (b :: l') 0%Q).
  change (nth 0 (a :: b :: l') 0%Q) with a.
  destruct j as [|j]; [exact Hab|].
  assert (nth 0 (b :: l') 0 + delta <= nth (S j) (b :: l') 0)%Q
    by (apply IH; [assumption|simpl in *; lia]).
  change (nth 0 (b :: l') 0%Q) with b in *. lra.
- destruct j as [|j]; [lia|].
  change (nth (S i) (a :: b :: l') 0%Q) with (nth i (b :: l') 0%Q).
  change (nth (S j) (a :: b :: l') 0%Q) with (nth j (b :: l') 0%Q).
  apply IH; [assumption|simpl in *; lia].
Qed.

Lemma increasingQ_nth (l : list Q) :
  increasingQ l = true ->
  forall i j, (i < j < List.length l)%nat -> (nth i l 0 < nth j l 0)%Q.
Proof.
induction l as [|a l IH]; intros Hs i j Hij; [simpl in Hij; lia|].
destruct l as [|b l']; [simpl in Hij; lia|].
cbn [increasingQ] in Hs. apply andb_true_iff in Hs. destruct Hs as [Hab Hs].
apply Qltb_lt in Hab.
destruct i as [|i].
- destruct j as [|j]; [lia|].
  change (nth (S j) (a :: b :: l') 0%Q) with (nth j (b :: l') 0%Q).
  change (nth 0 (a :: b :: l') 0%Q) with a.
  destruct j as [|j]; [exact Hab|].
  assert (nth 0 (b :: l') 0 < nth (S j) (b :: l') 0)%Q
    by (apply IH; [assumption|simpl in *; lia]).
  change (nth 0 (b :: l') 0%Q) with b in *. lra.
- destruct j as [|j]; [lia|].
  change (nth (S i) (a :: b :: l') 0%Q) with (nth i (b :: l') 0%Q).
  change (nth (S j) (a :: b :: l') 0%Q) with (nth j (b :: l') 0%Q).
  apply IH; [assumption|simpl in *; lia].
Qed.

(** The times of a series, with the gap between any two of them. *)
Lemma all_times_timed (d : series) (ts : list Q) (gap : Q -> Q -> Prop) :
  all_times d = Some ts ->
  (forall i j, (i < j < List.length ts)%nat -> gap (nth i ts 0%Q) (nth j ts 0%Q)) ->
  (forall a b, gap a b -> (a <= b)%Q) ->
  exists tm,
    timed d tm
    /\ forall i j, 0 <= i -> i < j -> j < len d -> gap (tm i) (tm j).
Proof.
intros E Hgap Hle.
pose proof (all_times_length d ts E) as Hlen.
exists (fun i => nth (Z.to_nat i) ts 0%Q). split; [split|].
- intros i Hi. unfold len in Hi.
  destruct (all_times_nth d ts (Z.to_nat i) E) as [s [Hn Hf]]; [lia|].
  exists s. split; [|assumption].
  unfold at_index. destruct (i <? 0) eqn:Ei; [apply Z.ltb_lt in Ei; lia|].
  rewrite Hn. reflexivity.
- intros i j Hi Hij Hj. unfold len in Hj.
  destruct (Z.eq_dec i j) as [-> | Hne]; [lra|].
  apply Hle, Hgap. lia.
- intros i j Hi Hij Hj. unfold len in Hj. apply Hgap. lia.
Qed.

Lemma strictly_ascending_timed (d : series) :
  strictly_ascendingb d = true ->
  exists tm,
    timed d tm
    /\ forall i j, 0 <= i -> i < j -> j < len d -> (tm i < tm j)%Q.
Proof.
unfold strictly_ascendingb.
destruct (all_times d) as [ts|] eqn:E; [|discriminate]. intro Hs.
apply (all_times_timed d ts Qlt E).
- apply increasingQ_nth. assumption.
- intros a b. apply Qlt_le_weak.
Qed.

Lemma spaced_timed (delta : Q) (d : series) :
  (0 <= delta)%Q -> spacedb delta d = true ->
  exists tm,
    timed d tm
    /\ forall i j, 0 <= i -> i < j -> j < len d -> (tm i + delta <= tm j)%Q.
Proof.
intro Hd. unfold spacedb.
destruct (all_times d) as [ts|] eqn:E; [|discriminate]. intro Hs.
apply (all_times_timed d ts (fun a b => a + delta <= b)%Q E).
- apply spacedQ_nth; assumption.
- intros a b H. lra.
Qed.

(** X2. On a series with strictly ascending times, looking up the time of
    a sample gives back the index of that sample. *)
Theorem findClosestTimeIndex_of_sample_time (energyData : series) (i : Z)
        (t : Q) :
  strictly_ascendingb energyData = true ->
  time_at energyData i = Some t ->
  Utils.findClosestTimeIndex t energyData = Ret i.
Proof.
intros Hs Ht.
destruct (strictly_ascending_timed energyData Hs) as [tm [Htm Hlt]].
pose proof (time_at_range _ _ _ Ht) as Hi.
rewrite (timed_time_at _ tm i Htm Hi) in Ht. inversion Ht; subst t.
destruct (findClosestTimeIndex_nearest energyData tm (tm i) Htm)
  as [r [Hr [Hrange Hmin]]]; [lia|].
rewrite Hr. f_equal.
specialize (Hmin i Hi).
assert (H0 : (Qabs (tm i - tm i) == 0)%Q).
{ assert (Hz : (tm i - tm i == 0)%Q) by lra. rewrite Hz. reflexivity. }
rewrite H0 in Hmin. apply Qabs_Qle_condition in Hmin.
destruct (Z.lt_trichotomy r i) as [Hlt'|[Heq|Hgt]]; [|assumption|].
- specialize (Hlt r i ltac:(lia) Hlt' ltac:(lia)). lra.
- specialize (Hlt i r ltac:(lia) ltac:(lia) ltac:(lia)). lra.
Qed.

Lemma findClosestTimeIndex_of_sample_time_witness :
  Utils.findClosestTimeIndex 3 scenario = Ret 3.
Proof.
apply (findClosestTimeIndex_of_sample_time scenario 3 3%Q);
  reflexivity.
Defined.

Lemma Qabs_self_diff (a : Q) : Qltb (Qabs (a - a)) (1#1000) = true.
Proof.
apply Qltb_lt. assert (Hz : (a - a == 0)%Q) by lra. rewrite Hz. reflexivity.
Qed.

(** X3. On a series whose times are each at least 0.001 after the one
    before, the fractional index of the time of a sample is the index of
    that sample. *)
Theorem findExactIndexFromTime_of_sample_time (energyData : series) (i : Z)
        (t : Q) :
  spacedb (1#1000) energyData = true ->
  time_at energyData i = Some t ->
  Utils.findExactIndexFromTime t energyData = Ret (Some (inject_Z i)).
Proof.
intros Hs Ht.
destruct (spaced_timed (1#1000) energyData ltac:(lra) Hs) as [tm [Htm Hgap]].
pose proof (time_at_range _ _ _ Ht) as Hi.
rewrite (timed_time_at _ tm i Htm Hi) in Ht. inversion Ht; subst t.
rewrite (findExactIndexFromTime_timed energyData tm (tm i) Htm) by lia.
destruct (exact_loop_bracket energyData tm (tm i) Htm
            (fun l r => (l = 0 \/ (tm l < tm i)%Q)
                        /\ (r = len energyData - 1 \/ (tm i <= tm r)%Q))
            ltac:(intros l r [Hl Hr] _; split; intro Hc; split; auto)
            (List.length energyData) 0 (len energyData - 1)
            ltac:(lia) ltac:(lia)
            ltac:(split; left; reflexivity)
            ltac:(unfold len; lia))
  as (l & r & [HPl HPr] & Hl & Hr & Hw & Hsmall & Hw' & Hlr & Heq).
specialize (Hlr ltac:(lia)).
rewrite Heq.
rewrite (exact_of_bracket_timed energyData tm (tm i) Htm) by lia.
assert (Hil : i = l \/ i = r).
{ destruct (Z_lt_le_dec i l) as [Hlt|Hge].
  - exfalso. pose proof (Hgap i l ltac:(lia) Hlt ltac:(lia)).
    destruct HPl as [-> | HP]; [lia|lra].
  - destruct (Z.eq_dec i l) as [|Hne]; [left; assumption|].
    destruct (Z_le_gt_dec i r) as [Hle|Hgt]; [right; lia|].
    exfalso. pose proof (Hgap r i ltac:(lia) ltac:(lia) ltac:(lia)).
    destruct HPr as [-> | HP]; [lia|lra]. }
destruct Hil as [-> | ->].
- rewrite Qabs_self_diff. reflexivity.
- destruct (Z.eq_dec l r) as [-> | Hne]; [rewrite Qabs_self_diff; reflexivity|].
  pose proof (Hgap l r ltac:(lia) ltac:(lia) ltac:(lia)) as Hg.
  assert (Hfar : Qltb (Qabs (tm l - tm r)) (1#1000) = false).
  { apply Qltb_ge. rewrite Qabs_diff_below by lra. lra. }
  rewrite Hfar, Qabs_self_diff. reflexivity.
Qed.

Lemma findExactIndexFromTime_of_sample_time_witness :
  Utils.findExactIndexFromTime 3 scenario = Ret (Some (inject_Z 3)).
Proof.
apply (findExactIndexFromTime_of_sample_time scenario 3 3%Q); reflexivity.
Defined.

(** ** The two resolvers agree *)

(** X5. On a series with strictly ascending times and a query time within
    the sampled range, the fractional index lies between two adjacent
    indices whose times enclose the query time, and the closest discrete
    index is one of these two. *)
Theorem resolvers_agree_within_one (time : Q) (energyData : series)
        (t0 tl : Q) :
  strictly_ascendingb energyData = true ->
  2 <= len energyData ->
  time_at energyData 0 = Some t0 ->
  time_at energyData (len energyData - 1) = Some tl ->
  (t0 <= time <= tl)%Q ->
  exists l a b q r,
    time_at energyData l = Some a
    /\ time_at energyData (l + 1) = Some b
    /\ (a <= time <= b)%Q
    /\ Utils.findExactIndexFromTime time energyData = Ret (Some q)
    /\ (inject_Z l <= q <= inject_Z (l + 1))%Q
    /\ Utils.findClosestTimeIndex time energyData = Ret r
    /\ (r = l \/ r = l + 1).
Proof.
intros Hs Hn H0 Hl Ht.
destruct (strictly_ascending_timed energyData Hs) as [tm [Htm Hlt]].
rewrite (timed_time_at _ tm 0 Htm) in H0 by lia.
rewrite (timed_time_at _ tm _ Htm) in Hl by lia.
inversion H0; subst t0. inversion Hl; subst tl.
destruct (exact_loop_bracket energyData tm time Htm
            (fun l r => (tm l <= time <= tm r)%Q)
            ltac:(intros l r H _; cbv beta in *; split; intro; lra)
            (List.length energyData) 0 (len energyData - 1)
            ltac:(lia) ltac:(lia) Ht ltac:(unfold len; lia))
  as (l & r & HP & Hl0 & Hr & Hw & _ & Hw' & _ & Heq).
assert (r = l + 1) by lia. subst r.
destruct (exact_of_bracket_within energyData tm time Htm l)
  as [q [Hq Hqr]]; try lia; [assumption|].
destruct (findClosestTimeIndex_nearest energyData tm time Htm)
  as [r [Hr' [Hrange Hmin]]]; [lia|].
exists l, (tm l), (tm (l + 1)), q, r.
split; [apply (timed_time_at _ tm); [assumption|lia]|].
split; [apply (timed_time_at _ tm); [assumption|lia]|].
split; [assumption|].
split.
{ rewrite (findExactIndexFromTime_timed energyData tm time Htm) by lia.
  rewrite Heq, Hq. reflexivity. }
split; [assumption|]. split; [assumption|].
destruct (Z_lt_le_dec r l) as [Hlow|Hge].
- exfalso. pose proof (Hlt r l ltac:(lia) Hlow ltac:(lia)) as Hs1.
  specialize (Hmin l ltac:(lia)).
  rewrite !Qabs_diff_below in Hmin by lra. lra.
- destruct (Z_le_gt_dec r (l + 1)) as [Hle|Hgt]; [lia|].
  exfalso. pose proof (Hlt (l + 1) r ltac:(lia) ltac:(lia) ltac:(lia)) as Hs1.
  specialize (Hmin (l + 1) ltac:(lia)).
  rewrite !Qabs_diff_above in Hmin by lra. lra.
Qed.

Lemma resolvers_agree_within_one_witness :
  exists l a b q r,
    time_at scenario l = Some a
    /\ time_at scenario (l + 1) = Some b
    /\ (a <= 5#2 <= b)%Q
    /\ Utils.findExactIndexFromTime (5#2) scenario = Ret (Some q)
    /\ (inject_Z l <= q <= inject_Z (l + 1))%Q
    /\ Utils.findClosestTimeIndex (5#2) scenario = Ret r
    /\ (r = l \/ r = l + 1).
Proof.
apply (resolvers_agree_within_one (5#2) scenario 0 4);
  try reflexivity.
- unfold len. simpl. lia.
- split; discriminate.
Defined.

(** ** Both position functions return numbers on every series *)





(** ** Zone names *)

Lemma palette_at_wrapped (z : Z) :
  0 <= z -> exists p, Config.palette_at (z mod Config.zoneCount) = Some p.
Proof.
intro Hz. change Config.zoneCount with 5.
pose proof (Z.mod_pos_bound z 5 eq_refl) as Hb.
assert (Hk : z mod 5 = 0 \/ z mod 5 = 1 \/ z mod 5 = 2 \/ z mod 5 = 3
             \/ z mod 5 = 4) by lia.
destruct Hk as [H|[H|[H|[H|H]]]]; rewrite H; eexists; reflexivity.
Qed.

Lemma palette_at_small (z : Z) (p : Config.palette) :
  Config.palette_at z = Some p -> 0 <= z < Config.zoneCount.
Proof.
unfold Config.palette_at. destruct (z <? 0) eqn:E; [discriminate|].
apply Z.ltb_ge in E. intro H.
assert (Z.to_nat z < List.length Config.zonePalettes)%nat
  by (apply nth_error_Some; congruence).
unfold Config.zoneCount. lia.
Qed.

(** X7. A zone value is mapped to the palette at its remainder modulo the
    number of palettes, a negative one to palette 0; the name and the
    display name given for a value are those of the same palette, which is
    always one of the configured ones. *)
Theorem zone_value_wraps (zoneValue : Z) :
  exists p,
    Config.palette_at (if zoneValue <? 0 then 0
                       else zoneValue mod Config.zoneCount) = Some p
    /\ Config.getZoneNameFromValue zoneValue = Ret (Config.name p)
    /\ Zones.getZoneDisplayName zoneValue = Ret (Config.displayName p)
    /\ In (Config.name p) Zones.getAllZoneNames.
Proof.
assert (Hin : forall k p, Config.palette_at k = Some p ->
                          In (Config.name p) Zones.getAllZoneNames).
{ intros k p H. unfold Zones.getAllZoneNames. apply in_map.
  unfold Config.palette_at in H. destruct (k <? 0); [discriminate|].
  eapply nth_error_In; eassumption. }
unfold Config.getZoneNameFromValue, Zones.getZoneDisplayName.
destruct (zoneValue <? 0) eqn:E.
- eexists. split; [reflexivity|]. split; [reflexivity|].
  split; [reflexivity|]. apply (Hin 0). reflexivity.
- apply Z.ltb_ge in E.
  destruct (Config.palette_at zoneValue) as [p|] eqn:Hp.
  + pose proof (palette_at_small zoneValue p Hp) as Hs.
    rewrite Z.mod_small by assumption.
    exists p. rewrite Hp. repeat split. apply (Hin zoneValue). assumption.
  + rewrite Z.rem_mod_nonneg by (try assumption; reflexivity).
    destruct (palette_at_wrapped zoneValue E) as [p Hw].
    exists p. rewrite Hw. repeat split.
    apply (Hin (zoneValue mod Config.zoneCount)). assumption.
Qed.

Lemma getZoneNameFromValue_palette (zoneValue : Z) :
  exists p, In p Config.zonePalettes
            /\ Config.getZoneNameFromValue zoneValue = Ret (Config.name p).
Proof.
assert (Hin : forall k p, Config.palette_at k = Some p ->
                          In p Config.zonePalettes).
{ intros k p H. unfold Config.palette_at in H.
  destruct (k <? 0); [discriminate|]. eapply nth_error_In; eassumption. }
unfold Config.getZoneNameFromValue.
destruct (zoneValue <? 0) eqn:E.
- eexists. split; [apply (Hin 0); reflexivity|reflexivity].
- apply Z.ltb_ge in E.
  destruct (Config.palette_at zoneValue) as [p|] eqn:Hp.
  + exists p. split; [apply (Hin zoneValue); assumption|reflexivity].
  + rewrite Z.rem_mod_nonneg by (try assumption; reflexivity).
    destruct (palette_at_wrapped zoneValue E) as [p Hw].
    exists p. rewrite Hw.
    split; [apply (Hin (zoneValue mod Config.zoneCount)); assumption
           |reflexivity].
Qed.

Lemma palette_has_colors (p : Config.palette) :
  In p Config.zonePalettes ->
  Zones.zone_colors (Some (Config.name p)) = Some p.
Proof.
intro H. cbn in H.
repeat (destruct H as [H|H]; [subst p; reflexivity|]). contradiction.
Qed.

Lemma zone_candidate_has_colors (zd : zoneSeries) (i : Z) (e : number)
      (z : string) :
  Main.zone_candidate zd i e = Ret z ->
  Zones.zone_colors (Some z) <> None.
Proof.
unfold Main.zone_candidate, Main.energy_zone_of, Main.energy_zone.
intro H.
assert (Hp : exists p, In p Config.zonePalettes /\ z = Config.name p).
{ destruct (zone_at_index zd i) as [zs|]; [destruct (zone zs) as [v|]|];
    try destruct e as [q|];
    try change (Config.getZoneNameFromNumber None)
      with (Config.getZoneNameFromValue 0) in H;
    match type of H with
    | Config.getZoneNameFromValue ?v = _ =>
        destruct (getZoneNameFromValue_palette v) as [p [Hin Hp]];
        exists p; split; [assumption|congruence]
    end. }
destruct Hp as [p [Hin ->]]. rewrite (palette_has_colors p Hin). discriminate.
Qed.

(** X8. A rendered frame never leaves a zone without colours: if
    [colors[state.currentZone + 'Zone']] exists before
    the indicators are refreshed it exists after, and it exists after
    whenever the resolved sample has an energy, be it [NaN], whatever zone
    was stored before. *)
Theorem animate_keeps_zone_colors (t : Q) (energyData : series)
        (zoneData : zoneSeries) (w : world) :
  (Zones.zone_colors (Config.currentZone (st w)) <> None ->
   Zones.zone_colors
     (Config.currentZone
        (st (Main.animate_indicators t energyData zoneData w))) <> None)
  /\ (forall i,
         Utils.findClosestTimeIndex t energyData = Ret i ->
         has_number "energy" energyData i = true ->
         Zones.zone_colors
           (Config.currentZone
              (st (Main.animate_indicators t energyData zoneData w)))
         <> None).
Proof.
assert (Hstep : forall i w0 w1,
           Main.updateUIIndicators t energyData zoneData i w0 = Ret w1 ->
           (Zones.zone_colors (Config.currentZone (st w0)) <> None
            \/ has_number "energy" energyData i = true) ->
           Zones.zone_colors (Config.currentZone (st w1)) <> None).
{ intros i w0 w1. unfold Main.updateUIIndicators, has_number.
  destruct (at_index energyData i) as [s|].
  2:{ intros H [Hc|He]; [inversion H; subst; exact Hc|discriminate]. }
  destruct (get "energy" s) as [e|]; [|discriminate].
  destruct (Main.zone_candidate zoneData i e) as [z| |] eqn:Hz;
    try discriminate.
  destruct (opt_string_eqb (Some z) (Config.currentZone (st w0))) eqn:E;
    cbn [negb]; intros H _; inversion H; subst w1.
  - apply opt_string_eqb_eq in E. rewrite <- E.
    eapply zone_candidate_has_colors; eassumption.
  - cbn. eapply zone_candidate_has_colors; eassumption. }
unfold Main.animate_indicators. split.
- intro Hc.
  destruct (Utils.findClosestTimeIndex t energyData) as [i| |];
    try exact Hc.
  destruct (Main.updateUIIndicators t energyData zoneData i _) as [w2| |]
    eqn:U; try exact Hc.
  apply (Hstep _ _ _ U). left. exact Hc.
- intros i Hi He. rewrite Hi.
  destruct (Main.updateUIIndicators t energyData zoneData i _) as [w2| |]
    eqn:U.
  + apply (Hstep _ _ _ U). right. exact He.
  + exfalso. revert U. unfold Main.updateUIIndicators.
    unfold has_number in He.
    destruct (at_index energyData i) as [s|]; [|discriminate].
    destruct (get "energy" s) as [e|]; [|discriminate].
    destruct (zone_candidate_total zoneData i e) as [z Hz]. rewrite Hz.
    destruct (negb _); discriminate.
  + exfalso. exact (updateUIIndicators_terminates _ _ _ _ _ U).
Qed.

Lemma animate_keeps_zone_colors_witness :
  Zones.zone_colors
    (Config.currentZone
       (st (Main.animate_indicators 5 ride_energy monotonic_zones
                                    Main.initial_world))) <> None.
Proof.
apply (proj2 (animate_keeps_zone_colors 5 ride_energy monotonic_zones
                                        Main.initial_world)
             5); reflexivity.
Defined.

(** X9. The [timeupdate] handler knows three zones only: on a new index
    whose zone value is not 0, 1 or 2 it stores [undefined] as the current
    zone and dispatches a [zoneChange] event with an undefined zone, for
    which [colors] has no entry. *)
Theorem timeupdate_zone_beyond_three (energyData : series)
        (zoneData : zoneSeries) (i : Z) (w : world) (s : sample)
        (zs : zoneSample) :
  at_index energyData i = Some s ->
  zone_at_index zoneData i = Some zs ->
  zone zs <> Some 0 -> zone zs <> Some 1 -> zone zs <> Some 2 ->
  i <> Config.currentIndex (st w) ->
  Config.currentZone (st w) <> None ->
  let w' := Audio.updatePositionFromIndex energyData zoneData i w in
  Config.currentZone (st w') = None
  /\ dispatched w'
     = dispatched w
       ++ [(DOM.Document, Main.zoneChange None (get "energy" s))]
  /\ Zones.zone_colors (Config.currentZone (st w')) = None.
Proof.
intros Ha Hz H0 H1 H2 Hi Hc w'. subst w'.
unfold Audio.updatePositionFromIndex.
apply Z.eqb_neq in Hi. rewrite Hi. cbn [negb]. rewrite Ha.
unfold Audio.zone_candidate. rewrite Hz.
assert (Hv : Audio.zone_of_value (zone zs) = None).
{ unfold Audio.zone_of_value. destruct (zone zs) as [v|]; [|reflexivity].
  destruct v as [|v|v]; [congruence| |reflexivity].
  destruct v as [v|v|]; try destruct v; try reflexivity; congruence. }
rewrite Hv.
change (Config.currentZone (st (with_state (Config.set_currentIndex i) w)))
  with (Config.currentZone (st w)).
destruct (Config.currentZone (st w)) as [z|] eqn:Ez; [|congruence].
cbn [opt_string_eqb negb]. split; [reflexivity|].
split; [reflexivity|reflexivity].
Qed.

Lemma timeupdate_zone_beyond_three_witness :
  Config.currentZone
    (st (Audio.updatePositionFromIndex
           ride_energy (zones_from 0 [0; 3; 4]) 1 Main.initial_world))
  = None
  /\ dispatched (Audio.updatePositionFromIndex
                   ride_energy (zones_from 0 [0; 3; 4]) 1 Main.initial_world)
     = dispatched Main.initial_world
       ++ [(DOM.Document,
            Main.zoneChange None
              (get "energy" [("time"%string, Some 1%Q);
                             ("energy"%string, Some (2#10))]))]
  /\ Zones.zone_colors
       (Config.currentZone
          (st (Audio.updatePositionFromIndex
                 ride_energy (zones_from 0 [0; 3; 4]) 1 Main.initial_world)))
     = None.
Proof.
apply (timeupdate_zone_beyond_three
         ride_energy (zones_from 0 [0; 3; 4]) 1 Main.initial_world
         [("time"%string, Some 1%Q); ("energy"%string, Some (2#10))]
         {| z_time := Some 1%Q; zone := Some 3 |});
  try reflexivity; discriminate.
Defined.

(** ** The energy bands *)

Lemma Qfloor_unique (x : Q) (k : Z) :
  (inject_Z k <= x)%Q -> (x < inject_Z (k + 1))%Q -> Qfloor x = k.
Proof.
intros Hlo Hhi.
pose proof (Qfloor_le x) as H1. pose proof (Qlt_floor x) as H2.
assert (Qfloor x < k + 1) by (rewrite Zlt_Qlt; lra).
assert (k < Qfloor x + 1) by (rewrite Zlt_Qlt; lra).
lia.
Qed.

Lemma main_energy_zone_index (e : Q) :
  Main.energy_zone e
  = Config.getZoneNameFromValue (Z.min (Qfloor (e * 5)) (Config.zoneCount - 1)).
Proof. reflexivity. Qed.

Lemma main_energy_zone_band (e : Q) (k : Z) :
  0 <= k <= 4 ->
  (inject_Z k <= e * 5)%Q ->
  (k < 4 -> (e * 5 < inject_Z (k + 1))%Q) ->
  Main.energy_zone e = Config.getZoneNameFromValue k.
Proof.
intros Hk Hlo5 Hhi. rewrite main_energy_zone_index.
change (Config.zoneCount - 1) with 4. f_equal.
destruct (Z.eq_dec k 4) as [-> | Hne].
- assert (4 <= Qfloor (e * 5)).
  { change 4 with (Qfloor (inject_Z 4)) at 1. apply Qfloor_resp_le.
    assumption. }
  lia.
- rewrite (Qfloor_unique (e * 5) k Hlo5 (Hhi ltac:(lia))). lia.
Qed.

(** X10. Without zone data [updateUIIndicators] divides the energy into
    five bands of width 0.2: an energy [e] with [k <= 5 e < k + 1] gives the
    name of palette [k] for [k] from 0 to 3, every energy from 0.8 up gives
    palette 4, and a negative energy gives palette 0. *)
Theorem energy_bands (e : Q) (i : Z) :
  (forall k p,
      0 <= k <= 4 ->
      Config.palette_at k = Some p ->
      (inject_Z k <= e * 5)%Q ->
      (k < 4 -> (e * 5 < inject_Z (k + 1))%Q) ->
      Main.zone_candidate [] i (Some e) = Ret (Config.name p))
  /\ ((e < 0)%Q -> Main.zone_candidate [] i (Some e) = Ret "low"%string).
Proof.
assert (Hc : Main.zone_candidate [] i (Some e) = Main.energy_zone e).
{ unfold Main.zone_candidate, zone_at_index.
  destruct (i <? 0); [reflexivity|]. destruct (Z.to_nat i); reflexivity. }
rewrite Hc. split.
- intros k p Hk Hp Hlo Hhi.
  rewrite (main_energy_zone_band e k Hk Hlo Hhi).
  unfold Config.getZoneNameFromValue.
  destruct (k <? 0) eqn:E; [apply Z.ltb_lt in E; lia|].
  rewrite Hp. reflexivity.
- intro Hneg. rewrite main_energy_zone_index.
  assert (Qfloor (e * 5) < 0).
  { rewrite Zlt_Qlt. pose proof (Qfloor_le (e * 5)).
    change (inject_Z 0) with 0%Q. lra. }
  unfold Config.getZoneNameFromValue.
  destruct (Z.min (Qfloor (e * 5)) (Config.zoneCount - 1) <? 0) eqn:E;
    [reflexivity|].
  apply Z.ltb_ge in E. change (Config.zoneCount - 1) with 4 in E. lia.
Qed.

Lemma energy_bands_witness :
  Main.zone_candidate [] 0 (Some (1#2)) = Ret "high"%string.
Proof.
apply (proj1 (energy_bands (1#2) 0) 2
             {| Config.name := "high"; Config.displayName := "High Energy" |});
  try reflexivity.
- lia.
- discriminate.
Defined.

Lemma audio_energy_zone_cases (e : Q) :
  ((e < 33#100)%Q -> Audio.energy_zone (Some e) = "low"%string)
  /\ ((33#100 <= e <= 66#100)%Q -> Audio.energy_zone (Some e) = "medium"%string)
  /\ ((66#100 < e)%Q -> Audio.energy_zone (Some e) = "high"%string).
Proof.
unfold Audio.energy_zone. cbn [lt_nan].
split; [|split].
- intro H. apply Qltb_lt in H. rewrite H. reflexivity.
- intros [H1 H2].
  assert (Hl : Qltb e (33#100) = false) by (apply Qltb_ge; assumption).
  rewrite Hl. apply Qle_bool_iff in H1, H2. rewrite H1, H2. reflexivity.
- intro H.
  assert (Hl : Qltb e (33#100) = false) by (apply Qltb_ge; lra).
  rewrite Hl.
  assert (Hh : Qle_bool e (66#100) = false).
  { destruct (Qle_bool e (66#100)) eqn:E; [|reflexivity].
    apply Qle_bool_iff in E. lra. }
  rewrite Hh, andb_false_r. reflexivity.
Qed.

(** X11. Without zone data the two state machines read different zones
    from the same energy: the five bands of [updateUIIndicators] and the
    three of [updatePositionFromTime] name the same zone exactly when the
    energy is below 0.2 or within [0.33, 0.4). *)
Theorem energy_fallbacks_agree (e : Q) :
  (0 <= e)%Q ->
  (Main.energy_zone e = Ret (Audio.energy_zone (Some e))
   <-> ((e < 2#10)%Q \/ (33#100 <= e < 4#10)%Q)).
Proof.
intro H0.
destruct (audio_energy_zone_cases e) as (Alow & Amed & Ahigh).
assert (B : forall k, 0 <= k <= 4 -> (inject_Z k <= e * 5)%Q ->
                      (k < 4 -> (e * 5 < inject_Z (k + 1))%Q) ->
                      Main.energy_zone e = Config.getZoneNameFromValue k)
  by (intros; apply main_energy_zone_band; assumption).
destruct (Qlt_le_dec e (2#10)) as [L1|G1].
{ rewrite (B 0), Alow; [|lra|lia|cbv [inject_Z Z.add Pos.add Pos.succ]; lra|intros _; cbv [inject_Z Z.add Pos.add Pos.succ]; lra].
  split; [intros _; left; assumption|reflexivity]. }
destruct (Qlt_le_dec e (33#100)) as [L2|G2].
{ rewrite (B 1), Alow; [|lra|lia|cbv [inject_Z Z.add Pos.add Pos.succ]; lra|intros _; cbv [inject_Z Z.add Pos.add Pos.succ]; lra].
  split; [discriminate|intros [H|H]; lra]. }
destruct (Qlt_le_dec e (4#10)) as [L3|G3].
{ rewrite (B 1), Amed; [|lra|lia|cbv [inject_Z Z.add Pos.add Pos.succ]; lra|intros _; cbv [inject_Z Z.add Pos.add Pos.succ]; lra].
  split; [intros _; right; lra|reflexivity]. }
destruct (Qlt_le_dec e (6#10)) as [L4|G4].
{ rewrite (B 2), Amed; [|lra|lia|cbv [inject_Z Z.add Pos.add Pos.succ]; lra|intros _; cbv [inject_Z Z.add Pos.add Pos.succ]; lra].
  split; [discriminate|intros [H|H]; lra]. }
destruct (Qlt_le_dec (66#100) e) as [L5|G5].
- destruct (Qlt_le_dec e (8#10)) as [L6|G6].
  + rewrite (B 3), Ahigh; [|lra|lia|cbv [inject_Z Z.add Pos.add Pos.succ]; lra|intros _; cbv [inject_Z Z.add Pos.add Pos.succ]; lra].
    split; [discriminate|intros [H|H]; lra].
  + rewrite (B 4), Ahigh; [|lra|lia|cbv [inject_Z Z.add Pos.add Pos.succ]; lra|intro; lia].
    split; [discriminate|intros [H|H]; lra].
- rewrite (B 3), Amed; [|lra|lia|cbv [inject_Z Z.add Pos.add Pos.succ]; lra|intros _; cbv [inject_Z Z.add Pos.add Pos.succ]; lra].
  split; [discriminate|intros [H|H]; lra].
Qed.

Lemma energy_fallbacks_agree_witness :
  Main.energy_zone (1#2) = Ret (Audio.energy_zone (Some (1#2)))
  <-> (((1#2) < 2#10)%Q \/ (33#100 <= (1#2) < 4#10)%Q).
Proof.
apply (energy_fallbacks_agree (1#2)). discriminate.
Defined.

(** ** Skipping through the song *)

Lemma updatePositionFromIndex_index (ed : series) (zd : zoneSeries) (i : Z)
      (w : world) :
  Config.currentIndex (st (Audio.updatePositionFromIndex ed zd i w)) = i.
Proof.
unfold Audio.updatePositionFromIndex.
destruct (i =? Config.currentIndex (st w)) eqn:E; cbn [negb].
- apply Z.eqb_eq in E. congruence.
- destruct (at_index ed i); [|reflexivity].
  destruct (negb _); reflexivity.
Qed.

(** X12. From a playback time within the song, [skipForward] moves forward
    by at most 10 seconds and never past the duration, [skipBackward] moves
    back by at most 10 seconds and never before 0, and the one undoes the
    other wherever neither bound is reached. *)
Theorem skips_stay_within_song (el : Player.audioElement)
        (energyData : series) (zoneData : zoneSeries) (w : world) :
  (0 <= Player.currentTime el <= Player.duration el)%Q ->
  exists f b,
    fst (Player.skipForward (Some el) energyData zoneData w) = Some f
    /\ fst (Player.skipBackward (Some el) energyData zoneData w) = Some b
    /\ (Player.currentTime el <= Player.currentTime f <= Player.duration el)%Q
    /\ (Player.currentTime f <= Player.currentTime el + 10)%Q
    /\ (0 <= Player.currentTime b <= Player.currentTime el)%Q
    /\ (Player.currentTime el - 10 <= Player.currentTime b)%Q
    /\ ((Player.currentTime el + 10 <= Player.duration el)%Q ->
        forall w', exists g,
          fst (Player.skipBackward (Some f) energyData zoneData w') = Some g
          /\ (Player.currentTime g == Player.currentTime el)%Q)
    /\ ((10 <= Player.currentTime el)%Q ->
        forall w', exists g,
          fst (Player.skipForward (Some b) energyData zoneData w') = Some g
          /\ (Player.currentTime g == Player.currentTime el)%Q).
Proof.
intros [H0 Hd].
eexists. eexists. split; [reflexivity|]. split; [reflexivity|].
cbn [Player.currentTime Player.duration].
set (t := Player.currentTime el) in *. set (dur := Player.duration el) in *.
pose proof (Q.le_min_l (t + 10) dur) as M1.
pose proof (Q.le_min_r (t + 10) dur) as M2.
pose proof (Q.le_max_l (t - 10) 0) as X1.
pose proof (Q.le_max_r (t - 10) 0) as X2.
assert (M3 : (t <= Qmin (t + 10) dur)%Q) by (apply Q.min_glb; lra).
assert (X3 : (Qmax (t - 10) 0 <= t)%Q) by (apply Q.max_lub; lra).
repeat split; try assumption.
- intros Hroom w'. eexists. split; [reflexivity|].
  cbn [Player.currentTime].
  rewrite (Q.min_l (t + 10) dur) by assumption.
  rewrite Q.max_l by lra. lra.
- intros Hroom w'. eexists. split; [reflexivity|].
  cbn [Player.currentTime Player.duration].
  rewrite (Q.max_l (t - 10) 0) by lra.
  rewrite Q.min_l by lra. lra.
Qed.

Lemma skips_stay_within_song_witness :
  exists f b,
    fst (Player.skipForward
           (Some {| Player.currentTime := 3; Player.duration := 8 |})
           ride_energy monotonic_zones Main.initial_world) = Some f
    /\ fst (Player.skipBackward
              (Some {| Player.currentTime := 3; Player.duration := 8 |})
              ride_energy monotonic_zones Main.initial_world) = Some b
    /\ (3 <= Player.currentTime f <= 8)%Q
    /\ (Player.currentTime f <= 3 + 10)%Q
    /\ (0 <= Player.currentTime b <= 3)%Q
    /\ (3 - 10 <= Player.currentTime b)%Q.
Proof.
destruct (skips_stay_within_song
            {| Player.currentTime := 3; Player.duration := 8 |}
            ride_energy monotonic_zones Main.initial_world)
  as (f & b & Hf & Hb & H1 & H2 & H3 & H4 & _).
- split; discriminate.
- exists f, b. repeat split; try assumption; apply H1 || apply H3.
Defined.

(** X13. A skip made while playback is paused resolves the index again:
    [state.currentIndex] becomes the index [findClosestTimeIndex] gives for
    the new playback time; while playing, the skip leaves the state as it
    is. *)
Theorem skip_while_paused_resolves_index (el : Player.audioElement)
        (energyData : series) (zoneData : zoneSeries) (w : world) :
  (Config.isPlaying (st w) = false ->
   (forall i,
       Utils.findClosestTimeIndex
         (Qmin (Player.currentTime el + 10) (Player.duration el)) energyData
       = Ret i ->
       Config.currentIndex
         (st (snd (Player.skipForward (Some el) energyData zoneData w))) = i)
   /\ (forall i,
          Utils.findClosestTimeIndex
            (Qmax (Player.currentTime el - 10) 0) energyData = Ret i ->
          Config.currentIndex
            (st (snd (Player.skipBackward (Some el) energyData zoneData w)))
          = i))
  /\ (Config.isPlaying (st w) = true ->
      snd (Player.skipForward (Some el) energyData zoneData w) = w
      /\ snd (Player.skipBackward (Some el) energyData zoneData w) = w).
Proof.
split.
- intro Hp. unfold Player.skipForward, Player.skipBackward.
  cbn [snd Player.currentTime]. rewrite Hp. cbn [negb].
  unfold Audio.updatePositionFromTime.
  split; intros i Hi; rewrite Hi; apply updatePositionFromIndex_index.
- intro Hp. unfold Player.skipForward, Player.skipBackward.
  cbn [snd]. rewrite Hp. split; reflexivity.
Qed.

Lemma skip_while_paused_resolves_index_witness :
  Config.currentIndex
    (st (snd (Player.skipForward
                (Some {| Player.currentTime := 3; Player.duration := 8 |})
                ride_energy monotonic_zones Main.initial_world))) = 7.
Proof.
apply (proj1 (proj1 (skip_while_paused_resolves_index
                       {| Player.currentTime := 3; Player.duration := 8 |}
                       ride_energy monotonic_zones Main.initial_world)
                    eq_refl)).
vm_compute. reflexivity.
Defined.

(** ** The spectrum bands *)

Lemma fold_sum_shift (l : list Byte.byte) (a : Z) :
  fold_left (fun a b => a + Player.byte_value b) l a = a + Player.sum l.
Proof.
unfold Player.sum. revert a. induction l as [|b l IH]; intro a; simpl.
- lia.
- rewrite IH. rewrite (IH (Player.byte_value b)). lia.
Qed.

Lemma sum_bounds (l : list Byte.byte) :
  0 <= Player.sum l <= 255 * Z.of_nat (List.length l).
Proof.
induction l as [|b l IH].
- unfold Player.sum. simpl. lia.
- unfold Player.sum. cbn [fold_left]. rewrite fold_sum_shift.
  assert (0 <= Player.byte_value b <= 255).
  { unfold Player.byte_value. pose proof (Byte.to_N_bounded b). lia. }
  cbn [List.length]. lia.
Qed.

Lemma slice_length (from to : nat) (l : list Byte.byte) :
  (List.length (Player.slice from to l) <= to - from)%nat.
Proof. unfold Player.slice. rewrite length_firstn. lia. Qed.

Lemma slice_sum_bounds (from to : nat) (l : list Byte.byte) :
  0 <= Player.sum (Player.slice from to l) <= 255 * Z.of_nat (to - from).
Proof.
pose proof (sum_bounds (Player.slice from to l)).
pose proof (slice_length from to l). lia.
Qed.

Lemma ratio_bounds (s k : Z) (c : Q) :
  0 <= s <= k -> (0 < c)%Q -> (0 <= inject_Z s / c <= inject_Z k / c)%Q.
Proof.
intros [H0 H1] Hc.
assert (0 <= inject_Z s)%Q by (change 0%Q with (inject_Z 0); rewrite <- Zle_Qle; lia).
assert (inject_Z s <= inject_Z k)%Q by (rewrite <- Zle_Qle; lia).
split.
- apply Qle_shift_div_l; lra.
- apply Qle_shift_div_l; [assumption|].
  unfold Qdiv. rewrite <- Qmult_assoc, (Qmult_comm (/ c)), Qmult_inv_r by lra.
  lra.
Qed.

Lemma audio_levels_bounded_parts (dataArray : list Byte.byte) :
  (0 <= Player.bass (Player.getAudioData dataArray) <= 9#10)%Q
  /\ (0 <= Player.mid (Player.getAudioData dataArray) <= 1)%Q
  /\ ((100 < List.length dataArray)%nat ->
      exists t, Player.treble (Player.getAudioData dataArray) = Some t
                /\ (0 <= t <= 1)%Q).
Proof.
unfold Player.getAudioData.
cbn [Player.bass Player.mid Player.treble].
split; [|split].
- pose proof (slice_sum_bounds 1 10 dataArray) as Hs.
  destruct (ratio_bounds (Player.sum (Player.slice 1 10 dataArray))
                         (255 * Z.of_nat (10 - 1)) (10 * 255)) as [Hlo Hhi];
    [exact Hs|reflexivity|].
  split; [exact Hlo|]. eapply Qle_trans; [exact Hhi|]. discriminate.
- pose proof (slice_sum_bounds 10 100 dataArray) as Hs.
  destruct (ratio_bounds (Player.sum (Player.slice 10 100 dataArray))
                         (255 * Z.of_nat (100 - 10)) (90 * 255)) as [Hlo Hhi];
    [exact Hs|reflexivity|].
  split; [exact Hlo|]. eapply Qle_trans; [exact Hhi|]. discriminate.
- intro Hlen.
  destruct (Nat.eqb (List.length dataArray) 100) eqn:E;
    [apply Nat.eqb_eq in E; lia|].
  eexists. split; [reflexivity|].
  set (L := List.length dataArray) in *.
  pose proof (slice_sum_bounds 100 L dataArray) as Hs.
  assert (Hpos : (0 < inject_Z (Z.of_nat L - 100) * 255)%Q).
  { assert (0 < inject_Z (Z.of_nat L - 100))%Q
      by (change 0%Q with (inject_Z 0); rewrite <- Zlt_Qlt; lia).
    lra. }
  destruct (ratio_bounds (Player.sum (Player.slice 100 L dataArray))
                         (255 * Z.of_nat (L - 100))
                         (inject_Z (Z.of_nat L - 100) * 255)) as [Hlo Hhi];
    [exact Hs|exact Hpos|].
  split; [exact Hlo|]. eapply Qle_trans; [exact Hhi|].
  apply Qle_shift_div_r; [exact Hpos|].
  replace (Z.of_nat (L - 100)) with (Z.of_nat L - 100) by lia.
  rewrite inject_Z_mult. change (inject_Z 255) with 255%Q. lra.
Qed.

(** X14. Whatever the spectrum, the bass level [getAudioData] gives lies
    within [0, 0.9] (nine bins divided by ten), the mid level within [0, 1]
    and, on more than 100 bins, the treble level within [0, 1]; on exactly
    100 bins the treble is not a number. *)
Theorem audio_levels_bounded (dataArray : list Byte.byte) :
  (0 <= Player.bass (Player.getAudioData dataArray) <= 9#10)%Q
  /\ (0 <= Player.mid (Player.getAudioData dataArray) <= 1)%Q
  /\ ((100 < List.length dataArray)%nat ->
      exists t, Player.treble (Player.getAudioData dataArray) = Some t
                /\ (0 <= t <= 1)%Q)
  /\ (List.length dataArray = 100%nat ->
      Player.treble (Player.getAudioData dataArray) = None).
Proof.
destruct (audio_levels_bounded_parts dataArray) as (Hb & Hm & Ht).
split; [exact Hb|]. split; [exact Hm|]. split; [exact Ht|].
intro Hlen. unfold Player.getAudioData. cbn [Player.treble].
rewrite Hlen. reflexivity.
Qed.

Lemma audio_levels_bounded_witness :
  exists t,
    Player.treble (Player.getAudioData (repeat Byte.xff 128)) = Some t
    /\ (0 <= t <= 1)%Q.
Proof.
apply (proj1 (proj2 (proj2 (audio_levels_bounded (repeat Byte.xff 128))))).
simpl. lia.
Defined.

(** ** The bloom and the background stay in range *)

Lemma lerp_between (x y lo hi : Q) :
  (lo <= x <= hi)%Q -> (lo <= y <= hi)%Q ->
  (lo <= Effects.lerp x y (1#10) <= hi)%Q.
Proof. unfold Effects.lerp. intros [? ?] [? ?]. split; lra. Qed.

(** X15. The bloom pass starts within strength [0.3, 2.75], radius
    [0.4, 0.97] and threshold [0.2075, 0.85], and [updateBloomEffect] keeps
    it there on the levels [getAudioData] gives for any spectrum of more
    than 100 bins. *)
Theorem bloom_stays_in_range :
  bloom_within Effects.initial_bloom
  /\ (forall dataArray t pass,
         Player.treble (Player.getAudioData dataArray) = Some t ->
         (100 < List.length dataArray)%nat ->
         bloom_within pass ->
         exists pass',
           Effects.updateBloomEffect
             (Player.bass (Player.getAudioData dataArray))
             (Player.mid (Player.getAudioData dataArray))
             t (Some pass) = Some pass'
           /\ bloom_within pass').
Proof.
split.
- unfold bloom_within, Effects.initial_bloom. cbn. repeat split; discriminate.
- intros dataArray t pass Ht Hlen (Hs & Hr & Hth).
  destruct (audio_levels_bounded_parts dataArray) as (Hb & Hm & Htr).
  destruct (Htr Hlen) as [t' [Ht' Hrange]].
  assert (t' = t) by congruence. subst t'.
  eexists. split; [reflexivity|].
  unfold bloom_within. cbn [Effects.strength Effects.radius Effects.threshold].
  set (bass := Player.bass (Player.getAudioData dataArray)) in *.
  set (mid := Player.mid (Player.getAudioData dataArray)) in *.
  split; [|split]; apply lerp_between; try assumption;
    unfold Qdiv; change (/ 2)%Q with (1#2); split; lra.
Qed.

Lemma bloom_stays_in_range_witness :
  exists pass',
    Effects.updateBloomEffect
      (Player.bass (Player.getAudioData (repeat Byte.xff 128)))
      (Player.mid (Player.getAudioData (repeat Byte.xff 128)))
      (7140#7140) (Some Effects.initial_bloom) = Some pass'
    /\ bloom_within pass'.
Proof.
apply (proj2 bloom_stays_in_range (repeat Byte.xff 128) (7140#7140)
             Effects.initial_bloom).
- vm_compute. reflexivity.
- simpl. lia.
- exact (proj1 bloom_stays_in_range).
Defined.

(** X16. The smoothing of the background keeps the three intensities
    between 0 and the bound of its inputs; and whenever the stored bass is
    0 or not yet stored, the mid and treble start again from 0, whatever
    was stored for them. *)
Theorem background_smoothing (bound bassIn midIn trebleIn : Q)
        (u : Effects.backgroundUniforms) :
  (0 <= bassIn <= bound)%Q -> (0 <= midIn <= bound)%Q ->
  (0 <= trebleIn <= bound)%Q ->
  (smoothed_within bound u ->
   smoothed_within bound
     (Effects.updateBackgroundUniforms bassIn midIn trebleIn u))
  /\ (Effects.falsy (Effects.lastBass u) = true ->
      (Effects.midIntensity
         (Effects.updateBackgroundUniforms bassIn midIn trebleIn u)
       == midIn * (5#100))%Q
      /\ (Effects.trebleIntensity
            (Effects.updateBackgroundUniforms bassIn midIn trebleIn u)
          == trebleIn * (5#100))%Q).
Proof.
intros Hb Hm Ht. unfold Effects.updateBackgroundUniforms. split.
- intros (Sb & Sm & St). unfold smoothed_within.
  destruct (Effects.falsy (Effects.lastBass u));
    cbn [Effects.lastBass Effects.lastMid Effects.lastTreble Effects.stored];
    repeat split; lra.
- intro Hf. rewrite Hf. cbn [Effects.midIntensity Effects.trebleIntensity].
  split; lra.
Qed.

Lemma background_smoothing_witness :
  (Effects.midIntensity
     (Effects.updateBackgroundUniforms
        0 2 2
        {| Effects.lastBass := Some 0%Q; Effects.lastMid := Some (19#10);
           Effects.lastTreble := Some (19#10);
           Effects.bassIntensity := 0; Effects.midIntensity := 19#10;
           Effects.trebleIntensity := 19#10 |})
   == 2 * (5#100))%Q.
Proof.
apply (proj2 (background_smoothing 2 0 2 2
                {| Effects.lastBass := Some 0%Q; Effects.lastMid := Some (19#10);
                   Effects.lastTreble := Some (19#10);
                   Effects.bassIntensity := 0; Effects.midIntensity := 19#10;
                   Effects.trebleIntensity := 19#10 |}
                ltac:(split; discriminate) ltac:(split; discriminate)
                ltac:(split; discriminate))
             eq_refl).
Defined.

(** ** The camera engine: failures, shake and ranges *)

(** X17. [updateCameraPosition] leaves the camera, the controls and the
    random number generator as they are when it is not in first-person
    mode, has no path, no audio element or no sample at the current index;
    and when the path gives no valid point or tangent on [0, 0.99] it
    leaves the pose and the generator as they are, on every series without
    [NaN], and on every other series when the path gives none at [NaN]
    either. *)
Theorem camera_untouched_on_failure (M : Num.Numerics)
        (path : option Camera.curve) (audioElement : option Q)
        (energyData : series) (s : Config.state) (r : Camera.rig) :
  (Config.firstPersonMode s = false \/ path = None \/ audioElement = None
   \/ at_index energyData (Config.currentIndex s) = None ->
   Camera.updateCameraPosition M path audioElement energyData s r = Ret r)
  /\ (forall c,
         path = Some c ->
         (forall u, in_path u ->
                    Camera.getPointAt c u = None
                    \/ Camera.getTangentAt c u = None) ->
         (no_nan "time" energyData = true
          /\ no_nan "energy" energyData = true)
         \/ (Camera.getPointAt c None = None
             \/ Camera.getTangentAt c None = None) ->
         exists r',
           Camera.updateCameraPosition M path audioElement energyData s r
           = Ret r'
           /\ Camera.pose r' = Camera.pose r
           /\ Camera.drawn r' = Camera.drawn r
           /\ Camera.orbitTarget r' = Camera.orbitTarget r).
Proof.
split.
- unfold Camera.updateCameraPosition.
  intros [H|[H|[H|H]]].
  + rewrite H. reflexivity.
  + subst path. destruct (negb _); reflexivity.
  + subst audioElement. destruct (negb _); [reflexivity|].
    destruct path; [|reflexivity].
    destruct (at_index _ _); reflexivity.
  + rewrite H. destruct (negb _); [reflexivity|].
    destruct path; reflexivity.
- intros c Hc Hbad Hnan. subst path. unfold Camera.updateCameraPosition.
  destruct (negb (Config.firstPersonMode s));
    [exists r; repeat split|].
  destruct (at_index energyData (Config.currentIndex s));
    [|exists r; repeat split].
  destruct audioElement as [exactTime|]; [|exists r; repeat split].
  destruct (findNormalizedPositionFromTime_returns exactTime energyData)
    as [np [Hp _]].
  rewrite Hp. eexists. split; [reflexivity|].
  unfold Camera.place_camera. cbv zeta.
  assert (Hn : Camera.getPointAt c (Num.max_of 0 (Num.min_of (99#100) np))
               = None
               \/ Camera.getTangentAt c
                    (Num.max_of 0 (Num.min_of (99#100) np)) = None).
  { destruct np as [p|]; [apply Hbad, in_path_safePosition|].
    destruct Hnan as [[Hnt Hne]|Hn]; [|exact Hn].
    destruct (findNormalizedPositionFromTime_range exactTime energyData
                                                   Hnt Hne)
      as [p [Hp' _]].
    rewrite Hp in Hp'. discriminate. }
  clear Hnan Hbad.
  destruct Hn as [Hn|Hn].
  + rewrite Hn. repeat split.
  + destruct (Camera.getPointAt c _); [rewrite Hn|]; repeat split.
Qed.

Lemma camera_untouched_on_failure_witness :
  Camera.updateCameraPosition coarse (Some straight_track) None scenario
                              Config.initial_state rig0 = Ret rig0.
Proof.
apply (proj1 (camera_untouched_on_failure coarse (Some straight_track) None
                scenario Config.initial_state rig0)).
right. right. left. reflexivity.
Defined.

Lemma shake_step (k d g : Q) :
  (0 <= g <= 1)%Q -> (0 <= d)%Q ->
  (Qabs (k + (g - (1#2)) * d - k) <= d * (1#2))%Q.
Proof.
intros [G0 G1] Hd. apply Qabs_Qle_condition.
assert (E : (k + (g - (1#2)) * d - k == (g - (1#2)) * d)%Q) by ring.
rewrite E.
assert (0 <= g * d)%Q by (apply Qmult_le_0_compat; lra).
assert (0 <= (1 - g) * d)%Q by (apply Qmult_le_0_compat; lra).
split; lra.
Qed.

(** X18. The shake never touches the orientation; it moves each coordinate
    of the position by at most 0.025 times the magnitude of the rate, given
    draws within [0, 1]; it takes three draws when the magnitude exceeds
    0.05 and leaves the camera and the generator as they are otherwise,
    also on a rate that is [NaN]. *)
Theorem shake_is_bounded (rate : Q) (r : Camera.rig) :
  (forall n, (0 <= Camera.random r n <= 1)%Q) ->
  Camera.rotation (Camera.shake (Some rate) r) = Camera.rotation r
  /\ (forall c : Vec.vec3 -> Num.num,
         c = Vec.x \/ c = Vec.y \/ c = Vec.z ->
         forall k,
           c (Camera.position r) = Some k ->
           exists k',
             c (Camera.position (Camera.shake (Some rate) r)) = Some k'
             /\ (Qabs (k' - k) <= Qabs rate * (25#1000))%Q)
  /\ ((Qabs rate <= 5#100)%Q -> Camera.shake (Some rate) r = r)
  /\ ((5#100 < Qabs rate)%Q ->
      Camera.drawn (Camera.shake (Some rate) r) = (3 + Camera.drawn r)%nat)
  /\ Camera.shake None r = r.
Proof.
intro Hg. pose proof (Qabs_nonneg rate) as Hr.
split; [apply rotation_shake|].
unfold Camera.shake.
cbn [Num.abs Num.lift1 option_map gt_l].
destruct (Qltb (5#100) (Qabs rate)) eqn:E.
- apply Qltb_lt in E.
  cbn [Camera.Math_random Camera.position Camera.set_position Camera.drawn
       Camera.random Vec.x Vec.y Vec.z Vec.v].
  unfold Camera.shakeIntensity.
  assert (Hd : (0 <= Qabs rate * (5#100))%Q) by lra.
  assert (B : forall k g, (0 <= g <= 1)%Q ->
              (Qabs (k + (g - (1#2)) * (Qabs rate * (5#100)) - k)
               <= Qabs rate * (25#1000))%Q).
  { intros k g G. eapply Qle_trans; [apply shake_step; assumption|]. lra. }
  split.
  { intros c [-> | [-> | ->]] k Hk;
      cbn [Vec.x Vec.y Vec.z]; rewrite Hk;
      cbn [Num.plus Num.mult Num.lift2];
      (eexists; split; [reflexivity|apply B, Hg]). }
  split; [intro; lra|]. split; [reflexivity|reflexivity].
- apply Qltb_ge in E.
  split.
  { intros c _ k Hk. exists k. split; [exact Hk|].
    assert (Hz : (k - k == 0)%Q) by ring. rewrite Hz.
    change (Qabs 0) with 0%Q. lra. }
  split; [reflexivity|]. split; [intro; lra|reflexivity].
Qed.

Lemma shake_is_bounded_witness :
  exists k',
    Vec.x (Camera.position
             (Camera.shake (Some (4#10))
                (Camera.with_random (fun _ => 3#4) 0 rig0))) = Some k'
    /\ (Qabs (k' - 0) <= Qabs (4#10) * (25#1000))%Q.
Proof.
apply (proj1 (proj2 (shake_is_bounded
                       (4#10) (Camera.with_random (fun _ => 3#4) 0 rig0)
                       ltac:(intro n; split; discriminate)))
             Vec.x (or_introl eq_refl) 0%Q eq_refl).
Defined.

Lemma unit_energy_at (d : series) (i : Z) (e : Q) :
  unit_energies d = true -> energy_at d i = Some e -> (0 <= e <= 1)%Q.
Proof.
intros Hu He. unfold energy_at, at_index in He.
destruct (i <? 0); [discriminate|].
destruct (nth_error d (Z.to_nat i)) as [[s|]|] eqn:N; try discriminate.
unfold unit_energies in Hu. rewrite forallb_forall in Hu.
specialize (Hu (Some s) (nth_error_In _ _ N)). cbn beta iota in Hu.
unfold field in He.
destruct (get "energy" s) as [[q|]|]; try discriminate.
cbn [to_number] in He. inversion He; subst q.
apply andb_true_iff in Hu. destruct Hu as [H0 H1].
apply Qle_bool_iff in H0, H1. split; assumption.
Qed.

Lemma unit_energies_no_nan (d : series) :
  unit_energies d = true -> no_nan "energy" d = true.
Proof.
unfold unit_energies, no_nan. rewrite !forallb_forall.
intros Hu e He. specialize (Hu e He).
destruct e as [s|]; [|reflexivity].
destruct (get "energy" s) as [[q|]|]; [reflexivity|discriminate|reflexivity].
Qed.

(** X19. On a series whose energies lie within [0, 1], the rate of energy
    change the camera computes is a number of magnitude at most 0.5,
    whatever the position: the height above the track stays within
    [2.5, 5.5] (the floor of 2 is never reached), the look-ahead within
    [0.01, 0.03], the tilt multiplier within [1, 3.5] and the shake
    intensity within [0, 0.025]. *)
Theorem camera_effects_bounded (energyData : series) (p : Num.num) :
  unit_energies energyData = true ->
  exists rate,
    Camera.energyChangeRate p energyData = Some rate
    /\ (Qabs rate <= 1#2)%Q
    /\ (5#2 <= Camera.heightAboveTrack rate <= 11#2)%Q
    /\ (1#100 <= Camera.dynamicLookAhead rate <= 3#100)%Q
    /\ (1 <= Camera.tiltMultiplier rate <= 7#2)%Q
    /\ (0 <= Camera.shakeIntensity rate <= 25#1000)%Q.
Proof.
intro Hu.
destruct (energyChangeRate_number p energyData (unit_energies_no_nan _ Hu))
  as [rate Hr0].
exists rate. split; [exact Hr0|].
assert (Hrate : (- (1#2) <= rate <= 1#2)%Q).
{ revert Hr0. unfold Camera.energyChangeRate.
  destruct (Num.floor p) as [i|];
    [|intro H; inversion H; subst rate; split; discriminate].
  cbv zeta.
  destruct (has_number "energy" energyData _ && has_number "energy" energyData _);
    [|intro H; inversion H; subst rate; split; discriminate].
  destruct (energy_at energyData (Z.min _ _)) as [en|] eqn:En;
    [|discriminate].
  destruct (energy_at energyData (Z.max _ _)) as [ep|] eqn:Ep;
    [|discriminate].
  pose proof (unit_energy_at _ _ _ Hu En) as Un.
  pose proof (unit_energy_at _ _ _ Hu Ep) as Up.
  cbn [Num.div Num.minus Num.lift2]. intro Hq.
  apply (f_equal (fun o => match o with Some v => v | None => 0%Q end)) in Hq.
  cbv beta iota in Hq. rewrite <- Hq.
  unfold Qdiv. change (/ 2)%Q with (1#2). split; lra. }
assert (Habs : (Qabs rate <= 1#2)%Q) by (apply Qabs_Qle_condition; exact Hrate).
pose proof (Qabs_nonneg rate) as Hnn.
split; [exact Habs|].
unfold Camera.heightAboveTrack, Camera.dynamicLookAhead,
  Camera.tiltMultiplier, Camera.shakeIntensity,
  Config.defaultHeightAboveTrack.
split; [|split; [|split]]; try (split; lra).
split.
- eapply Qle_trans; [|apply Q.le_max_r]. lra.
- apply Q.max_lub; lra.
Qed.

Lemma camera_effects_bounded_witness :
  exists rate,
    Camera.energyChangeRate (Some (1#2)) scenario = Some rate
    /\ (Qabs rate <= 1#2)%Q
    /\ (5#2 <= Camera.heightAboveTrack rate <= 11#2)%Q
    /\ (1#100 <= Camera.dynamicLookAhead rate <= 3#100)%Q
    /\ (1 <= Camera.tiltMultiplier rate <= 7#2)%Q
    /\ (0 <= Camera.shakeIntensity rate <= 25#1000)%Q.
Proof.
apply (camera_effects_bounded scenario (Some (1#2))). reflexivity.
Defined.

(** ** The path generator: control points *)

Lemma derivedPoints_length (M : Num.Numerics) (f : string)
      (ed sd : series) (count : nat) :
  forall i,
    (List.length (Rollercoaster.derivedPoints M f ed sd i count) <= count)%nat.
Proof.
induction count as [|c IH]; intro i; cbn [Rollercoaster.derivedPoints].
- simpl. lia.
- destruct (Rollercoaster.controlPoint M f ed sd i); cbn [List.length];
    specialize (IH (i + 5)); lia.
Qed.

(** X20. For every non-empty series [createRollercoaster] returns a path of
    at least 4 control points, as the curve needs: the points derived from
    every fifth sample alone when there are at least 4 of them, and never
    more derived points than a fifth of the samples, rounded up. *)
Theorem createRollercoaster_enough_points
        (M : Num.Numerics) (geometryOk : bool)
        (energyData structureData : series) :
  energyData <> [] ->
  exists res,
    Rollercoaster.createRollercoaster M geometryOk energyData structureData
    = Ret (Some res)
    /\ (4 <= List.length (Rollercoaster.pathPoints res))%nat
    /\ (geometryOk = true ->
        (4 <= List.length
                (Rollercoaster.derived M energyData structureData))%nat ->
        Rollercoaster.pathPoints res
        = Rollercoaster.derived M energyData structureData)
    /\ Z.of_nat (List.length
                   (Rollercoaster.derived M energyData structureData))
       <= (len energyData + 4) / 5.
Proof.
intro Hne.
assert (Hd : Z.of_nat (List.length
                         (Rollercoaster.derived M energyData structureData))
             <= (len energyData + 4) / 5).
{ unfold Rollercoaster.derived.
  pose proof (derivedPoints_length M (Rollercoaster.energyField energyData)
                energyData structureData
                (Z.to_nat ((len energyData + 4) / 5)) 0) as H.
  assert (0 <= (len energyData + 4) / 5)
    by (apply Z.div_pos; unfold len; lia).
  lia. }
unfold Rollercoaster.createRollercoaster.
destruct energyData as [|e ed]; [congruence|].
set (data := e :: ed) in *.
assert (Hcp : (4 <= List.length
                       (Rollercoaster.controlPoints M data structureData))%nat
              /\ ((4 <= List.length
                          (Rollercoaster.derived M data structureData))%nat ->
                  Rollercoaster.controlPoints M data structureData
                  = Rollercoaster.derived M data structureData)).
{ unfold Rollercoaster.controlPoints.
  destruct (Z.of_nat _ <? 4) eqn:E.
  - apply Z.ltb_lt in E. split; [|lia].
    rewrite length_app, fallbackSpiral_length. lia.
  - apply Z.ltb_ge in E. split; [lia|reflexivity]. }
destruct Hcp as [H4 Heq].
destruct geometryOk; eexists; (split; [reflexivity|]);
  cbn [Rollercoaster.pathPoints].
- split; [exact H4|]. split; [intros _; exact Heq|exact Hd].
- split; [rewrite circlePoints_length; lia|].
  split; [discriminate|exact Hd].
Qed.

Lemma createRollercoaster_enough_points_witness :
  exists res,
    Rollercoaster.createRollercoaster coarse true scenario scenario
    = Ret (Some res)
    /\ (4 <= List.length (Rollercoaster.pathPoints res))%nat.
Proof.
destruct (createRollercoaster_enough_points coarse true scenario scenario)
  as (res & H1 & H2 & _).
- discriminate.
- exists res. split; assumption.
Defined.

Lemma cube_bounds (m : Q) :
  (0 <= m)%Q -> (0 <= Qpower m 3)%Q /\ ((m <= 1)%Q -> (Qpower m 3 <= 1)%Q).
Proof.
intro H0.
assert (E : (Qpower m 3 == m * (m * m))%Q) by (simpl; ring).
assert (H2 : (0 <= m * m)%Q) by (apply Qmult_le_0_compat; assumption).
rewrite E. split; [apply Qmult_le_0_compat; assumption|].
intro H1.
assert (m * m <= 1 * 1)%Q by (apply Qmult_le_compat_nonneg; split; lra).
assert (m * (m * m) <= 1 * 1)%Q
  by (apply Qmult_le_compat_nonneg; split; lra).
lra.
Qed.











(** ** The light orbs *)

Lemma updateOrb_on_track (path : Camera.curve)
      (a : option Player.audioData) (o : Orbs.orb) :
  on_track o ->
  on_track (fst (Orbs.updateOrb path a o))
  /\ Forall (fun q => (0 <= q <= 1)%Q) (snd (Orbs.updateOrb path a o)).
Proof.
intros (Hp & Hs & Ho). unfold Orbs.updateOrb.
set (p := if Qltb 1 (Orbs.position o + Orbs.speed o)
          then 0%Q else (Orbs.position o + Orbs.speed o)%Q).
assert (Hp' : (0 <= p <= 1)%Q).
{ unfold p. destruct (Qltb 1 _) eqn:E.
  - split; lra.
  - apply Qltb_ge in E. split; lra. }
assert (Hl : (0 <= Qmin (p + (1#100)) (99#100) <= 1)%Q).
{ split.
  - apply Q.min_glb; lra.
  - pose proof (Q.le_min_r (p + (1#100)) (99#100)). lra. }
destruct (Camera.getPointAt path (Some p)) as [point|];
  [destruct (Camera.getPointAt path (Some (Qmin (p + (1#100)) (99#100))))|];
  destruct a; cbn [fst snd]; unfold on_track;
    cbn [Orbs.position Orbs.speed Orbs.originalIntensity];
    (split; [repeat split; tauto|]); repeat constructor; tauto.
Qed.

Lemma forEach_on_track (path : Camera.curve)
      (a : option Player.audioData) (l : list Orbs.orb) :
  Forall on_track l ->
  Forall on_track (fst (Orbs.forEach path a l))
  /\ Forall (fun q => (0 <= q <= 1)%Q) (snd (Orbs.forEach path a l))
  /\ List.length (fst (Orbs.forEach path a l)) = List.length l.
Proof.
induction 1 as [|o l Ho Hl IH]; cbn [Orbs.forEach].
- cbn. repeat split; constructor.
- destruct (updateOrb_on_track path a o Ho) as [H1 H2].
  destruct (Orbs.updateOrb path a o) as [o' q].
  destruct (Orbs.forEach path a l) as [l' q'].
  cbn [fst snd] in *. destruct IH as (I1 & I2 & I3).
  split; [constructor; assumption|].
  split; [apply Forall_app; split; assumption|].
  cbn [List.length]. congruence.
Qed.

Lemma updateLightOrbs_on_track (path : option Camera.curve)
      (a : option Player.audioData) (s : Orbs.state) :
  Forall on_track (Orbs.lightOrbs s) ->
  Forall (fun q => (0 <= q <= 1)%Q) (Orbs.queried s) ->
  Forall on_track (Orbs.lightOrbs (Orbs.updateLightOrbs path a s))
  /\ Forall (fun q => (0 <= q <= 1)%Q)
            (Orbs.queried (Orbs.updateLightOrbs path a s))
  /\ List.length (Orbs.lightOrbs (Orbs.updateLightOrbs path a s))
     = List.length (Orbs.lightOrbs s).
Proof.
intros Hl Hq. unfold Orbs.updateLightOrbs.
destruct path as [c|]; [|repeat split; assumption].
destruct (Orbs.lightOrbs s) as [|o l] eqn:E;
  [rewrite E; repeat split; assumption|].
destruct (forEach_on_track c a (o :: l) Hl) as (H1 & H2 & H3).
destruct (Orbs.forEach c a (o :: l)) as [l' q].
cbn [fst snd Orbs.lightOrbs Orbs.queried] in *.
split; [assumption|]. split; [|assumption].
apply Forall_app; split; assumption.
Qed.

Lemma createOrb_on_track (count : nat) (random : nat -> Q) (i : nat) :
  (forall n, 0 <= random n <= 1)%Q -> (i < count)%nat ->
  on_track (Orbs.createOrb count random i).
Proof.
intros Hr Hi. unfold on_track, Orbs.createOrb.
cbn [Orbs.position Orbs.speed Orbs.originalIntensity].
specialize (Hr i).
assert (Hc : (0 < inject_Z (Z.of_nat count))%Q)
  by (change 0%Q with (inject_Z 0); rewrite <- Zlt_Qlt; lia).
assert (H0 : (0 <= inject_Z (Z.of_nat i))%Q)
  by (change 0%Q with (inject_Z 0); rewrite <- Zle_Qle; lia).
assert (H1 : (inject_Z (Z.of_nat i) <= inject_Z (Z.of_nat count))%Q)
  by (rewrite <- Zle_Qle; lia).
split; [split|split; [split; lra|reflexivity]].
- apply Qle_shift_div_l; [assumption|lra].
- apply Qle_shift_div_r; [assumption|lra].
Qed.

(** X22. With [Math.random()] within [0, 1], the orbs [createLightOrbs]
    makes stay on the track through every sequence of frames: there are
    always [count] of them, each at a position within [0, 1] with a speed
    within [0.0002, 0.0006], and every parameter [updateLightOrbs] passes
    to the path lies within [0, 1]. *)
Theorem orbs_stay_on_track (path : option Camera.curve) (count : nat)
        (random : nat -> Q) (frames : list (option Player.audioData)) :
  (forall n, 0 <= random n <= 1)%Q ->
  Forall on_track
         (Orbs.lightOrbs
            (orbs_after path frames (Orbs.createLightOrbs count random)))
  /\ Forall (fun q => (0 <= q <= 1)%Q)
            (Orbs.queried
               (orbs_after path frames (Orbs.createLightOrbs count random)))
  /\ List.length
       (Orbs.lightOrbs
          (orbs_after path frames (Orbs.createLightOrbs count random)))
     = count.
Proof.
intro Hr. unfold orbs_after.
assert (H0 : Forall on_track
                    (Orbs.lightOrbs (Orbs.createLightOrbs count random))
             /\ Forall (fun q => (0 <= q <= 1)%Q)
                       (Orbs.queried (Orbs.createLightOrbs count random))
             /\ List.length
                  (Orbs.lightOrbs (Orbs.createLightOrbs count random))
                = count).
{ cbn [Orbs.createLightOrbs Orbs.lightOrbs Orbs.queried].
  split; [|split; [constructor|rewrite length_map, length_seq; reflexivity]].
  apply Forall_forall. intros o Ho. apply in_map_iff in Ho.
  destruct Ho as (i & <- & Hi). apply in_seq in Hi.
  apply createOrb_on_track; [assumption|lia]. }
revert H0. generalize (Orbs.createLightOrbs count random) as s.
induction frames as [|a frames IH]; intros s H; cbn [fold_left];
  [exact H|].
apply IH. destruct H as (H1 & H2 & H3).
destruct (updateLightOrbs_on_track path a s H1 H2) as (G1 & G2 & G3).
split; [assumption|]. split; [assumption|congruence].
Qed.

Lemma frequencyBand_range (p : Q) :
  (0 <= p <= 1)%Q -> 0 <= Orbs.frequencyBand p <= 31.
Proof.
intros [H0 H1]. unfold Orbs.frequencyBand, Orbs.rem32, Orbs.truncate.
assert (Hq : (0 <= p * 31 / 32)%Q /\ (p * 31 / 32 < 1)%Q).
{ unfold Qdiv. change (/ 32)%Q with (1#32). split; lra. }
destruct Hq as [Hq0 Hq1].
destruct (Qltb (p * 31 / 32) 0) eqn:E; [apply Qltb_lt in E; lra|].
rewrite (Qfloor_unique (p * 31 / 32) 0); [|exact Hq0|exact Hq1].
assert (F0 : Qfloor 0 <= Qfloor (p * 31 - 32 * inject_Z 0))
  by (apply Qfloor_resp_le; change (inject_Z 0) with 0%Q; lra).
assert (F1 : Qfloor (p * 31 - 32 * inject_Z 0) <= Qfloor 31)
  by (apply Qfloor_resp_le; change (inject_Z 0) with 0%Q; lra).
change (Qfloor 0) with 0 in F0. change (Qfloor 31) with 31 in F1. lia.
Qed.

Lemma intensity_unit (a : Player.audioData) (band : Z) :
  0 <= band < Z.of_nat (List.length (Player.fullSpectrum a)) ->
  exists x, Orbs.intensity a band = Some x /\ (0 <= x <= 1)%Q.
Proof.
intros [H0 H1]. unfold Orbs.intensity.
destruct (band <? 0) eqn:E; [apply Z.ltb_lt in E; lia|].
destruct (nth_error (Player.fullSpectrum a) (Z.to_nat band)) as [b|] eqn:Eb.
- eexists. split; [reflexivity|].
  assert (Hb : 0 <= Player.byte_value b <= 255).
  { unfold Player.byte_value. pose proof (Byte.to_N_bounded b). lia. }
  assert (B0 : (0 <= inject_Z (Player.byte_value b))%Q)
    by (change 0%Q with (inject_Z 0); rewrite <- Zle_Qle; lia).
  assert (B1 : (inject_Z (Player.byte_value b) <= 255)%Q)
    by (change 255%Q with (inject_Z 255); rewrite <- Zle_Qle; lia).
  unfold Qdiv. change (/ 255)%Q with (1#255). split; lra.
- apply nth_error_None in Eb. lia.
Qed.

(** X23. On audio data of at least 32 bins an orb on the track gets, in
    every frame, a colour factor within [1, 3], an emissive intensity
    within [2, 6] and a scale within [1, 1.5], all of them numbers: its
    frequency band lies within the first 32 bins. *)
Theorem orb_appearance_bounded (path : Camera.curve)
        (a : Player.audioData) (o : Orbs.orb) :
  on_track o ->
  (32 <= List.length (Player.fullSpectrum a))%nat ->
  exists f e s,
    Orbs.intensityFactor (fst (Orbs.updateOrb path (Some a) o)) = Some f
    /\ Orbs.emissiveIntensity (fst (Orbs.updateOrb path (Some a) o)) = Some e
    /\ Orbs.scale (fst (Orbs.updateOrb path (Some a) o)) = Some s
    /\ (1 <= f <= 3)%Q /\ (2 <= e <= 6)%Q /\ (1 <= s <= 3#2)%Q.
Proof.
intros (Hp & Hs & Ho) Hlen. unfold Orbs.updateOrb.
set (p := if Qltb 1 (Orbs.position o + Orbs.speed o)
          then 0%Q else (Orbs.position o + Orbs.speed o)%Q).
assert (Hp' : (0 <= p <= 1)%Q).
{ unfold p. destruct (Qltb 1 _) eqn:E.
  - split; lra.
  - apply Qltb_ge in E. split; lra. }
pose proof (frequencyBand_range p Hp') as Hb.
destruct (intensity_unit a (Orbs.frequencyBand p)) as (x & Hx & Hx01);
  [lia|].
destruct (Camera.getPointAt path (Some p)) as [point|];
  [destruct (Camera.getPointAt path (Some (Qmin (p + (1#100)) (99#100))))|];
  cbn [fst Orbs.intensityFactor Orbs.emissiveIntensity Orbs.scale];
  rewrite Hx, Ho; cbn [option_map];
  do 3 eexists; (split; [reflexivity|]); (split; [reflexivity|]);
  (split; [reflexivity|]); repeat split; lra.
Qed.

Lemma orbs_stay_on_track_witness :
  Forall (fun q => (0 <= q <= 1)%Q)
         (Orbs.queried
            (orbs_after (Some straight_track) [None; None]
                        (Orbs.createLightOrbs 3 (fun _ => 1#2))))
  /\ List.length
       (Orbs.lightOrbs
          (orbs_after (Some straight_track) [None; None]
                      (Orbs.createLightOrbs 3 (fun _ => 1#2))))
     = 3%nat.
Proof.
apply (orbs_stay_on_track (Some straight_track) 3 (fun _ => 1#2)
                          [None; None]).
intros _. split; lra.
Defined.

Lemma orb_appearance_bounded_witness :
  exists f e s,
    Orbs.intensityFactor
      (fst (Orbs.updateOrb straight_track
              (Some (Player.getAudioData (repeat Byte.xff 128)))
              (Orbs.createOrb 3 (fun _ => 1#2) 1))) = Some f
    /\ Orbs.emissiveIntensity
         (fst (Orbs.updateOrb straight_track
                 (Some (Player.getAudioData (repeat Byte.xff 128)))
                 (Orbs.createOrb 3 (fun _ => 1#2) 1))) = Some e
    /\ Orbs.scale
         (fst (Orbs.updateOrb straight_track
                 (Some (Player.getAudioData (repeat Byte.xff 128)))
                 (Orbs.createOrb 3 (fun _ => 1#2) 1))) = Some s
    /\ (1 <= f <= 3)%Q /\ (2 <= e <= 6)%Q /\ (1 <= s <= 3#2)%Q.
Proof.
apply (orb_appearance_bounded straight_track
         (Player.getAudioData (repeat Byte.xff 128))
         (Orbs.createOrb 3 (fun _ => 1#2) 1)).
- unfold on_track, Orbs.createOrb.
  cbn [Orbs.position Orbs.speed Orbs.originalIntensity].
  split; [split; vm_compute; discriminate|].
  split; [split; vm_compute; discriminate|reflexivity].
- vm_compute. lia.
Defined.

(** ** The intro animation *)

Lemma ratio_unit (i n : Z) :
  0 < n -> 0 <= i <= Z.max 0 (n - 1) ->
  exists q, Intro.ratio i n = Some q /\ (0 <= q)%Q /\ (q < 1)%Q.
Proof.
intros Hn Hi. unfold Intro.ratio.
destruct (n =? 0) eqn:E; [apply Z.eqb_eq in E; lia|].
eexists. split; [reflexivity|].
assert (Hq : (0 < inject_Z n)%Q)
  by (change 0%Q with (inject_Z 0); rewrite <- Zlt_Qlt; lia).
assert (H0 : (0 <= inject_Z i)%Q)
  by (change 0%Q with (inject_Z 0); rewrite <- Zle_Qle; lia).
assert (H1 : (inject_Z i < inject_Z n)%Q) by (rewrite <- Zlt_Qlt; lia).
split.
- apply Qle_shift_div_l; [assumption|lra].
- apply Qlt_shift_div_r; [assumption|lra].
Qed.

Lemma normalizedPosition_unit (t : Q) (d : series) (u : Num.num) :
  d <> [] ->
  Intro.normalizedPosition t d = Ret u ->
  exists q, u = Some q /\ (0 <= q)%Q /\ (q < 1)%Q.
Proof.
intros Hne. unfold Intro.normalizedPosition.
destruct (Utils.findClosestTimeIndex t d) as [i| |] eqn:E;
  [|discriminate|discriminate].
intro H. inversion H; subst u.
assert (Hlen : 0 < len d) by (destruct d; [congruence|unfold len; cbn; lia]).
destruct (ratio_unit i (len d) Hlen) as (q & Hq & H0 & H1).
- unfold Utils.findClosestTimeIndex in E.
  apply (closest_loop_bounds t d (S (List.length d)) 0 (len d - 1) i);
    [lia|lia|exact E].
- exists q. repeat split; assumption.
Qed.

Lemma normalizedPosition_returns (t : Q) (d : series) :
  no_holes d = true -> exists u, Intro.normalizedPosition t d = Ret u.
Proof.
intro Hn. unfold Intro.normalizedPosition.
pose proof (findClosestTimeIndex_terminates t d) as Ht.
pose proof (closest_loop_no_throw t d (S (List.length d)) Hn 0 (len d - 1)
              ltac:(lia) ltac:(lia)) as Hx.
unfold Utils.findClosestTimeIndex in *.
destruct (Utils.closest_loop _ _ _ _ _) as [r| |];
  [eexists; reflexivity|contradiction|contradiction].
Qed.

(** X24. Every parameter the intro animation computes for the path lies
    within the path: the guarded position within [0, 0.99], the guarded
    point ahead within [0.01, 0.99] and, on a non-empty series, the
    unguarded look-ahead within [0.01, 0.99].  The unguarded look-ahead of
    an empty series is [NaN].  On a series without missing entries the
    guarded parameters are always computed. *)
Theorem intro_parameters_within_path (audio : option Q)
        (energyData : series) :
  (forall u, Intro.positionParameter audio energyData = Ret u ->
             exists q, u = Some q /\ (0 <= q <= 99#100)%Q)
  /\ (forall u, Intro.aheadParameter audio energyData = Ret u ->
                exists q, u = Some q /\ (1#100 <= q <= 99#100)%Q)
  /\ (forall u, energyData <> [] ->
                Intro.lookAheadPosition audio energyData = Ret u ->
                exists q, u = Some q /\ (1#100 <= q <= 99#100)%Q)
  /\ (forall t, Intro.lookAheadPosition (Some t) [] = Ret None)
  /\ (no_holes energyData = true ->
      (exists u, Intro.positionParameter audio energyData = Ret u)
      /\ (exists u, Intro.aheadParameter audio energyData = Ret u)).
Proof.
assert (Hmin : forall q, (0 <= q)%Q -> (0 <= Qmin q (99#100) <= 99#100)%Q).
{ intros q Hq. split; [apply Q.min_glb; lra|apply Q.le_min_r]. }
assert (Hah : forall q, (0 <= q)%Q ->
                        (1#100 <= Qmin (q + (1#100)) (99#100) <= 99#100)%Q).
{ intros q Hq. split; [apply Q.min_glb; lra|apply Q.le_min_r]. }
assert (Hne : 0 < len energyData -> energyData <> []).
{ intros H ->. unfold len in H. cbn in H. lia. }
split; [|split; [|split; [|split]]].
- intros u. unfold Intro.positionParameter.
  destruct audio as [t|];
    [|intro H; inversion H; exists 0%Q; split; [reflexivity|split; lra]].
  destruct (len energyData >? 0) eqn:E;
    [|intro H; inversion H; exists 0%Q; split; [reflexivity|split; lra]].
  rewrite Z.gtb_ltb in E. apply Z.ltb_lt in E.
  destruct (Intro.normalizedPosition t energyData) as [np| |] eqn:En;
    [|discriminate|discriminate].
  destruct (normalizedPosition_unit t energyData np (Hne E) En)
    as (q & -> & H0 & H1).
  intro H. inversion H. eexists. split; [reflexivity|apply Hmin; exact H0].
- intros u. unfold Intro.aheadParameter.
  destruct audio as [t|];
    [|intro H; inversion H; exists (1#100)%Q; split; [reflexivity|split; lra]].
  destruct (len energyData >? 0) eqn:E;
    [|intro H; inversion H; exists (1#100)%Q;
      split; [reflexivity|split; lra]].
  rewrite Z.gtb_ltb in E. apply Z.ltb_lt in E.
  destruct (Intro.normalizedPosition t energyData) as [np| |] eqn:En;
    [|discriminate|discriminate].
  destruct (normalizedPosition_unit t energyData np (Hne E) En)
    as (q & -> & H0 & H1).
  intro H. inversion H. eexists. split; [reflexivity|apply Hah; exact H0].
- intros u Hd. unfold Intro.lookAheadPosition.
  destruct audio as [t|]; [|discriminate].
  destruct (Intro.normalizedPosition t energyData) as [np| |] eqn:En;
    [|discriminate|discriminate].
  destruct (normalizedPosition_unit t energyData np Hd En)
    as (q & -> & H0 & H1).
  intro H. inversion H. eexists. split; [reflexivity|apply Hah; exact H0].
- intro t. reflexivity.
- intro Hn. unfold Intro.positionParameter, Intro.aheadParameter.
  destruct audio as [t|]; [|split; eexists; reflexivity].
  destruct (len energyData >? 0); [|split; eexists; reflexivity].
  destruct (normalizedPosition_returns t energyData Hn) as [u ->].
  split; eexists; reflexivity.
Qed.

Lemma intro_parameters_within_path_witness :
  scenario <> []
  /\ exists u q, Intro.lookAheadPosition (Some 2%Q) scenario = Ret u
                 /\ u = Some q /\ (1#100 <= q <= 99#100)%Q.
Proof.
split; [discriminate|].
destruct (proj1 (proj2 (proj2
            (intro_parameters_within_path (Some 2%Q) scenario)))
            _ ltac:(discriminate) eq_refl) as (q & Hq & Hr).
eexists. exists q. split; [reflexivity|]. split; assumption.
Defined.

Lemma cube_monotone (a b : Q) :
  (0 <= a)%Q -> (a <= b)%Q -> (Qpower a 3 <= Qpower b 3)%Q.
Proof.
intros Ha Hab.
assert (Ea : (Qpower a 3 == a * (a * a))%Q) by (simpl; ring).
assert (Eb : (Qpower b 3 == b * (b * b))%Q) by (simpl; ring).
rewrite Ea, Eb.
assert (H2 : (a * a <= b * b)%Q)
  by (apply Qmult_le_compat_nonneg; split; assumption).
assert (H0 : (0 <= a * a)%Q) by (apply Qmult_le_0_compat; assumption).
apply Qmult_le_compat_nonneg; split; assumption.
Qed.

Lemma progress_unit (e : Q) :
  (0 <= e)%Q -> (0 <= Intro.progress e <= 1)%Q.
Proof.
intro He. unfold Intro.progress. split.
- apply Q.min_glb; [|lra]. unfold Qdiv. change (/ 8)%Q with (1#8). lra.
- apply Q.le_min_r.
Qed.

Lemma progress_monotone (e1 e2 : Q) :
  (e1 <= e2)%Q -> (Intro.progress e1 <= Intro.progress e2)%Q.
Proof.
intro H. unfold Intro.progress. apply Q.min_glb.
- pose proof (Q.le_min_l (e1 / 8) 1) as Hl.
  unfold Qdiv in *. change (/ 8)%Q with (1#8) in *. lra.
- apply Q.le_min_r.
Qed.

(** X25. While the intro runs, the eased progress stays within [0, 1] and
    never decreases with the elapsed time; from 8 seconds on the progress
    is 1 and so is the eased progress, and the blend factor of the last
    fifth lies within (0, 1]. *)
Theorem intro_easing (e1 e2 : Q) :
  (0 <= e1)%Q -> (e1 <= e2)%Q ->
  (0 <= Intro.eased (Intro.progress e1))%Q
  /\ (Intro.eased (Intro.progress e1)
      <= Intro.eased (Intro.progress e2))%Q
  /\ (Intro.eased (Intro.progress e2) <= 1)%Q
  /\ ((8 <= e2)%Q ->
      (Intro.progress e2 == 1)%Q
      /\ (Intro.eased (Intro.progress e2) == 1)%Q)
  /\ ((8#10 < Intro.progress e1)%Q ->
      (0 < Intro.blendFactor (Intro.progress e1) <= 1)%Q).
Proof.
intros H0 H12.
assert (H2 : (0 <= e2)%Q) by lra.
pose proof (progress_unit e1 H0) as [P1a P1b].
pose proof (progress_unit e2 H2) as [P2a P2b].
pose proof (progress_monotone e1 e2 H12) as Pm.
assert (H8 : (8 <= e2)%Q -> (Intro.progress e2 == 1)%Q).
{ intro H8. unfold Intro.progress.
  apply Q.min_r. unfold Qdiv. change (/ 8)%Q with (1#8). lra. }
set (p1 := Intro.progress e1) in *. set (p2 := Intro.progress e2) in *.
assert (C1 : (0 <= Qpower (1 - p1) 3)%Q /\ (Qpower (1 - p1) 3 <= 1)%Q).
{ destruct (cube_bounds (1 - p1)) as [A B]; [lra|].
  split; [exact A|apply B; lra]. }
assert (C2 : (0 <= Qpower (1 - p2) 3)%Q /\ (Qpower (1 - p2) 3 <= 1)%Q).
{ destruct (cube_bounds (1 - p2)) as [A B]; [lra|].
  split; [exact A|apply B; lra]. }
assert (Cm : (Qpower (1 - p2) 3 <= Qpower (1 - p1) 3)%Q)
  by (apply cube_monotone; lra).
destruct C1 as [C1a C1b]. destruct C2 as [C2a C2b].
unfold Intro.eased.
split; [lra|]. split; [lra|]. split; [lra|]. split.
- intro G8. specialize (H8 G8). split; [exact H8|].
  assert (E : (Qpower (1 - p2) 3 == (1 - p2) * ((1 - p2) * (1 - p2)))%Q)
    by (simpl; ring).
  rewrite E, H8. reflexivity.
- intro H. unfold Intro.blendFactor, Qdiv.
  change (/ (2#10))%Q with (10#2). split; lra.
Qed.

Lemma intro_easing_witness :
  (Intro.eased (Intro.progress 2) <= Intro.eased (Intro.progress 4))%Q
  /\ (Intro.eased (Intro.progress 4) <= 1)%Q.
Proof.
destruct (intro_easing 2 4) as (_ & A & B & _).
- lra.
- lra.
- split; assumption.
Defined.

Lemma square_bounds (u : Q) :
  (0 <= u)%Q -> (u <= 1)%Q ->
  (0 <= Qpower u 2)%Q /\ (Qpower u 2 <= 1)%Q.
Proof.
intros H0 H1.
assert (E : (Qpower u 2 == u * u)%Q) by (simpl; ring).
rewrite E. split; [apply Qmult_le_0_compat; assumption|].
assert (u * u <= 1 * 1)%Q by (apply Qmult_le_compat_nonneg; split; lra).
lra.
Qed.

Lemma square_monotone (a b : Q) :
  (0 <= a)%Q -> (a <= b)%Q -> (a * a <= b * b)%Q.
Proof.
intros Ha Hab. apply Qmult_le_compat_nonneg; split; assumption.
Qed.

Lemma easeInOutQuad_low (t : Q) :
  (t < 1#2)%Q -> (Intro.easeInOutQuad t == 2 * (t * t))%Q.
Proof.
intro H. unfold Intro.easeInOutQuad.
destruct (Qltb t (1#2)) eqn:E; [ring|apply Qltb_ge in E; lra].
Qed.

Lemma easeInOutQuad_high (t : Q) :
  (1#2 <= t)%Q ->
  (Intro.easeInOutQuad t == 1 - 2 * ((1 - t) * (1 - t)))%Q.
Proof.
intro H. unfold Intro.easeInOutQuad.
destruct (Qltb t (1#2)) eqn:E; [apply Qltb_lt in E; lra|].
simpl. field.
Qed.

(** X26. On [0, 1] the easing of the transition to the first-person camera
    stays within [0, 1], starts at 0 and ends at 1, never decreases, and is
    symmetric about the middle: the values at [t] and at [1 - t] add up
    to 1. *)
Theorem easeInOutQuad_unit (t t' : Q) :
  (0 <= t)%Q -> (t <= t')%Q -> (t' <= 1)%Q ->
  (0 <= Intro.easeInOutQuad t)%Q
  /\ (Intro.easeInOutQuad t <= Intro.easeInOutQuad t')%Q
  /\ (Intro.easeInOutQuad t' <= 1)%Q
  /\ (Intro.easeInOutQuad t + Intro.easeInOutQuad (1 - t) == 1)%Q
  /\ (Intro.easeInOutQuad 0 == 0)%Q
  /\ (Intro.easeInOutQuad 1 == 1)%Q.
Proof.
intros H0 Htt H1.
assert (Hs : (0 <= t * t)%Q) by (apply Qmult_le_0_compat; lra).
assert (Hs' : (0 <= (1 - t') * (1 - t'))%Q)
  by (apply Qmult_le_0_compat; lra).
split; [|split; [|split; [|split; [|split]]]].
- destruct (Qlt_le_dec t (1#2)) as [L|G].
  + rewrite (easeInOutQuad_low t L). lra.
  + rewrite (easeInOutQuad_high t G).
    assert ((1 - t) * (1 - t) <= (1#2) * (1#2))%Q
      by (apply Qmult_le_compat_nonneg; split; lra).
    lra.
- destruct (Qlt_le_dec t' (1#2)) as [L'|G'].
  + rewrite (easeInOutQuad_low t' L'), (easeInOutQuad_low t) by lra.
    pose proof (square_monotone t t' H0 Htt). lra.
  + rewrite (easeInOutQuad_high t' G').
    assert (Hh : ((1 - t') * (1 - t') <= (1#2) * (1#2))%Q)
      by (apply Qmult_le_compat_nonneg; split; lra).
    destruct (Qlt_le_dec t (1#2)) as [L|G].
    * rewrite (easeInOutQuad_low t L).
      assert (t * t <= (1#2) * (1#2))%Q
        by (apply Qmult_le_compat_nonneg; split; lra).
      lra.
    * rewrite (easeInOutQuad_high t G).
      pose proof (square_monotone (1 - t') (1 - t)
                    ltac:(lra) ltac:(lra)).
      lra.
- destruct (Qlt_le_dec t' (1#2)) as [L'|G'].
  + rewrite (easeInOutQuad_low t' L').
    assert (t' * t' <= (1#2) * (1#2))%Q
      by (apply Qmult_le_compat_nonneg; split; lra).
    lra.
  + rewrite (easeInOutQuad_high t' G'). lra.
- destruct (Qlt_le_dec t (1#2)) as [L|G].
  + rewrite (easeInOutQuad_low t L), (easeInOutQuad_high (1 - t)) by lra.
    ring.
  + rewrite (easeInOutQuad_high t G).
    destruct (Qlt_le_dec (1 - t) (1#2)) as [L2|G2].
    * rewrite (easeInOutQuad_low (1 - t) L2). ring.
    * rewrite (easeInOutQuad_high (1 - t) G2).
      assert (Et : (t == 1#2)%Q) by lra.
      rewrite Et. reflexivity.
- reflexivity.
- reflexivity.
Qed.

Lemma easeInOutQuad_unit_witness :
  (Intro.easeInOutQuad (1#4) <= Intro.easeInOutQuad (3#4))%Q
  /\ (Intro.easeInOutQuad (1#4) + Intro.easeInOutQuad (1 - (1#4)) == 1)%Q.
Proof.
destruct (easeInOutQuad_unit (1#4) (3#4)) as (_ & A & _ & B & _).
- lra.
- lra.
- lra.
- split; assumption.
Defined.

Lemma updateTransition_invariant (startTime now : Q) (fails : bool)
      (s : Intro.transition) :
  Intro.scheduled s = true ->
  transition_invariant s ->
  transition_invariant (Intro.updateTransition startTime now fails s).
Proof.
unfold transition_invariant, flash_pending, flash_released.
destruct s as [fi fo ov fs fp c a sc].
cbn [Intro.fadedIn Intro.fadedOut Intro.overlay Intro.fades
     Intro.firstPersonMode Intro.introAnimationComplete
     Intro.isIntroAnimationActive Intro.scheduled].
intros -> (-> & Hf & _).
unfold Intro.updateTransition. cbv zeta.
assert (Hrel : Qltb (now - startTime) 2000 = false ->
               Qle_bool (startTime + 2000 * (35#100)) now = true).
{ intro E. apply Qltb_ge in E. apply Qle_bool_iff. lra. }
revert Hrel.
generalize (Qle_bool (startTime + 2000 * (35#100)) now) as b1.
generalize (Qle_bool (startTime + 2000 * (65#100)) now) as b2.
generalize (Qltb (now - startTime) 2000) as b3.
intros b3 b2 b1 Hrel.
destruct Hf as [(-> & -> & ->)|[(-> & -> & _ & ->)|(-> & [d ->] & [->|Hd])]];
  [| | |discriminate];
  destruct b1, b2, b3, fails;
  try (specialize (Hrel eq_refl); discriminate);
  cbn;
  (split; [reflexivity|]);
  (split; [|intro; try discriminate; repeat split; reflexivity]);
  first [ left; repeat split; reflexivity
        | right; left; repeat split; reflexivity
        | right; right; split; [reflexivity|];
          split; [eexists; reflexivity|];
          first [left; reflexivity|right; reflexivity] ].
Qed.

Lemma run_transition_invariant (startTime : Q) (frames : list (Q * bool)) :
  forall s, transition_invariant s ->
            transition_invariant (Intro.run_transition startTime frames s).
Proof.
unfold Intro.run_transition.
induction frames as [|k frames IH]; intros s Hs; cbn [fold_left];
  [exact Hs|].
apply IH. destruct (Intro.scheduled s) eqn:E; [|exact Hs].
apply updateTransition_invariant; assumption.
Qed.

Lemma run_transition_stopped (startTime : Q) (frames : list (Q * bool)) :
  forall s, Intro.scheduled s = false ->
            Intro.run_transition startTime frames s = s.
Proof.
unfold Intro.run_transition.
induction frames as [|k frames IH]; intros s Hs; cbn [fold_left];
  [reflexivity|].
rewrite Hs. apply IH. exact Hs.
Qed.

Lemma updateTransition_late (startTime now : Q) (fails : bool)
      (s : Intro.transition) :
  (startTime + 2000 <= now)%Q ->
  Intro.scheduled (Intro.updateTransition startTime now fails s) = false
  /\ Intro.fadedIn (Intro.updateTransition startTime now fails s) = true.
Proof.
intro H. unfold Intro.updateTransition.
destruct (Qltb (now - startTime) 2000) eqn:E; [apply Qltb_lt in E; lra|].
assert (E1 : Qle_bool (startTime + 2000 * (35#100)) now = true)
  by (apply Qle_bool_iff; lra).
rewrite E1.
destruct s as [fi fo ov fs fp c a sc].
destruct fi, fo, ov;
  destruct (Qle_bool (startTime + 2000 * (65#100)) now);
  split; reflexivity.
Qed.

(** X27. Through every sequence of frames of the transition to the
    first-person camera the white flash is started at most once and, once
    the transition has ended, it has been released by exactly one fade
    from white; the ended transition leaves the first-person mode on and
    the intro inactive.  A frame at 2 seconds or later ends it, and a
    transition that runs that long without an error has flashed. *)
Theorem flash_is_released (startTime : Q) (frames : list (Q * bool)) :
  (Intro.fades (Intro.run_transition startTime frames
                                     Intro.start_transition) = []
   \/ (flash_pending (Intro.run_transition startTime frames
                                           Intro.start_transition)
       /\ Intro.scheduled (Intro.run_transition startTime frames
                                                Intro.start_transition)
          = true)
   \/ flash_released (Intro.run_transition startTime frames
                                           Intro.start_transition))
  /\ (Intro.scheduled (Intro.run_transition startTime frames
                                            Intro.start_transition) = false ->
      Intro.firstPersonMode (Intro.run_transition startTime frames
                                                  Intro.start_transition)
      = true
      /\ Intro.isIntroAnimationActive
           (Intro.run_transition startTime frames Intro.start_transition)
         = false)
  /\ (Exists (fun k => (startTime + 2000 <= fst k)%Q) frames ->
      Intro.scheduled (Intro.run_transition startTime frames
                                            Intro.start_transition) = false)
  /\ (Exists (fun k => (startTime + 2000 <= fst k)%Q) frames ->
      Forall (fun k => snd k = false) frames ->
      flash_released (Intro.run_transition startTime frames
                                           Intro.start_transition)).
Proof.
assert (H0 : transition_invariant Intro.start_transition).
{ unfold transition_invariant. cbn.
  split; [reflexivity|]. split; [left; repeat split|discriminate]. }
pose proof (run_transition_invariant startTime frames _ H0) as (Ho & Hf & Hs).
assert (Hend : forall s,
           Exists (fun k => (startTime + 2000 <= fst k)%Q) frames ->
           Intro.scheduled (Intro.run_transition startTime frames s)
           = false).
{ clear. intros s He. revert s.
  induction He as [k frames Hk|k frames He IH]; intro s.
  - unfold Intro.run_transition. cbn [fold_left].
    fold (Intro.run_transition startTime frames
            (if Intro.scheduled s
             then Intro.updateTransition startTime (fst k) (snd k) s
             else s)).
    rewrite run_transition_stopped;
      destruct (Intro.scheduled s) eqn:E; try assumption;
      apply updateTransition_late; assumption.
  - unfold Intro.run_transition. cbn [fold_left]. apply IH. }
split; [|split; [|split]].
- destruct Hf as [(_ & _ & H)|[(_ & _ & Hsc & H)|(_ & H & _)]];
    [left; exact H|right; left; split; assumption|right; right; exact H].
- intro Hsc. destruct (Hs Hsc) as (A & B & _). split; assumption.
- apply Hend.
- intros He Hok.
  assert (G : forall s,
             transition_invariant s -> Intro.scheduled s = true ->
             Exists (fun k => (startTime + 2000 <= fst k)%Q) frames ->
             Forall (fun k => snd k = false) frames ->
             Intro.fadedIn (Intro.run_transition startTime frames s) = true).
  { clear. induction frames as [|k frames IH]; intros s Hi Hsc He Hok;
      [inversion He|].
    unfold Intro.run_transition. cbn [fold_left]. rewrite Hsc.
    fold (Intro.run_transition startTime frames
            (Intro.updateTransition startTime (fst k) (snd k) s)).
    inversion Hok as [|k' fr Hk Hrest]; subst.
    pose proof (updateTransition_invariant startTime (fst k) (snd k) s
                  Hsc Hi) as Hi'.
    destruct (Qlt_le_dec (fst k) (startTime + 2000)) as [Early|Late].
    - inversion He as [k' fr Hk'|k' fr He']; subst; [lra|].
      apply IH; try assumption.
      unfold Intro.updateTransition. rewrite Hk.
      destruct (Qltb (fst k - startTime) 2000) eqn:E;
        [|apply Qltb_ge in E; lra].
      reflexivity.
    - destruct (updateTransition_late startTime (fst k) (snd k) s Late)
        as [Hst Hfi].
      rewrite run_transition_stopped; assumption. }
  specialize (G _ H0 eq_refl He Hok).
  destruct Hf as [(Hfi & _)|[(_ & _ & Hsc & _)|(_ & H & _)]];
    [congruence| |exact H].
  rewrite (Hend _ He) in Hsc. discriminate.
Qed.

Lemma flash_is_released_witness :
  flash_released
    (Intro.run_transition 0 [(0, false); (800, false); (2100, false)]%Q
                          Intro.start_transition).
Proof.
apply (proj2 (proj2 (proj2
         (flash_is_released
            0 [(0, false); (800, false); (2100, false)]%Q)))).
- right. right. left. cbn. lra.
- repeat constructor.
Defined.
